(** * better-bookmarks-scraper: thumbnail detection and banner dismissal

    A shallow embedding of the decision core of the screenshot service:
    - [VideoThumbnailDetector] (src/services/VideoThumbnailDetector.ts),
    - [BannerHandler]          (src/services/BannerHandler.ts),
    - [BrowserManager.takeIntelligentScreenshot]
                               (src/services/BrowserManager.ts).

    In the pipeline, JavaScript numbers that carry scores and ratios are
    modelled as exact rationals ([Q]), pixel sizes and millisecond clocks
    as integers ([Z]); this leaves the rounding of doubles out.  The
    scoring step, whose value depends on that rounding, is given on
    IEEE 754 doubles as well ([Binary64]), and what is stated of the
    value of a score is stated there.
    The browser is an interface ([Browser]) whose operations may throw. *)

From Stdlib Require Import ZArith QArith Qabs Qround Qminmax Bool List String Ascii.
From Stdlib.Strings Require Import Byte.
From Stdlib Require Import DecimalString DecimalNat.
From Stdlib Require Import Lia Lqa Permutation Sorted.
From Stdlib Require Floats.
Import ListNotations.

Infix "+++" := String.append (right associativity, at level 60).

(** ** JavaScript runtime helpers *)

Module Js.

(** Result of an operation that may throw an [Error] with a message. *)
Inductive Exc (A : Type) : Type :=
| Ok (a : A)
| Throw (message : string).
Arguments Ok {A} a.
Arguments Throw {A} message.

(** The double-quote character, and a string wrapped in double quotes. *)
Definition dq : string := String (ascii_of_nat 34) EmptyString.
Definition q (s : string) : string := dq +++ s +++ dq.

(** [String.prototype.includes]. *)
Fixpoint includes (s pat : string) : bool :=
  match s with
  | EmptyString => String.prefix pat EmptyString
  | String _ s' => String.prefix pat s || includes s' pat
  end.

(** [String.prototype.toLowerCase] on the ASCII letters. *)
Definition lower_ascii (c : ascii) : ascii :=
  let n := nat_of_ascii c in
  if (65 <=? n)%nat && (n <=? 90)%nat then ascii_of_nat (n + 32) else c.

Fixpoint toLowerCase (s : string) : string :=
  match s with
  | EmptyString => EmptyString
  | String c s' => String (lower_ascii c) (toLowerCase s')
  end.

(** Truthiness of an optional number: [undefined] and [0] are falsy. *)
Definition truthyZ (x : option Z) : bool :=
  match x with
  | Some v => negb (v =? 0)%Z
  | None => false
  end.

Definition truthyQ (x : option Q) : bool :=
  match x with
  | Some v => negb (Qeq_bool v 0)
  | None => false
  end.

(** Truthiness of a string: the empty string is falsy. *)
Definition truthyS (s : string) : bool :=
  match s with EmptyString => false | String _ _ => true end.

Definition Qltb (a b : Q) : bool := negb (Qle_bool b a).

Definition Math_min (a b : Q) : Q := if Qle_bool a b then a else b.

(** [Math.round]: nearest integer, halves rounded up. *)
Definition Math_round (x : Q) : Z := Qfloor (x + (1 # 2)).

(** [Array.prototype.some]. *)
Definition some {A} (f : A -> bool) (l : list A) : bool := existsb f l.

(** [Array.prototype.sort] with a comparator.  The language standard
    requires the sort to be stable; [cmp a b > 0] places [a] after [b].
    Insertion from the right keeps equal elements in encounter order. *)
Fixpoint sort_insert {A} (cmp : A -> A -> Q) (x : A) (l : list A) : list A :=
  match l with
  | [] => [x]
  | y :: l' => if Qltb 0 (cmp x y) then y :: sort_insert cmp x l' else x :: l
  end.

Fixpoint sort {A} (cmp : A -> A -> Q) (l : list A) : list A :=
  match l with
  | [] => []
  | x :: l' => sort_insert cmp x (sort cmp l')
  end.

End Js.
Import Js.

(** ** Data model of VideoThumbnailDetector.ts *)

(** [ThumbnailCandidate].  The diagnostic [element] locator is never read
    by any decision and is left out. *)
Record ThumbnailCandidate : Type := mkCandidate {
  url : string;
  source : string;
  confidence : Q;
  width : option Z;
  height : option Z;
  aspectRatio : option Q;
  method : string
}.

(** [VideoDetectionResult]; the diagnostic [detectionLog] is left out. *)
Record VideoDetectionResult : Type := mkDetection {
  hasVideo : bool;
  thumbnail : option ThumbnailCandidate;
  candidates : list ThumbnailCandidate
}.

(** In-place field updates performed by [validateAndScoreCandidates]. *)
Definition set_url (c : ThumbnailCandidate) (u : string) :=
  mkCandidate u (source c) (confidence c) (width c) (height c) (aspectRatio c) (method c).
Definition set_dimensions (c : ThumbnailCandidate) (w h : Z) :=
  mkCandidate (url c) (source c) (confidence c) (Some w) (Some h) (aspectRatio c) (method c).
Definition set_aspectRatio (c : ThumbnailCandidate) (r : Q) :=
  mkCandidate (url c) (source c) (confidence c) (width c) (height c) (Some r) (method c).
Definition set_confidence (c : ThumbnailCandidate) (k : Q) :=
  mkCandidate (url c) (source c) k (width c) (height c) (aspectRatio c) (method c).

(** ** The page as seen by scripts run with [page.evaluate] *)

Definition Buffer : Type := list byte.

Record DOMRect : Type := mkRect {
  rect_x : Q; rect_y : Q; rect_width : Q; rect_height : Q
}.

(** Clip region passed to [page.screenshot]. *)
Record Region : Type := mkRegion {
  region_x : Z; region_y : Z; region_width : Z; region_height : Z
}.

Record VideoElement : Type := mkVideo {
  poster : string;
  video_getAttribute : string -> option string;
  video_rect : DOMRect
}.

Record Iframe : Type := mkIframe {
  iframe_src : Exc string;
  contentFrame_throws : bool;
  iframe_poster : Exc (option string)
    (* data-poster || data-thumb || data-thumbnail *)
}.

Record OEmbedData : Type := mkOEmbed {
  thumbnail_url : option string;
  thumbnail_width : option Z;
  thumbnail_height : option Z
}.

Record OEmbedLink : Type := mkLink {
  href : string;
  oembed_response : Exc OEmbedData   (* fetch(href) then response.json() *)
}.

Record Dom : Type := mkDom {
  ogImage : option string;
    (* content of the first meta[property=og:image], when the tag exists *)
  twitterImage : option string;
  schemaThumbnails : list string;
    (* string thumbnailUrl of each VideoObject met by the recursive walk
       over the parsed ld+json blocks, in visiting order *)
  videos : list VideoElement;
  containerImages : list (bool * string);
    (* images with a source met by the container walk, in visiting
       order; the flag is set for images found in a sibling *)
  cssBackgrounds : list string;
    (* background-image URLs of elements whose class or id is video related *)
  iframes : list Iframe;
  oembedLinks : list OEmbedLink;
  videoContainers : list DOMRect;
    (* bounding boxes of the class/id video or player containers *)
  count : string -> nat;
    (* document.querySelectorAll(selector).length *)
  resolveUrl : string -> string;
    (* new URL(url, location.href).href, or url itself when that throws *)
  naturalSize : string -> Z * Z;
    (* natural size of the image once loaded; (0, 0) on error or timeout *)
  fetchBytes : string -> Exc Buffer
    (* fetch(url) and read the body; throws unless response.ok *)
}.

(** ** The browser interface *)

Record CaptureOptions : Type := mkShot {
  shot_type : string;
  shot_fullPage : bool;
  shot_quality : option Z;
  shot_clip : option Region
}.

(** Operations of the page and of the runtime on a world [W]: the open
    tab together with the wall clock.  [Elem] are element handles. *)
Class Browser (W Elem : Type) : Type := {
  Date_now : W -> Z;
  setTimeout : Z -> W -> W;
  browser_newPage : W -> Exc unit * W;
  page_goto : string -> W -> Exc unit * W;
  page_close : W -> Exc unit * W;
  page_evaluate : W -> Exc Dom * W;
  page_query : string -> W -> Exc (option Elem) * W;
  page_queryContains : string -> string -> string -> W -> Exc (option Elem) * W;
  element_isVisible : Elem -> W -> Exc bool * W;
  element_scrollIntoView : Elem -> W -> Exc unit * W;
  element_click : Elem -> W -> Exc unit * W;
  element_remove : Elem -> W -> Exc unit * W;
  page_addStyleTag : string -> W -> Exc unit * W;
  page_screenshot : CaptureOptions -> W -> Exc Buffer * W
}.

(** What the program did, in order. *)
Inductive Event : Type :=
| EvPass (n : nat) (t : Z)       (* pass [n] of the banner loop entered at clock [t] *)
| EvTry (pattern : string)       (* handleBannerPattern called *)
| EvHandled (pattern : string)   (* handleBannerPattern returned true *)
| EvSleep (ms : Z)               (* awaited setTimeout *)
| EvClick (selector : string)
| EvRemove (selector : string)
| EvFetch (url : string)         (* thumbnail download started *)
| EvCrop                         (* detectVideoRegionAndCrop called *)
| EvScreenshot.                  (* takeRegularScreenshot called *)

(** ** State and exception monad *)

Module Run.
Section Monad.
Context {W : Type}.

Record State : Type := mkState { world : W; log : list Event }.

Definition M (A : Type) : Type := State -> Exc A * State.

Definition ret {A} (a : A) : M A := fun s => (Ok a, s).

Definition throw {A} (message : string) : M A := fun s => (Throw message, s).

Definition bind {A B} (m : M A) (k : A -> M B) : M B :=
  fun s => match m s with
           | (Ok a, s') => k a s'
           | (Throw e, s') => (Throw e, s')
           end.

(** [try { m } catch (error) { handler(error.message) }]. *)
Definition try_catch {A} (m : M A) (handler : string -> M A) : M A :=
  fun s => match m s with
           | (Ok a, s') => (Ok a, s')
           | (Throw e, s') => handler e s'
           end.

(** [try { m } finally { f }] where [f] does not throw. *)
Definition finally {A} (m : M A) (f : M unit) : M A :=
  fun s => match m s with
           | (r, s') => (r, snd (f s'))
           end.

Definition lift {A} (op : W -> Exc A * W) : M A :=
  fun s => match op (world s) with
           | (r, w') => (r, mkState w' (log s))
           end.

Definition emit (e : Event) : M unit :=
  fun s => (Ok tt, mkState (world s) (log s ++ [e])).

Definition start (w : W) : State := mkState w [].

End Monad.
End Run.
Import Run.
Arguments State W : clear implicits.
Arguments M W A : clear implicits.

Notation "x <- m ;; k" := (bind m (fun x => k))
  (at level 61, m at next level, right associativity).
Notation "m ;;; k" := (bind m (fun _ => k))
  (at level 61, right associativity).

Section Timers.
Context {W Elem : Type} {B : Browser W Elem}.

(** [Date.now()]. *)
Definition now : M W Z := fun s => (Ok (Date_now (world s)), s).

(** [await new Promise(resolve => setTimeout(resolve, ms))]. *)
Definition sleep (ms : Z) : M W unit :=
  lift (fun w => (Ok tt, setTimeout ms w)) ;;; emit (EvSleep ms).

(** Run [m] and hand back its outcome instead of throwing. *)
Definition attempt {A} (m : M W A) : M W (Exc A) :=
  try_catch (a <- m ;; ret (Ok a)) (fun e => ret (Throw e)).

End Timers.

(** ** VideoThumbnailDetector.ts *)

Module VideoThumbnailDetector.

Definition MIN_THUMBNAIL_WIDTH : Z := 200.
Definition MIN_THUMBNAIL_HEIGHT : Z := 150.
Definition PREFERRED_ASPECT_RATIOS : list Q :=
  [16 / 9; 4 / 3; 3 / 2; 1.85; 2.35]%Q.
Definition MAX_ASPECT_RATIO_DEVIATION : Q := 0.3.

(** *** The six extraction scripts *)

Definition raw (u src : string) (k : Q) (m : string) : ThumbnailCandidate :=
  mkCandidate u src k None None None m.

Definition ifTruthy (content : option string)
           (mk : string -> ThumbnailCandidate) : list ThumbnailCandidate :=
  match content with
  | Some v => if truthyS v then [mk v] else []
  | None => []
  end.

Definition extractMetadataThumbnails (d : Dom) : list ThumbnailCandidate :=
  ifTruthy (ogImage d) (fun u => raw u "og:image" 0.8 "metadata")
  ++ ifTruthy (twitterImage d) (fun u => raw u "twitter:image" 0.7 "metadata")
  ++ map (fun u => raw u "schema.org VideoObject" 0.9 "metadata")
         (schemaThumbnails d).

Definition dataAttrs : list string :=
  ["data-thumb"; "data-poster"; "data-thumbnail"; "data-preview"; "data-image"]%string.

Definition videoCandidates (video : VideoElement) : list ThumbnailCandidate :=
  (if truthyS (poster video)
   then [raw (poster video) "video poster" 0.9 "video-element"] else [])
  ++ flat_map (fun attr =>
                 ifTruthy (video_getAttribute video attr)
                          (fun value => raw value ("video " +++ attr) 0.8 "video-element"))
              dataAttrs.

Definition extractVideoElementThumbnails (d : Dom) : list ThumbnailCandidate :=
  flat_map videoCandidates (videos d).

Definition extractDOMThumbnails (d : Dom) : list ThumbnailCandidate :=
  map (fun img : bool * string =>
         if fst img
         then raw (snd img) "sibling image" 0.5 "dom-traversal"
         else raw (snd img) "container image" 0.6 "dom-traversal")
      (containerImages d).

Definition extractCSSBackgroundThumbnails (d : Dom) : list ThumbnailCandidate :=
  map (fun u => raw u "CSS background" 0.7 "css-background") (cssBackgrounds d).

Definition looksLikePlayer (src : string) : bool :=
  truthyS src &&
  (includes src "youtube" || includes src "vimeo" ||
   includes src "dailymotion" || includes src "twitch" ||
   includes src "player" || includes src "embed").

(** The loop over the iframes; a throw outside the inner [try] leaves
    the loop with the candidates gathered so far. *)
Fixpoint iframeLoop (l : list Iframe) (acc : list ThumbnailCandidate)
  : list ThumbnailCandidate :=
  match l with
  | [] => acc
  | iframe :: rest =>
      match iframe_src iframe with
      | Throw _ => acc
      | Ok src =>
          if looksLikePlayer src && contentFrame_throws iframe then
            match iframe_poster iframe with
            | Throw _ => acc
            | Ok p =>
                iframeLoop rest
                  (acc ++ ifTruthy p (fun u => raw u "iframe data attribute" 0.6 "iframe"))
            end
          else iframeLoop rest acc
      end
  end.

Definition oembedCandidates (link : OEmbedLink) : list ThumbnailCandidate :=
  if truthyS (href link) then
    match oembed_response link with
    | Ok data =>
        ifTruthy (thumbnail_url data)
                 (fun u => mkCandidate u "oEmbed" 0.8 (thumbnail_width data)
                                       (thumbnail_height data) None "oembed")
    | Throw _ => []
    end
  else [].

Definition extractOEmbedThumbnails (d : Dom) : list ThumbnailCandidate :=
  flat_map oembedCandidates (oembedLinks d).

(** *** Validation, scoring, selection *)

Definition rejectPatterns : list string :=
  ["icon"; "favicon"; "logo"; "sprite"; "avatar"; "profile";
   "button"; "arrow"; "close"; "play-button"; "controls"]%string.

(** [x && x < minimum]: a falsy [x] skips the comparison. *)
Definition below (x : option Z) (minimum : Z) : bool :=
  match x with
  | Some v => truthyZ x && (v <? minimum)%Z
  | None => false
  end.

(** The ratio test, with the subtraction carried out exactly;
    [Binary64.near] is the test on doubles. *)
Definition near (deviation : Q) (r : Q) : bool :=
  some (fun ratio => Qle_bool (Qabs (r - ratio)) deviation)
       PREFERRED_ASPECT_RATIOS.

Definition isValidThumbnail (candidate : ThumbnailCandidate) : bool :=
  if below (width candidate) MIN_THUMBNAIL_WIDTH then false
  else if below (height candidate) MIN_THUMBNAIL_HEIGHT then false
  else
    let url := toLowerCase (url candidate) in
    if some (fun pattern => includes url pattern) rejectPatterns then false
    else
      match aspectRatio candidate with
      | Some r =>
          if truthyQ (Some r) then
            let isReasonableAspectRatio := near MAX_ASPECT_RATIO_DEVIATION r in
            if negb isReasonableAspectRatio && Qltb r 0.5 then false else true
          else true
      | None => true
      end.

(** [calculateFinalConfidence] with its additions carried out exactly.
    [Binary64.calculateFinalConfidence] is the function on doubles, with
    the rounding of every addition; the two differ in the last digits
    of a sum and at the tolerance of the ratio test. *)
Definition calculateFinalConfidence (candidate : ThumbnailCandidate) : Q :=
  let confidence := confidence candidate in
  let confidence :=
    match width candidate, height candidate with
    | Some w, Some h =>
        if truthyZ (Some w) && truthyZ (Some h) then
          let area := (w * h)%Z in
          if (500000 <? area)%Z then confidence + 0.1
          else if (200000 <? area)%Z then confidence + 0.05
          else confidence
        else confidence
    | _, _ => confidence
    end in
  let confidence :=
    match aspectRatio candidate with
    | Some r =>
        if truthyQ (Some r) then
          let hasGoodAspectRatio := near 0.1 r in
          if hasGoodAspectRatio then confidence + 0.1 else confidence
        else confidence
    | None => confidence
    end in
  let confidence :=
    if includes (source candidate) "video" || includes (source candidate) "poster"
    then confidence + 0.1 else confidence in
  Math_min confidence 1.0.

(** Comparator of [selectBestCandidate]: [b.confidence - a.confidence]. *)
Definition byConfidenceDesc (a b : ThumbnailCandidate) : Q :=
  confidence b - confidence a.

(** [selectBestCandidate] sorts its argument in place; the second
    component is the content of the argument array after the call. *)
Definition selectBestCandidate (candidates : list ThumbnailCandidate)
  : option ThumbnailCandidate * list ThumbnailCandidate :=
  match candidates with
  | [] => (None, [])
  | _ :: _ =>
      let sorted := sort byConfidenceDesc candidates in
      (hd_error sorted, sorted)
  end.

(** *** Presence and region scripts *)

Definition videoIndicators : list string :=
  ["[class*=" +++ q "video" +++ "]"; "[id*=" +++ q "video" +++ "]";
   "[class*=" +++ q "player" +++ "]"; "[id*=" +++ q "player" +++ "]";
   "iframe[src*=" +++ q "youtube" +++ "]"; "iframe[src*=" +++ q "vimeo" +++ "]";
   "iframe[src*=" +++ q "dailymotion" +++ "]"; "iframe[src*=" +++ q "twitch" +++ "]"].

Definition videoPresence (d : Dom) : bool :=
  (0 <? List.length (videos d))%nat
  || some (fun selector => (0 <? count d selector)%nat) videoIndicators.

Definition roundRect (r : DOMRect) : Region :=
  mkRegion (Math_round (rect_x r)) (Math_round (rect_y r))
           (Math_round (rect_width r)) (Math_round (rect_height r)).

Definition plausiblePlayer (r : DOMRect) : bool :=
  let aspectRatio := rect_width r / rect_height r in
  Qltb 1.3 aspectRatio && Qltb aspectRatio 2.5 &&
  Qltb 300 (rect_width r) && Qltb 200 (rect_height r).

Definition findVideoRegion (d : Dom) : option Region :=
  match videos d with
  | video :: _ => Some (roundRect (video_rect video))
  | [] => option_map roundRect (find plausiblePlayer (videoContainers d))
  end.

(** *** The parts that talk to the page *)

Section WithBrowser.
Context {W Elem : Type} {B : Browser W Elem}.

Definition evaluate {A} (script : Dom -> A) : M W A :=
  d <- lift page_evaluate ;; ret (script d).

Definition extractIframeThumbnails : M W (list ThumbnailCandidate) :=
  try_catch (evaluate (fun d => iframeLoop (iframes d) []))
            (fun _ => ret []).

(** Body of the loop of [validateAndScoreCandidates] for one
    candidate: [Some] when the candidate is pushed. *)
Definition validateCandidate (candidate : ThumbnailCandidate)
  : M W (option ThumbnailCandidate) :=
  try_catch
    (absoluteUrl <- evaluate (fun d => resolveUrl d (url candidate)) ;;
     let candidate := set_url candidate absoluteUrl in
     candidate <-
       (if negb (truthyZ (width candidate)) || negb (truthyZ (height candidate))
        then dimensions <- evaluate (fun d => naturalSize d absoluteUrl) ;;
             ret (set_dimensions candidate (fst dimensions) (snd dimensions))
        else ret candidate) ;;
     let candidate :=
       match width candidate, height candidate with
       | Some w, Some h =>
           if truthyZ (Some w) && truthyZ (Some h)
           then set_aspectRatio candidate (inject_Z w / inject_Z h)
           else candidate
       | _, _ => candidate
       end in
     if isValidThumbnail candidate
     then ret (Some (set_confidence candidate (calculateFinalConfidence candidate)))
     else ret None)
    (fun _ => ret None).

Fixpoint validateAndScoreCandidates (candidates : list ThumbnailCandidate)
  : M W (list ThumbnailCandidate) :=
  match candidates with
  | [] => ret []
  | candidate :: rest =>
      r <- validateCandidate candidate ;;
      validCandidates <- validateAndScoreCandidates rest ;;
      ret (match r with
           | Some c => c :: validCandidates
           | None => validCandidates
           end)
  end.

Definition detectVideoPresence : M W bool := evaluate videoPresence.

Definition detectVideoThumbnail : M W VideoDetectionResult :=
  try_catch
    (metadataCandidates <- evaluate extractMetadataThumbnails ;;
     videoCandidates <- evaluate extractVideoElementThumbnails ;;
     domCandidates <- evaluate extractDOMThumbnails ;;
     cssCandidates <- evaluate extractCSSBackgroundThumbnails ;;
     iframeCandidates <- extractIframeThumbnails ;;
     oembedCandidates <- evaluate extractOEmbedThumbnails ;;
     let candidates :=
       metadataCandidates ++ videoCandidates ++ domCandidates
       ++ cssCandidates ++ iframeCandidates ++ oembedCandidates in
     validCandidates <- validateAndScoreCandidates candidates ;;
     let selection := selectBestCandidate validCandidates in
     let bestCandidate := fst selection in
     let validCandidates := snd selection in
     hasVideo <-
       (if (0 <? List.length candidates)%nat then ret true else detectVideoPresence) ;;
     ret (mkDetection hasVideo bestCandidate validCandidates))
    (fun _ => ret (mkDetection false None [])).

Definition detectVideoRegionAndCrop : M W (option Buffer) :=
  emit EvCrop ;;;
  try_catch
    (videoRegion <- evaluate findVideoRegion ;;
     match videoRegion with
     | Some region =>
         if (0 <? region_width region)%Z && (0 <? region_height region)%Z
         then screenshot <-
                lift (page_screenshot (mkShot "png" false None (Some region))) ;;
              ret (Some screenshot)
         else ret None
     | None => ret None
     end)
    (fun _ => ret None).

End WithBrowser.

End VideoThumbnailDetector.

(** ** BannerHandler.ts *)

Module BannerHandler.

Inductive Action : Type := Click | Remove.

Record BannerPattern : Type := mkPattern {
  name : string;
  selectors : list string;
  action : Action;
  waitAfter : option Z
}.

Definition adultSiteAgeVerification : BannerPattern :=
  mkPattern "Adult Site Age Verification"
    ["button:contains(" +++ q "I am 18 or older - Enter" +++ ")";
     "a:contains(" +++ q "I am 18 or older - Enter" +++ ")";
     "button:contains(" +++ q "I am 18 or older" +++ ")";
     "a:contains(" +++ q "I am 18 or older" +++ ")";
     "button:contains(" +++ q "Enter Site" +++ ")";
     "a:contains(" +++ q "Enter Site" +++ ")";
     "button:contains(" +++ q "Enter" +++ ")";
     "a:contains(" +++ q "Enter" +++ ")";
     ".agegate-enter";
     ".age-verification-enter";
     "[class*=" +++ q "agegate" +++ "] button";
     "[class*=" +++ q "agegate" +++ "] a";
     "[class*=" +++ q "age-verification" +++ "] button";
     "[class*=" +++ q "age-verification" +++ "] a";
     "[href*=" +++ q "enter" +++ "]";
     "[onclick*=" +++ q "enter" +++ "]";
     "[data-action*=" +++ q "enter" +++ "]"]%string
    Click (Some 3000%Z).

Definition cookieAcceptAll : BannerPattern :=
  mkPattern "Cookie Accept All"
    ["button[id*=" +++ q "accept" +++ "]";
     "button[class*=" +++ q "accept" +++ "]";
     "button:contains(" +++ q "Accept all" +++ ")";
     "button:contains(" +++ q "Alle akzeptieren" +++ ")";
     "button:contains(" +++ q "Alle Cookies akzeptieren" +++ ")";
     "button:contains(" +++ q "Cookies verwenden" +++ ")";
     "button:contains(" +++ q "Accepter tout" +++ ")";
     "button:contains(" +++ q "Aceptar todo" +++ ")";
     "button:contains(" +++ q "Accetta tutto" +++ ")";
     "[data-testid*=" +++ q "accept" +++ "]";
     "[aria-label*=" +++ q "accept" +++ "]";
     ".cookie-accept";
     "#cookie-accept";
     ".accept-cookies";
     "#accept-cookies";
     ".consent-accept";
     "#consent-accept"]%string
    Click (Some 1000%Z).

Definition germanCookieAccept : BannerPattern :=
  mkPattern "German Cookie Accept"
    ["button:contains(" +++ q "Alle Cookies akzeptieren" +++ ")";
     "button:contains(" +++ q "Cookies verwenden" +++ ")";
     "button:contains(" +++ q "Cookies akzeptieren" +++ ")";
     "button:contains(" +++ q "Alle akzeptieren" +++ ")";
     "button:contains(" +++ q "Einverstanden" +++ ")";
     "button:contains(" +++ q "Zustimmen" +++ ")";
     "button:contains(" +++ q "Cookies zulassen" +++ ")";
     "button:contains(" +++ q "Alle zulassen" +++ ")";
     "[data-action*=" +++ q "accept" +++ "]:contains(" +++ q "Cookies" +++ ")";
     "[onclick*=" +++ q "accept" +++ "]:contains(" +++ q "Cookies" +++ ")";
     ".cookie-button:contains(" +++ q "akzeptieren" +++ ")";
     ".consent-button:contains(" +++ q "akzeptieren" +++ ")"]%string
    Click (Some 1000%Z).

Definition cookieOkAgree : BannerPattern :=
  mkPattern "Cookie OK/Agree"
    ["button:contains(" +++ q "OK" +++ ")";
     "button:contains(" +++ q "Agree" +++ ")";
     "button:contains(" +++ q "I agree" +++ ")";
     "button:contains(" +++ q "Zustimmen" +++ ")";
     "button:contains(" +++ q "Einverstanden" +++ ")";
     "button:contains(" +++ q "D'accord" +++ ")";
     "button:contains(" +++ q "De acuerdo" +++ ")";
     "button:contains(" +++ q "Sono d'accordo" +++ ")";
     ".cookie-ok";
     "#cookie-ok";
     ".agree-button";
     "#agree-button"]%string
    Click (Some 1000%Z).

Definition ageVerification18 : BannerPattern :=
  mkPattern "Age Verification - 18+"
    ["button:contains(" +++ q "I am 18 or older" +++ ")";
     "button:contains(" +++ q "I am 18 or older - Enter" +++ ")";
     "button:contains(" +++ q "Enter" +++ ")";
     "button:contains(" +++ q "Yes, I am 18+" +++ ")";
     "button:contains(" +++ q "I am over 18" +++ ")";
     "button:contains(" +++ q "Ich bin 18 oder √§lter" +++ ")";
     "button:contains(" +++ q "J'ai 18 ans ou plus" +++ ")";
     "button:contains(" +++ q "Tengo 18 a√±os o m√°s" +++ ")";
     "button:contains(" +++ q "Ho 18 anni o pi√π" +++ ")";
     "a:contains(" +++ q "I am 18 or older" +++ ")";
     "a:contains(" +++ q "I am 18 or older - Enter" +++ ")";
     "a:contains(" +++ q "Enter" +++ ")";
     "[href*=" +++ q "enter" +++ "]:contains(" +++ q "18" +++ ")";
     "[href*=" +++ q "enter" +++ "]:contains(" +++ q "older" +++ ")";
     "[data-testid*=" +++ q "age-verify" +++ "]";
     "[data-testid*=" +++ q "enter-site" +++ "]";
     ".age-verify-enter";
     "#age-verify-enter";
     ".enter-site";
     "#enter-site";
     "*:contains(" +++ q "I am 18 or older - Enter" +++ ")";
     "*:contains(" +++ q "I am 18 or older" +++ ")";
     ".agegate button";
     ".age-verification button";
     "[class*=" +++ q "age" +++ "] button:contains(" +++ q "Enter" +++ ")";
     "[class*=" +++ q "age" +++ "] a:contains(" +++ q "Enter" +++ ")"]%string
    Click (Some 2000%Z).

Definition youTubeCookieAccept : BannerPattern :=
  mkPattern "YouTube Cookie Accept"
    ["button[aria-label*=" +++ q "Accept the use of cookies" +++ "]";
     "button:contains(" +++ q "Alle akzeptieren" +++ ")";
     "button:contains(" +++ q "Accept all" +++ ")";
     "ytd-button-renderer button[aria-label*=" +++ q "Accept" +++ "]";
     "[data-testid=" +++ q "accept-button" +++ "]";
     "ytd-button-renderer:contains(" +++ q "Alle akzeptieren" +++ ") button";
     "ytd-button-renderer:contains(" +++ q "Accept all" +++ ") button";
     "c3-material-button:contains(" +++ q "Alle akzeptieren" +++ ")";
     "c3-material-button:contains(" +++ q "Accept all" +++ ")";
     "[role=" +++ q "button" +++ "]:contains(" +++ q "Alle akzeptieren" +++ ")";
     "[role=" +++ q "button" +++ "]:contains(" +++ q "Accept all" +++ ")";
     "button[jsname]:contains(" +++ q "Alle akzeptieren" +++ ")";
     "button[jsname]:contains(" +++ q "Accept all" +++ ")"]%string
    Click (Some 1500%Z).

Definition modalClose : BannerPattern :=
  mkPattern "Modal Close"
    ["button[aria-label=" +++ q "Close" +++ "]";
     "button[aria-label=" +++ q "Schlie√üen" +++ "]";
     "button[aria-label=" +++ q "Fermer" +++ "]";
     "button[aria-label=" +++ q "Cerrar" +++ "]";
     "button[aria-label=" +++ q "Chiudi" +++ "]";
     ".modal-close";
     ".close-modal";
     ".popup-close";
     ".overlay-close";
     "[data-dismiss=" +++ q "modal" +++ "]"]%string
    Click (Some 500%Z).

Definition gdprAccept : BannerPattern :=
  mkPattern "GDPR Accept"
    ["button:contains(" +++ q "Accept and continue" +++ ")";
     "button:contains(" +++ q "Akzeptieren und fortfahren" +++ ")";
     "button:contains(" +++ q "Accepter et continuer" +++ ")";
     "button:contains(" +++ q "Aceptar y continuar" +++ ")";
     "button:contains(" +++ q "Accetta e continua" +++ ")";
     ".gdpr-accept";
     "#gdpr-accept";
     ".privacy-accept";
     "#privacy-accept"]%string
    Click (Some 1000%Z).

Definition newsletterClose : BannerPattern :=
  mkPattern "Newsletter Close"
    ["button:contains(" +++ q "No thanks" +++ ")";
     "button:contains(" +++ q "Maybe later" +++ ")";
     "button:contains(" +++ q "Skip" +++ ")";
     "button:contains(" +++ q "Nein danke" +++ ")";
     "button:contains(" +++ q "Sp√§ter" +++ ")";
     "button:contains(" +++ q "Non merci" +++ ")";
     "button:contains(" +++ q "Plus tard" +++ ")";
     "button:contains(" +++ q "No gracias" +++ ")";
     "button:contains(" +++ q "M√°s tarde" +++ ")";
     "button:contains(" +++ q "No grazie" +++ ")";
     "button:contains(" +++ q "Pi√π tardi" +++ ")";
     ".newsletter-close";
     ".subscription-close";
     ".popup-dismiss"]%string
    Click (Some 500%Z).

Definition COMMON_BANNER_PATTERNS : list BannerPattern :=
  [adultSiteAgeVerification;
   cookieAcceptAll;
   germanCookieAccept;
   cookieOkAgree;
   ageVerification18;
   youTubeCookieAccept;
   modalClose;
   gdprAccept;
   newsletterClose].

Definition maxAttempts : nat := 5.

(** *** Splitting a [:contains()] selector

    The regular expression of [handleBannerPattern] reads: a non-empty
    base without colon, then [:contains(], a quoted non-empty text
    without quote, [)], and a suffix without line terminator.  Both
    character classes stop at the first excluded character, so the
    match is deterministic. *)

Fixpoint span (keep : ascii -> bool) (s : string) : string * string :=
  match s with
  | EmptyString => (EmptyString, EmptyString)
  | String c s' =>
      if keep c
      then let r := span keep s' in (String c (fst r), snd r)
      else (EmptyString, s)
  end.

Fixpoint stripPrefix (p s : string) : option string :=
  match p, s with
  | EmptyString, _ => Some s
  | String a p', String b s' => if Ascii.eqb a b then stripPrefix p' s' else None
  | String _ _, EmptyString => None
  end.

Definition chars (codes : list nat) : string :=
  fold_right (fun n s => String (ascii_of_nat n) s) EmptyString codes.

(** Line terminators, which [.] does not match: LF, CR, U+2028, U+2029. *)
Definition hasLineTerminator (s : string) : bool :=
  includes s (chars [10%nat]) || includes s (chars [13%nat])
  || includes s (chars [226; 128; 168]%nat) || includes s (chars [226; 128; 169]%nat).

Definition matchContains (selector : string) : option (string * string * string) :=
  let r := span (fun c => negb (Ascii.eqb c ":")) selector in
  let baseSelector := fst r in
  if truthyS baseSelector then
    match stripPrefix (":contains(" +++ dq) (snd r) with
    | Some rest =>
        let r := span (fun c => negb (Ascii.eqb c (ascii_of_nat 34))) rest in
        let text := fst r in
        if truthyS text then
          match stripPrefix (dq +++ ")") (snd r) with
          | Some suffix =>
              if hasLineTerminator suffix then None
              else Some (baseSelector, text, suffix)
          | None => None
          end
        else None
    | None => None
    end
  else None.

(** Summary of one run of the loop of [handleBanners]: the final values
    of its two counters. *)
Record LoopSummary : Type := mkSummary {
  attempts : nat;
  bannersHandled : nat
}.

(** Selectors hidden by [injectBannerBlockingCSS]. *)
Definition blockedContainers : list string :=
  ["[id*=" +++ q "cookie-banner" +++ "]"; "[class*=" +++ q "cookie-banner" +++ "]";
   "[id*=" +++ q "cookie-notice" +++ "]"; "[class*=" +++ q "cookie-notice" +++ "]";
   "[id*=" +++ q "gdpr-banner" +++ "]"; "[class*=" +++ q "gdpr-banner" +++ "]";
   "[id*=" +++ q "consent-banner" +++ "]"; "[class*=" +++ q "consent-banner" +++ "]";
   "[id*=" +++ q "privacy-banner" +++ "]"; "[class*=" +++ q "privacy-banner" +++ "]";
   ".cookie-bar"; ".gdpr-bar"; ".consent-bar"; ".privacy-bar";
   ".newsletter-popup"; ".subscription-popup"; ".age-verification-overlay";
   ".modal-backdrop"; ".overlay-backdrop"]%string.

Definition blockingCSS : string :=
  String.concat ", " blockedContainers
  +++ " { display: none !important; visibility: hidden !important;"
  +++ " opacity: 0 !important; z-index: -9999 !important; }"
  +++ " body { overflow: auto !important; }".

Section WithBrowser.
Context {W Elem : Type} {B : Browser W Elem}.

(** Resolution of one selector to an element handle. *)
Definition locate (selector : string) : M W (option Elem) :=
  if includes selector ":contains(" then
    match matchContains selector with
    | Some (baseSelector, text, suffix) =>
        lift (page_queryContains baseSelector text suffix)
    | None => ret None
    end
  else lift (page_query selector).

(** One turn of the loop of [handleBannerPattern]: [true] when the
    function returns [true], [false] when the loop continues. *)
Definition trySelector (pattern : BannerPattern) (selector : string) : M W bool :=
  try_catch
    (element <- locate selector ;;
     match element with
     | None => ret false
     | Some el =>
         isVisible <- lift (element_isVisible el) ;;
         if negb isVisible then ret false
         else
           match action pattern with
           | Click =>
               lift (element_scrollIntoView el) ;;;
               sleep 200 ;;;
               lift (element_click el) ;;;
               emit (EvClick selector) ;;;
               ret true
           | Remove =>
               lift (element_remove el) ;;;
               emit (EvRemove selector) ;;;
               ret true
           end
     end)
    (fun _ => ret false).

Fixpoint trySelectors (pattern : BannerPattern) (l : list string) : M W bool :=
  match l with
  | [] => ret false
  | selector :: rest =>
      done <- trySelector pattern selector ;;
      if done then ret true else trySelectors pattern rest
  end.

Definition handleBannerPattern (pattern : BannerPattern) : M W bool :=
  trySelectors pattern (selectors pattern).

(** The [for] loop over the catalog inside one pass; the result is
    [foundBanner]. *)
Fixpoint scanPatterns (patterns : list BannerPattern) (maxTime : Z) : M W bool :=
  match patterns with
  | [] => ret false
  | pattern :: rest =>
      t <- now ;;
      if (maxTime <=? t)%Z then ret false
      else
        found <-
          try_catch
            (emit (EvTry (name pattern)) ;;;
             handled <- handleBannerPattern pattern ;;
             if handled then
               emit (EvHandled (name pattern)) ;;;
               match waitAfter pattern with
               | Some ms => if truthyZ (Some ms) then sleep ms else ret tt
               | None => ret tt
               end ;;;
               ret true
             else ret false)
            (fun _ => ret false) ;;
        if found then ret true else scanPatterns rest maxTime
  end.

(** The [while] loop.  [fuel] bounds the number of turns; [None]
    would mean that the bound was too small. *)
Fixpoint bannerLoop (fuel : nat) (patterns : list BannerPattern) (maxTime : Z)
         (attempts bannersHandled : nat) : M W (option LoopSummary) :=
  match fuel with
  | O => ret None
  | S fuel' =>
      t <- now ;;
      if (t <? maxTime)%Z && (attempts <? maxAttempts)%nat then
        let attempts := S attempts in
        emit (EvPass attempts t) ;;;
        foundBanner <- scanPatterns patterns maxTime ;;
        if negb foundBanner then ret (Some (mkSummary attempts bannersHandled))
        else
          sleep 500 ;;;
          bannerLoop fuel' patterns maxTime attempts (S bannersHandled)
      else ret (Some (mkSummary attempts bannersHandled))
  end.

(** [handleBanners] over a given catalog.  The result is [None] when
    the [catch] clause ran. *)
Definition handleBannersWith (patterns : list BannerPattern) (timeout : Z)
  : M W (option LoopSummary) :=
  startTime <- now ;;
  let maxTime := (startTime + timeout)%Z in
  try_catch
    (sleep 800 ;;;
     summary <- bannerLoop (S maxAttempts) patterns maxTime 0 0 ;;
     sleep 500 ;;;
     ret summary)
    (fun _ => ret None).

Definition handleBanners (timeout : Z) : M W (option LoopSummary) :=
  handleBannersWith COMMON_BANNER_PATTERNS timeout.

Definition handleCustomBanner (selector : string) : M W unit :=
  try_catch
    (element <- lift (page_query selector) ;;
     match element with
     | Some el =>
         isVisible <- lift (element_isVisible el) ;;
         if isVisible then
           lift (element_click el) ;;;
           emit (EvClick selector) ;;;
           sleep 1000
         else ret tt
     | None => ret tt
     end)
    (fun _ => ret tt).

Fixpoint handleCustomBanners (customSelectors : list string) : M W unit :=
  match customSelectors with
  | [] => ret tt
  | selector :: rest =>
      handleCustomBanner selector ;;; handleCustomBanners rest
  end.

Definition injectBannerBlockingCSS : M W unit :=
  try_catch (lift (page_addStyleTag blockingCSS)) (fun _ => ret tt).

End WithBrowser.

End BannerHandler.

(** ** BrowserManager.ts *)

Module BrowserManager.

(** [ScreenshotOptions] after the defaults have been filled in. *)
Record ScreenshotOptions : Type := mkOptions {
  opt_width : Z;
  opt_height : Z;
  format : string;
  quality : Z;
  fullPage : bool;
  timeout : Z;
  waitUntil : string;
  handleBanners : bool;
  bannerTimeout : Z;
  customBannerSelectors : list string;
  injectBannerBlockingCSS : bool;
  detectVideoThumbnails : bool
}.

Definition defaultOptions : ScreenshotOptions :=
  mkOptions 1920 1080 "png" 80 false 30000 "domcontentloaded"
            true 5000 [] false true.

Record ScreenshotResult : Type := mkResult {
  image : option Buffer;
  thumbnailUrl : option string;
  isVideoThumbnail : bool;
  videoDetectionResult : option VideoDetectionResult
}.

Definition shouldReturnUrlDirectly (t : ThumbnailCandidate) : bool :=
  String.eqb (source t) "oEmbed"
  || String.eqb (source t) "schema.org VideoObject"
  || includes (url t) "thumbnail_url"
  || includes (url t) "maxresdefault"
  || includes (url t) "vimeocdn.com"
  || includes (url t) "dailymotion.com"
  || Qle_bool 0.8 (confidence t).

(** How the detection block is left: by its [return], or by falling
    through to the common [return] with the local variables set. *)
Inductive Exit : Type :=
| Returned (result : ScreenshotResult)
| Captured (finalImage : Buffer) (isVideoThumbnail : bool).

Section WithBrowser.
Context {W Elem : Type} {B : Browser W Elem}.

Definition takeRegularScreenshot (options : ScreenshotOptions) : M W Buffer :=
  emit EvScreenshot ;;;
  lift (page_screenshot
          (mkShot (format options) (fullPage options)
                  (if String.eqb (format options) "jpeg"
                   then Some (quality options) else None)
                  None)).

(** The crop attempt with its fallback, as written in both the
    fetch-failure handler and the [hasVideo] branch. *)
Definition cropOrRegular (options : ScreenshotOptions) : M W Exit :=
  croppedScreenshot <- VideoThumbnailDetector.detectVideoRegionAndCrop ;;
  match croppedScreenshot with
  | Some finalImage => ret (Captured finalImage true)
  | None =>
      finalImage <- takeRegularScreenshot options ;;
      ret (Captured finalImage false)
  end.

Definition fetchThumbnail (thumbnailUrl : string) : M W Buffer :=
  emit (EvFetch thumbnailUrl) ;;;
  response <- VideoThumbnailDetector.evaluate (fun d => fetchBytes d thumbnailUrl) ;;
  match response with
  | Ok bytes => ret bytes
  | Throw e => throw e
  end.

(** The body of the inner [try], once [videoDetectionResult] is known. *)
Definition decide (options : ScreenshotOptions) (d : VideoDetectionResult)
  : M W Exit :=
  match thumbnail d with
  | Some t =>
      if shouldReturnUrlDirectly t then
        ret (Returned (mkResult None (Some (url t)) true (Some d)))
      else
        try_catch
          (finalImage <- fetchThumbnail (url t) ;;
           ret (Captured finalImage true))
          (fun _ => cropOrRegular options)
  | None =>
      if hasVideo d then cropOrRegular options
      else
        finalImage <- takeRegularScreenshot options ;;
        ret (Captured finalImage false)
  end.

(** The [if (detectVideoThumbnails)] statement; the first component
    is the variable [videoDetectionResult] afterwards. *)
Definition capture (options : ScreenshotOptions)
  : M W (option VideoDetectionResult * Exit) :=
  if detectVideoThumbnails options then
    detection <- attempt VideoThumbnailDetector.detectVideoThumbnail ;;
    match detection with
    | Ok d =>
        try_catch
          (exit <- decide options d ;; ret (Some d, exit))
          (fun _ =>
             finalImage <- takeRegularScreenshot options ;;
             ret (Some d, Captured finalImage false))
    | Throw _ =>
        finalImage <- takeRegularScreenshot options ;;
        ret (None, Captured finalImage false)
    end
  else
    finalImage <- takeRegularScreenshot options ;;
    ret (None, Captured finalImage false).

Definition dismissBanners (options : ScreenshotOptions) : M W unit :=
  if handleBanners options then
    try_catch
      ((if injectBannerBlockingCSS options
        then BannerHandler.injectBannerBlockingCSS else ret tt) ;;;
       BannerHandler.handleBanners (bannerTimeout options) ;;;
       (if (0 <? List.length (customBannerSelectors options))%nat
        then BannerHandler.handleCustomBanners (customBannerSelectors options)
        else ret tt))
      (fun _ => ret tt)
  else ret tt.

(** [takeIntelligentScreenshot].  Opening the tab covers [getBrowser]
    and [newPage]; navigation covers the viewport, user agent and
    timeout settings and [goto].  The tab is closed in the [finally]
    clause only when it was opened.  The [catch] clause also forgets the
    shared browser handle after a connection error; that handle is not
    part of the model. *)
Definition takeIntelligentScreenshot (url : string) (options : ScreenshotOptions)
  : M W ScreenshotResult :=
  try_catch
    (lift browser_newPage ;;;
     finally
       (lift (page_goto url) ;;;
        sleep 1000 ;;;
        dismissBanners options ;;;
        r <- capture options ;;
        match snd r with
        | Returned result => ret result
        | Captured finalImage isVideoThumbnail =>
            ret (mkResult (Some finalImage) None isVideoThumbnail (fst r))
        end)
       (try_catch (lift page_close) (fun _ => ret tt)))
    (fun message => throw ("Intelligent screenshot failed: " +++ message)).

End WithBrowser.

End BrowserManager.

(** ** A concrete browser for examples

    A world is a clock, a document and the selectors that currently
    resolve to a visible element; clicking or removing an element
    dismisses it.  Timers are exact and no page operation throws. *)

Module Toy.

Record World : Type := mkWorld {
  clock : Z;
  dom : Dom;
  visible : list string
}.

Definition resolves (selector : string) (w : World) : option string :=
  if existsb (String.eqb selector) (visible w) then Some selector else None.

Definition dismiss (selector : string) (w : World) : World :=
  mkWorld (clock w) (dom w)
          (filter (fun s => negb (String.eqb selector s)) (visible w)).

#[export] Instance browser : Browser World string := {
  Date_now := clock;
  setTimeout ms w := mkWorld (clock w + Z.max 0 ms) (dom w) (visible w);
  browser_newPage w := (Ok tt, w);
  page_goto _ w := (Ok tt, w);
  page_close w := (Ok tt, w);
  page_evaluate w := (Ok (dom w), w);
  page_query selector w := (Ok (resolves selector w), w);
  page_queryContains baseSelector text suffix w :=
    (Ok (resolves (baseSelector +++ ":contains(" +++ q text +++ ")" +++ suffix) w), w);
  element_isVisible el w := (Ok (existsb (String.eqb el) (visible w)), w);
  element_scrollIntoView _ w := (Ok tt, w);
  element_click el w := (Ok tt, dismiss el w);
  element_remove el w := (Ok tt, dismiss el w);
  page_addStyleTag _ w := (Ok tt, w);
  page_screenshot options w :=
    (Ok (match shot_clip options with Some _ => [x01] | None => [x02] end), w)
}.

(** The same worlds behind a lost connection: every page operation
    throws. *)
Definition lost {A} (w : World) : Exc A * World :=
  (Throw "Protocol error: Target closed", w).

Definition offline : Browser World string := {|
  Date_now := clock;
  setTimeout ms w := mkWorld (clock w + Z.max 0 ms) (dom w) (visible w);
  browser_newPage w := (Ok tt, w);
  page_goto _ w := lost w;
  page_close w := lost w;
  page_evaluate w := lost w;
  page_query _ w := lost w;
  page_queryContains _ _ _ w := lost w;
  element_isVisible _ w := lost w;
  element_scrollIntoView _ w := lost w;
  element_click _ w := lost w;
  element_remove _ w := lost w;
  page_addStyleTag _ w := lost w;
  page_screenshot _ w := lost w
|}.

(** A document without any video indicator; every image is 1280x720
    and no download succeeds. *)
Definition plainDom : Dom :=
  mkDom None None [] [] [] [] [] [] []
        (fun _ => O)
        (fun u => u)
        (fun _ => (1280, 720)%Z)
        (fun _ => Throw "HTTP 404").

Definition plain : World := mkWorld 0 plainDom [].

(** The same page with an [og:image] tag and structured-data thumbnails. *)
Definition withMetadata (og : option string) (schema : list string)
           (size : Z * Z) : World :=
  mkWorld 0
    (mkDom og None schema [] [] [] [] [] []
           (fun _ => O) (fun u => u) (fun _ => size) (fun _ => Throw "HTTP 404"))
    [].

Definition withOgImage (u : string) (size : Z * Z) : World :=
  withMetadata (Some u) [] size.

(** A page whose only video indicator is an element with a class
    containing [player]. *)
Definition withPlayerClass : World :=
  mkWorld 0
    (mkDom None None [] [] [] [] [] [] []
           (fun selector =>
              if String.eqb selector ("[class*=" +++ q "player" +++ "]") then 1%nat else O)
           (fun u => u) (fun _ => (1280, 720)%Z) (fun _ => Throw "HTTP 404"))
    [].

(** A page with one image inside a video container. *)
Definition withContainerImage (u : string) (size : Z * Z) : World :=
  mkWorld 0
    (mkDom None None [] [] [(false, u)] [] [] [] []
           (fun _ => O) (fun u => u) (fun _ => size) (fun _ => Throw "HTTP 404"))
    [].

(** A page showing a cookie button. *)
Definition withCookieButton : World :=
  mkWorld 0 plainDom ["#cookie-accept"%string].

End Toy.

(** ** What a computation does to the log, and whether it returns *)

Section Observations.
Context {W : Type}.

(** A computation extends the log by events that all satisfy [P]. *)
Definition Emits {A} (P : Event -> Prop) (m : M W A) : Prop :=
  forall s, exists evs, log (snd (m s)) = log s ++ evs /\ Forall P evs.

(** A computation that never throws. *)
Definition Total {A} (m : M W A) : Prop :=
  forall s, exists a s', m s = (Ok a, s').

(** A computation that does not leave the set [L] of worlds. *)
Definition Keeps {A} (L : W -> Prop) (m : M W A) : Prop :=
  forall s, L (world s) -> L (world (snd (m s))).

End Observations.

(** ** The scoring step on binary64 numbers

    JavaScript numbers are IEEE 754 doubles.  [near] and
    [calculateFinalConfidence] are written here on doubles, operation
    by operation as in the source, with the rounding that each addition,
    subtraction and division performs.  Widths and heights are whole
    numbers of pixels and stay integers: their product is only compared
    with 500000 and 200000, and rounding a product of whole numbers to
    a double does not move it across a whole number. *)

Module Binary64.
Import PrimFloat FloatOps SpecFloat.
Local Open Scope float_scope.
Set Warnings "-inexact-float".

(** The double nearest to a whole number. *)
Definition ofZ (z : Z) : float :=
  SF2Prim (SpecFloat.binary_normalize prec emax z 0 false).

(** The double that a decimal literal such as [0.7], or a quotient of
    two whole numbers such as [width / height], evaluates to: the
    division of doubles rounds the exact quotient to the nearest
    double. *)
Definition ofQ (x : Q) : float := ofZ (Qnum x) / ofZ (Zpos (Qden x)).

(** The exact value of a finite double. *)
Definition exact (x : float) : option Q :=
  match Prim2SF x with
  | S754_zero _ => Some 0%Q
  | S754_finite s m e =>
      Some (inject_Z (if s then Zneg m else Zpos m) * Qpower 2 e)%Q
  | S754_infinity _ | S754_nan => None
  end.

(** [ThumbnailCandidate], as far as the scoring step reads it, with
    the numbers that the program holds. *)
Record Candidate : Type := mkCandidate {
  source : string;
  confidence : float;
  width : option Z;
  height : option Z;
  aspectRatio : option float
}.

Definition PREFERRED_ASPECT_RATIOS : list float :=
  [16 / 9; 4 / 3; 3 / 2; 1.85; 2.35].

(** Truthiness of a number: [0], [-0] and [NaN] are falsy. *)
Definition truthy (x : float) : bool := negb (x =? 0) && negb (is_nan x).

(** [Math.min]: [NaN] when an argument is; of two zeros the negative. *)
Definition Math_min (a b : float) : float :=
  if is_nan a then a
  else if is_nan b then b
  else if a <? b then a
  else if b <? a then b
  else if get_sign a then a else b.

Definition near (deviation : float) (r : float) : bool :=
  some (fun ratio => abs (r - ratio) <=? deviation) PREFERRED_ASPECT_RATIOS.

Definition calculateFinalConfidence (candidate : Candidate) : float :=
  let confidence := confidence candidate in
  let confidence :=
    match width candidate, height candidate with
    | Some w, Some h =>
        if truthyZ (Some w) && truthyZ (Some h) then
          let area := (w * h)%Z in
          if (500000 <? area)%Z then confidence + 0.1
          else if (200000 <? area)%Z then confidence + 0.05
          else confidence
        else confidence
    | _, _ => confidence
    end in
  let confidence :=
    match aspectRatio candidate with
    | Some r =>
        if truthy r then
          let hasGoodAspectRatio := near 0.1 r in
          if hasGoodAspectRatio then confidence + 0.1 else confidence
        else confidence
    | None => confidence
    end in
  let confidence :=
    if includes (source candidate) "video" || includes (source candidate) "poster"
    then confidence + 0.1 else confidence in
  Math_min confidence 1.0.

(** The base confidences that the extraction scripts assign. *)
Definition baseConfidences : list float := [0.5; 0.6; 0.7; 0.8; 0.9].

Set Warnings "+inexact-float".
End Binary64.

(** A candidate of the rational model with its numbers as the program
    holds them: the confidence literal and the quotient [width / height]
    as doubles. *)
Definition doubles (c : ThumbnailCandidate) : Binary64.Candidate :=
  Binary64.mkCandidate (source c) (Binary64.ofQ (confidence c))
                       (width c) (height c)
                       (option_map Binary64.ofQ (aspectRatio c)).

(** ** Sample pages and runs *)

Module Samples.
Import VideoThumbnailDetector BrowserManager.

(** A page whose only candidate is an image that fails to load. *)
Definition brokenImagePage : Toy.World :=
  Toy.withOgImage "https://x/a.jpg" (0, 0)%Z.

(** Scenario A of the specification: an [og:image] of 1280x720. *)
Definition hdPage : Toy.World := Toy.withOgImage "https://x/a.jpg" (1280, 720)%Z.

Definition ogCandidate : ThumbnailCandidate :=
  raw "https://x/a.jpg" "og:image" 0.8 "metadata".

Definition ogValidated : ThumbnailCandidate :=
  match fst (validateCandidate (B := Toy.browser) ogCandidate (start hdPage)) with
  | Ok (Some c) => c
  | _ => ogCandidate
  end.

Definition run (w : Toy.World) : Exc ScreenshotResult * State Toy.World :=
  takeIntelligentScreenshot (B := Toy.browser) "https://x/" defaultOptions (start w).

Definition noResult : ScreenshotResult := mkResult None None false None.
Definition noDetection : VideoDetectionResult := mkDetection false None [].

Definition resultOf (w : Toy.World) : ScreenshotResult :=
  match fst (run w) with Ok r => r | Throw _ => noResult end.

Definition detectionOf (w : Toy.World) : VideoDetectionResult :=
  match videoDetectionResult (resultOf w) with Some d => d | None => noDetection end.

Definition thumbnailOf (w : Toy.World) : ThumbnailCandidate :=
  match thumbnail (detectionOf w) with Some t => t | None => ogCandidate end.

(** A [twitter:image] of 1000x600 and an [og:image] of 1280x800, as
    they reach the scoring step. *)
Definition twitterCandidate : ThumbnailCandidate :=
  mkCandidate "https://x/a.jpg" "twitter:image" 0.7 (Some 1000%Z) (Some 600%Z)
              (Some (inject_Z 1000 / inject_Z 600)) "metadata".

Definition wideCandidate : ThumbnailCandidate :=
  mkCandidate "https://x/a.jpg" "og:image" 0.8 (Some 1280%Z) (Some 800%Z)
              (Some (inject_Z 1280 / inject_Z 800)) "metadata".

(** A page without candidates and without [video] element, on which
    one element matches [selector]. *)
Definition indicatorPage (selector : string) : Toy.World :=
  Toy.mkWorld 0
    (mkDom None None [] [] [] [] [] [] []
           (fun x => if String.eqb x selector then 1%nat else O)
           (fun u => u) (fun _ => (1280, 720)%Z) (fun _ => Throw "HTTP 404"))
    [].

(** A page on which the extractors meet an [og:image] before a
    structured-data thumbnail, with the two raw candidates. *)
Definition reorderedPage : Toy.World :=
  Toy.withMetadata (Some "https://x/a.jpg"%string) ["https://x/b.jpg"%string]
                   (300, 300)%Z.

Definition reorderedRaw : list ThumbnailCandidate :=
  [raw "https://x/a.jpg" "og:image" 0.8 "metadata";
   raw "https://x/b.jpg" "schema.org VideoObject" 0.9 "metadata"].

(** A page with one image, inside a video container, whose address
    contains [thumbnail_url]. *)
Definition thumbnailUrlPage : Toy.World :=
  Toy.withContainerImage "https://x/thumbnail_url/a.jpg" (300, 300)%Z.

End Samples.

(** ** Statements taken from the specification *)

Module Spec.
Import VideoThumbnailDetector.

(** Pixel area of a candidate; zero while a dimension is unknown. *)
Definition pixelArea (c : ThumbnailCandidate) : Z :=
  match width c, height c with
  | Some w, Some h => (w * h)%Z
  | _, _ => 0%Z
  end.

(** The ratios that the specification prefers: 16:9, 4:3, 3:2, 1.85:1
    and 2.35:1. *)
Definition preferredRatios : list Q := [16 # 9; 4 # 3; 3 # 2; 37 # 20; 47 # 20].

(** The aspect ratio lies within [tolerance] of a preferred ratio. *)
Definition withinPreferred (tolerance : Q) (c : ThumbnailCandidate) : bool :=
  match aspectRatio c with
  | Some r =>
      existsb (fun p => Qle_bool (p - tolerance) r && Qle_bool r (p + tolerance))
              preferredRatios
  | None => false
  end.

(** The string [s] contains [word] at some position. *)
Definition mentions (s word : string) : bool :=
  existsb (fun i => String.eqb (substring i (String.length word) s) word)
          (seq 0 (S (String.length s))).

(** The scoring rule in the words of the specification, in exact
    arithmetic: the base confidence plus the three bonuses, capped at
    one. *)
Definition scoreSpec (base : Q) (c : ThumbnailCandidate) : Q :=
  let sizeBonus :=
    if (500000 <? pixelArea c)%Z then 1 # 10
    else if (200000 <? pixelArea c)%Z then 1 # 20 else 0 in
  let ratioBonus := if withinPreferred (1 # 10) c then 1 # 10 else 0 in
  let sourceBonus :=
    if mentions (source c) "video" || mentions (source c) "poster"
    then 1 # 10 else 0 in
  Qmin (base + sizeBonus + ratioBonus + sourceBonus) 1.

(** Candidates as the six extraction scripts produce them. *)
Inductive Extracted : ThumbnailCandidate -> Prop :=
| ex_metadata d c : In c (extractMetadataThumbnails d) -> Extracted c
| ex_video d c : In c (extractVideoElementThumbnails d) -> Extracted c
| ex_dom d c : In c (extractDOMThumbnails d) -> Extracted c
| ex_css d c : In c (extractCSSBackgroundThumbnails d) -> Extracted c
| ex_iframe l c : In c (iframeLoop l []) -> Extracted c
| ex_oembed d c : In c (extractOEmbedThumbnails d) -> Extracted c.

(** Non-increasing confidence along a list. *)
Definition byDescendingConfidence : list ThumbnailCandidate -> Prop :=
  StronglySorted (fun a b => confidence b <= confidence a).

Section Extraction.
Context {W Elem : Type} {B : Browser W Elem}.

(** The raw candidates in the order in which the extractors produce
    them: the six strategies run one after the other, and each array
    is appended to the ones before it. *)
Definition extraction : M W (list ThumbnailCandidate) :=
  metadataCandidates <- evaluate extractMetadataThumbnails ;;
  videoCandidates <- evaluate extractVideoElementThumbnails ;;
  domCandidates <- evaluate extractDOMThumbnails ;;
  cssCandidates <- evaluate extractCSSBackgroundThumbnails ;;
  iframeCandidates <- extractIframeThumbnails ;;
  oembedCandidates <- evaluate extractOEmbedThumbnails ;;
  ret (metadataCandidates ++ videoCandidates ++ domCandidates
       ++ cssCandidates ++ iframeCandidates ++ oembedCandidates).

End Extraction.

End Spec.

(** ** The scoring rule of the specification on doubles *)

Module RoundedSpec.
Import PrimFloat.
Local Open Scope float_scope.
Set Warnings "-inexact-float".

Definition preferredRatios : list float := [16 / 9; 4 / 3; 3 / 2; 1.85; 2.35].

Definition pixelArea (c : Binary64.Candidate) : Z :=
  match Binary64.width c, Binary64.height c with
  | Some w, Some h => (w * h)%Z
  | _, _ => 0%Z
  end.

(** The aspect ratio is known and the distance to a preferred ratio,
    rounded to a double, is at most the double [0.1]. *)
Definition WithinPreferred (c : Binary64.Candidate) : Prop :=
  exists r p,
    Binary64.aspectRatio c = Some r /\ In p preferredRatios /\
    (abs (r - p) <=? 0.1) = true.

(** The string [s] contains [word]. *)
Definition Mentions (s word : string) : Prop :=
  exists before after, s = before +++ word +++ after.

Definition VideoSource (c : Binary64.Candidate) : Prop :=
  Mentions (Binary64.source c) "video" \/ Mentions (Binary64.source c) "poster".

(** The bonus for the size: 0.1 above 500,000 pixels, else 0.05 above
    200,000 pixels. *)
Definition SizeBonus (c : Binary64.Candidate) (bonus : float) : Prop :=
  ((500000 < pixelArea c)%Z /\ bonus = 0.1)
  \/ ((pixelArea c <= 500000)%Z /\ (200000 < pixelArea c)%Z /\ bonus = 0.05)
  \/ ((pixelArea c <= 200000)%Z /\ bonus = 0).

(** A bonus of [amount] that is granted when [applies] holds. *)
Definition Bonus (applies : Prop) (amount bonus : float) : Prop :=
  (applies /\ bonus = amount) \/ (~ applies /\ bonus = 0).

Definition capped (x : float) : float := if 1 <? x then 1 else x.

(** [final] is the base confidence plus the three bonuses, added from
    left to right with the rounding of doubles, capped at one. *)
Definition RoundedSum (c : Binary64.Candidate) (final : float) : Prop :=
  exists size ratio video,
    SizeBonus c size /\
    Bonus (WithinPreferred c) 0.1 ratio /\
    Bonus (VideoSource c) 0.1 video /\
    final = capped (Binary64.confidence c + size + ratio + video).

Set Warnings "+inexact-float".
End RoundedSpec.

(** ** The banner loop as the specification describes it *)

Module BannerSpec.
Import BannerHandler.

(** Events that applying one pattern may leave in the log. *)
Definition Inner (e : Event) : Prop :=
  match e with
  | EvSleep _ | EvClick _ | EvRemove _ => True
  | _ => False
  end.

(** The wait that follows a successful application. *)
Definition waitEvents (p : BannerPattern) : list Event :=
  match waitAfter p with
  | Some ms => if truthyZ (Some ms) then [EvSleep ms] else []
  | None => []
  end.

(** Log of one pass over the catalog [ps], with its outcome: patterns
    are tried from the top; the pass ends at the first success, after
    its wait, or without success at any point of the catalog. *)
Inductive PassLog : list BannerPattern -> list Event -> bool -> Prop :=
| PassStop ps : PassLog ps [] false
| PassMiss p ps inner evs found :
    Forall Inner inner ->
    PassLog ps evs found ->
    PassLog (p :: ps) (EvTry (name p) :: inner ++ evs) found
| PassHit p ps inner :
    Forall Inner inner ->
    PassLog (p :: ps)
            (EvTry (name p) :: inner ++ EvHandled (name p) :: waitEvents p) true.

(** Log of the loop from pass [n] on: every pass starts within the
    budget and below the cap, scans the whole catalog [ps] again, and
    is followed by another pass only when it handled a banner. *)
Inductive LoopLog (ps : list BannerPattern) (maxTime : Z) : nat -> list Event -> Prop :=
| LoopExit n : LoopLog ps maxTime n []
| LoopLast n t evs :
    (t < maxTime)%Z -> (n < maxAttempts)%nat ->
    PassLog ps evs false ->
    LoopLog ps maxTime n (EvPass (S n) t :: evs)
| LoopNext n t evs rest :
    (t < maxTime)%Z -> (n < maxAttempts)%nat ->
    PassLog ps evs true ->
    LoopLog ps maxTime (S n) rest ->
    LoopLog ps maxTime n (EvPass (S n) t :: evs ++ EvSleep 500 :: rest).

Definition tried (evs : list Event) : list string :=
  flat_map (fun e => match e with EvTry n => [n] | _ => [] end) evs.

Definition handled (evs : list Event) : list string :=
  flat_map (fun e => match e with EvHandled n => [n] | _ => [] end) evs.

(** The three groups of the catalog, read off the pattern names. *)
Inductive Category : Type := AgeVerification | CookieConsent | Generic.

Definition categoryOf (patternName : string) : Category :=
  if includes patternName "Age Verification" then AgeVerification
  else if includes patternName "Cookie" then CookieConsent
  else Generic.

(** In [names], every pattern of group [a] comes before every pattern
    of group [b]. *)
Definition Precedes (a b : Category) (names : list string) : Prop :=
  forall i j x y,
    nth_error names i = Some x -> nth_error names j = Some y ->
    categoryOf x = a -> categoryOf y = b -> (i < j)%nat.

(** Pages on which no selector resolves to an element: a set [P] of
    worlds that waiting and querying do not leave, and in which every
    query comes back without element. *)
Record NoMatch {W Elem : Type} (B : Browser W Elem) (P : W -> Prop) : Prop := {
  nm_wait : forall ms w, P w -> P (setTimeout ms w);
  nm_query : forall selector w,
      P w ->
      P (snd (page_query selector w)) /\
      forall el, fst (page_query selector w) <> Ok (Some el);
  nm_contains : forall baseSelector text suffix w,
      P w ->
      P (snd (page_queryContains baseSelector text suffix w)) /\
      forall el, fst (page_queryContains baseSelector text suffix w) <> Ok (Some el)
}.

(** The catalog, by name. *)
Definition catalogNames : list string :=
  ["Adult Site Age Verification"; "Cookie Accept All"; "German Cookie Accept";
   "Cookie OK/Agree"; "Age Verification - 18+"; "YouTube Cookie Accept";
   "Modal Close"; "GDPR Accept"; "Newsletter Close"]%string.

(** Position of the groups in a list of names, as a computation. *)
Fixpoint indexesOf (c : Category) (names : list string) (i : nat) : list nat :=
  match names with
  | [] => []
  | x :: rest =>
      match categoryOf x, c with
      | AgeVerification, AgeVerification
      | CookieConsent, CookieConsent
      | Generic, Generic => i :: indexesOf c rest (S i)
      | _, _ => indexesOf c rest (S i)
      end
  end.

End BannerSpec.

(** ** The orchestrator as the specification describes it *)

Module CaptureSpec.
Import VideoThumbnailDetector BrowserManager.

(** Events of the capture phase, as opposed to banner handling. *)
Definition isCapture (e : Event) : bool :=
  match e with
  | EvFetch _ | EvCrop | EvScreenshot => true
  | _ => false
  end.

Definition captures (evs : list Event) : list Event := filter isCapture evs.

Definition Bannerish (e : Event) : Prop := isCapture e = false.

(** The test for a direct, authoritative thumbnail endpoint in the
    words of the specification. *)
Definition claimedDirect (t : ThumbnailCandidate) : bool :=
  String.eqb (source t) "oEmbed"
  || String.eqb (source t) "schema.org VideoObject"
  || Qle_bool 0.8 (confidence t)
  || includes (url t) "maxresdefault"
  || includes (url t) "vimeocdn.com"
  || includes (url t) "dailymotion.com".

(** Video presence in the words of the specification: a native video
    element, or an iframe of a known embed host. *)
Definition embedHostIframes : list string :=
  ["iframe[src*=" +++ q "youtube" +++ "]"; "iframe[src*=" +++ q "vimeo" +++ "]";
   "iframe[src*=" +++ q "dailymotion" +++ "]"; "iframe[src*=" +++ q "twitch" +++ "]"].

Definition claimedPresence (d : Dom) : bool :=
  (0 <? List.length (videos d))%nat
  || some (fun selector => (0 <? count d selector)%nat) embedHostIframes.

(** The selector [tag[attribute*=word]], with the word in double
    quotes: the elements of that tag whose attribute contains the
    word. *)
Definition containing (tag attribute word : string) : string :=
  tag +++ "[" +++ attribute +++ "*=" +++ q word +++ "]".

(** The selectors of the video indicators: an element whose class or
    id contains [video] or [player], and an iframe whose address
    contains the name of an embed host. *)
Definition indicatorSelectors : list string :=
  [containing "" "class" "video"; containing "" "id" "video";
   containing "" "class" "player"; containing "" "id" "player";
   containing "iframe" "src" "youtube"; containing "iframe" "src" "vimeo";
   containing "iframe" "src" "dailymotion"; containing "iframe" "src" "twitch"].

(** The raw candidates of a document, in extraction order. *)
Definition rawCandidates (d : Dom) : list ThumbnailCandidate :=
  extractMetadataThumbnails d ++ extractVideoElementThumbnails d
  ++ extractDOMThumbnails d ++ extractCSSBackgroundThumbnails d
  ++ iframeLoop (iframes d) [] ++ extractOEmbedThumbnails d.

(** What makes detection report a video on a document: a raw
    candidate of the extractors, a [video] element, or an element that
    one of the indicator selectors matches. *)
Definition Reported (d : Dom) : Prop :=
  rawCandidates d <> []
  \/ videos d <> []
  \/ exists selector,
       In selector indicatorSelectors /\ (0 < count d selector)%nat.

(** A set [P] of worlds in which every read of the page succeeds and
    shows the document [d0]. *)
Definition Reads {W Elem : Type} (B : Browser W Elem) (P : W -> Prop) (d0 : Dom) : Prop :=
  forall w, P w -> fst (page_evaluate w) = Ok d0 /\ P (snd (page_evaluate w)).

(** What [takeIntelligentScreenshot] returns after the capture phase. *)
Definition finish (x : option VideoDetectionResult * Exit) : ScreenshotResult :=
  match snd x with
  | Returned result => result
  | Captured finalImage isVideoThumbnail =>
      mkResult (Some finalImage) None isVideoThumbnail (fst x)
  end.

(** Exactly one of the two payloads is present. *)
Definition exactlyOne (r : ScreenshotResult) : Prop :=
  match image r, thumbnailUrl r with
  | Some _, None | None, Some _ => True
  | _, _ => False
  end.

(** The link to the page holds: a tab opens, navigation succeeds and a
    plain capture succeeds.  Nothing is assumed of reads, queries,
    clicks, downloads and clipped captures. *)
Record LinkAlive {W Elem : Type} (B : Browser W Elem) : Prop := {
  alive_newPage : forall w, exists w', browser_newPage w = (Ok tt, w');
  alive_goto : forall u w, exists w', page_goto u w = (Ok tt, w');
  alive_screenshot : forall o w,
      shot_clip o = None -> exists b w', page_screenshot o w = (Ok b, w')
}.

(** The message of the error that leaves [takeIntelligentScreenshot]. *)
Definition failed (cause : string) : string :=
  "Intelligent screenshot failed: " +++ cause.

(** The state in which the [finally] clause leaves the run: the tab
    is closed, and an error of closing is swallowed. *)
Definition closing {W Elem : Type} {B : Browser W Elem} (s : State W) : State W :=
  snd (try_catch (lift page_close) (fun _ => ret tt) s).

(** A failure of the link to the page, in the run on [pageUrl] that
    starts in state [s] and ends in state [s']: opening the tab threw
    [cause] and the run ended there; or the tab opened, navigation threw
    [cause], and the run ended by closing the tab; or the tab opened,
    navigation succeeded, and the last thing the run did before closing
    the tab was a capture without clip, which threw [cause]. *)
Definition LinkFailure {W Elem : Type} {B : Browser W Elem}
           (pageUrl : string) (s s' : State W) (cause : string) : Prop :=
  (exists w,
      browser_newPage (world s) = (Throw cause, w) /\ s' = mkState w (log s))
  \/ (exists w0 w,
        browser_newPage (world s) = (Ok tt, w0) /\
        page_goto pageUrl w0 = (Throw cause, w) /\
        s' = closing (mkState w (log s)))
  \/ (exists w0 w1 o w w' evs,
        browser_newPage (world s) = (Ok tt, w0) /\
        page_goto pageUrl w0 = (Ok tt, w1) /\
        shot_clip o = None /\
        page_screenshot o w = (Throw cause, w') /\
        s' = closing (mkState w' (log s ++ evs))).

(** A set [L] of worlds in which the link to the page is lost: the
    page can be neither read nor captured, and no timer and no
    operation on the page brings the link back. *)
Record LinkLost {W Elem : Type} (B : Browser W Elem) (L : W -> Prop) : Prop := {
  lost_evaluate : forall w,
      L w -> exists e w', page_evaluate w = (Throw e, w') /\ L w';
  lost_screenshot : forall o w,
      L w -> exists e w', page_screenshot o w = (Throw e, w') /\ L w';
  lost_timer : forall ms w, L w -> L (setTimeout ms w);
  lost_query : forall selector w, L w -> L (snd (page_query selector w));
  lost_queryContains : forall baseSelector text suffix w,
      L w -> L (snd (page_queryContains baseSelector text suffix w));
  lost_isVisible : forall el w, L w -> L (snd (element_isVisible el w));
  lost_scrollIntoView : forall el w, L w -> L (snd (element_scrollIntoView el w));
  lost_click : forall el w, L w -> L (snd (element_click el w));
  lost_remove : forall el w, L w -> L (snd (element_remove el w));
  lost_addStyleTag : forall css w, L w -> L (snd (page_addStyleTag css w))
}.

(** A log made of plain captures only. *)
Definition OnlyScreenshots : list Event -> Prop := Forall (eq EvScreenshot).

(** An outcome of the decision block that, when it is a value, leaves
    the block through the common [return]. *)
Definition IsCaptured (out : Exc Exit) : Prop :=
  forall exit, out = Ok exit -> exists img v, exit = Captured img v.

End CaptureSpec.

(** ** BrowserManager.ts: the plain capture and the browser handle *)

Module PlainCapture.
Import BrowserManager.

Section WithBrowser.
Context {W Elem : Type} {B : Browser W Elem}.

(** [takeScreenshot]: the prologue and the banner phase of
    [takeIntelligentScreenshot], then one [page.screenshot] written in
    place.  Opening the tab and navigation stand for the same steps
    as there, and the reset of the browser handle is left out as
    there. *)
Definition takeScreenshot (url : string) (options : ScreenshotOptions)
  : M W Buffer :=
  try_catch
    (lift browser_newPage ;;;
     finally
       (lift (page_goto url) ;;;
        sleep 1000 ;;;
        dismissBanners options ;;;
        lift (page_screenshot
                (mkShot (format options) (fullPage options)
                        (if String.eqb (format options) "jpeg"
                         then Some (quality options) else None)
                        None)))
       (try_catch (lift page_close) (fun _ => ret tt)))
    (fun message => throw ("Screenshot failed: " +++ message)).

End WithBrowser.

End PlainCapture.

Module BrowserLifecycle.

(** [puppeteer.launch] and the operations of the browser handle that
    [cleanup] and [getStatus] use. *)
Class Puppeteer (W Handle : Type) : Type := {
  puppeteer_launch : W -> Exc Handle * W;
  browser_close : Handle -> W -> Exc unit * W;
  browser_version : Handle -> W -> Exc string * W;
  status_newPage : Handle -> W -> Exc unit * W;
  status_userAgent : Handle -> W -> Exc string * W;
    (* page.evaluate('navigator.userAgent') on the page just opened *)
  status_closePage : Handle -> W -> Exc unit * W;
  browser_isConnected : Handle -> W -> bool
}.

(** The two private fields of the [BrowserManager] singleton. *)
Record Manager (Handle : Type) : Type := mkManager {
  browser : option Handle;
  isInitializing : bool
}.
Arguments mkManager {Handle} browser isInitializing.
Arguments browser {Handle} m.
Arguments isInitializing {Handle} m.

Record Status : Type := mkStatus {
  isConnected : bool;
  version : option string;
  userAgent : option string
}.

Definition isSome {A} (o : option A) : bool :=
  match o with Some _ => true | None => false end.

(** The handler registered for the [disconnected] event. *)
Definition disconnected {Handle} (m : Manager Handle) : Manager Handle :=
  mkManager None (isInitializing m).

(** The test of the [catch] clauses of [takeScreenshot] and
    [takeIntelligentScreenshot], and the reset that follows it. *)
Definition connectionLost (message : string) : bool :=
  truthyS message &&
  (includes message "Protocol error" || includes message "Connection closed"
   || includes message "Target closed" || includes message "Session closed").

Definition resetAfter {Handle} (message : string) (m : Manager Handle)
  : Manager Handle :=
  if connectionLost message then mkManager None (isInitializing m) else m.

Section WithPuppeteer.
Context {W Handle : Type} {P : Puppeteer W Handle}.

Definition getBrowser (m : Manager Handle) (w : W)
  : Exc Handle * Manager Handle * W :=
  match browser m with
  | Some b => (Ok b, m, w)
  | None =>
      match puppeteer_launch w with
      | (Ok b, w') => (Ok b, mkManager (Some b) (isInitializing m), w')
      | (Throw e, w') => (Throw e, m, w')
      end
  end.

Definition warmUp (m : Manager Handle) (w : W) : Manager Handle * W :=
  if isSome (browser m) || isInitializing m then (m, w)
  else
    let m := mkManager (browser m) true in
    match getBrowser m w with
    | (_, m', w') => (mkManager (browser m') false, w')
    end.

Definition cleanup (m : Manager Handle) (w : W)
  : Exc unit * Manager Handle * W :=
  match browser m with
  | Some b =>
      match browser_close b w with
      | (Ok _, w') => (Ok tt, mkManager None (isInitializing m), w')
      | (Throw e, w') => (Throw e, m, w')
      end
  | None => (Ok tt, m, w)
  end.

Definition getStatus (m : Manager Handle) (w : W) : Status * W :=
  match browser m with
  | None => (mkStatus false None None, w)
  | Some b =>
      match browser_version b w with
      | (Throw _, w1) => (mkStatus false None None, w1)
      | (Ok version, w1) =>
          match status_newPage b w1 with
          | (Throw _, w2) => (mkStatus false None None, w2)
          | (Ok _, w2) =>
              match status_userAgent b w2 with
              | (Throw _, w3) => (mkStatus false None None, w3)
              | (Ok userAgent, w3) =>
                  match status_closePage b w3 with
                  | (Throw _, w4) => (mkStatus false None None, w4)
                  | (Ok _, w4) =>
                      (mkStatus (browser_isConnected b w4)
                                (Some version) (Some userAgent), w4)
                  end
              end
          end
      end
  end.

End WithPuppeteer.

(** A launcher for examples: the world counts the launches and the
    handle is the launch number; nothing throws. *)
Definition counting : Puppeteer nat nat := {|
  puppeteer_launch w := (Ok (S w), S w);
  browser_close _ w := (Ok tt, w);
  browser_version _ w := (Ok "Chrome/120.0.0.0"%string, w);
  status_newPage _ w := (Ok tt, w);
  status_userAgent _ w := (Ok "Mozilla/5.0"%string, w);
  status_closePage _ w := (Ok tt, w);
  browser_isConnected b w := Nat.eqb b w
|}.

End BrowserLifecycle.

(** ** middleware/auth.ts *)

Module Auth.

(** The two environment variables read by the middleware. *)
Record Env : Type := mkEnv {
  API_KEY : option string;
  REQUIRE_API_KEY : option string
}.

(** The [x-api-key] header and the [apiKey] query parameter. *)
Record Credentials : Type := mkCredentials {
  header_x_api_key : option string;
  query_apiKey : option string
}.

(** [next()] with the value of [req.apiKey] afterwards, or the 401
    response with its message. *)
Inductive Outcome : Type :=
| Next (apiKey : option string)
| Status401 (message : string).

Definition truthyO (x : option string) : bool :=
  match x with Some v => truthyS v | None => false end.

(** [a || b]. *)
Definition orElse (a b : option string) : option string :=
  if truthyO a then a else b.

(** [apiKey !== validApiKey] for a truthy [validApiKey]. *)
Definition differs (apiKey : option string) (validApiKey : string) : bool :=
  match apiKey with
  | Some k => negb (String.eqb k validApiKey)
  | None => true
  end.

Definition validateApiKey (env : Env) (req : Credentials) : Outcome :=
  let apiKey := orElse (header_x_api_key req) (query_apiKey req) in
  if negb (truthyO (API_KEY env)) && negb (truthyO (REQUIRE_API_KEY env))
  then Next None
  else if negb (truthyO apiKey)
  then Status401 "API key is required. Provide it via X-API-Key header or apiKey query parameter."
  else
    match API_KEY env with
    | Some validApiKey =>
        if truthyS validApiKey && differs apiKey validApiKey
        then Status401 "Invalid API key provided."
        else Next apiKey
    | None => Next apiKey
    end.

Definition optionalApiKey (env : Env) (req : Credentials) : Outcome :=
  let apiKey := orElse (header_x_api_key req) (query_apiKey req) in
  if truthyO apiKey then
    match API_KEY env with
    | Some validApiKey =>
        if truthyS validApiKey && differs apiKey validApiKey
        then Status401 "Invalid API key provided."
        else Next apiKey
    | None => Next apiKey
    end
  else Next None.

Definition passes (o : Outcome) : bool :=
  match o with Next _ => true | Status401 _ => false end.

End Auth.

(** ** routes/screenshot.ts *)

Module ScreenshotRoute.
Import BrowserManager.

(** The test made on [urlObj.hostname] when [BLOCK_PRIVATE_IPS] is
    the string [true]. *)
Definition blockedHostname (hostname : string) : bool :=
  String.eqb hostname "localhost"
  || String.eqb hostname "127.0.0.1"
  || String.eqb hostname "::1"
  || String.prefix "192.168." hostname
  || String.prefix "10." hostname
  || String.prefix "172.16." hostname
  || String.prefix "172.17." hostname
  || String.prefix "172.18." hostname
  || String.prefix "172.19." hostname
  || String.prefix "172.2" hostname
  || String.prefix "172.30." hostname
  || String.prefix "172.31." hostname.

(** The responses of the handler.  The processing time, the
    dimension header and the cache header are left out. *)
Inductive Response : Type :=
| Status400 (error message : string)
| ThumbnailJson (thumbnailUrl : string) (isVideoThumbnail : bool)
                (source method : string)
| ImageBody (contentType : string) (body : Buffer) (screenshotFormat : string)
            (isVideoThumbnail : bool) (detectionMethod : string)
| Status500 (error message : string).

(** [result.videoDetectionResult?.thumbnail?.field || fallback]. *)
Definition thumbnailField (field : ThumbnailCandidate -> string)
           (result : ScreenshotResult) (fallback : string) : string :=
  match videoDetectionResult result with
  | Some d =>
      match thumbnail d with
      | Some t => if truthyS (field t) then field t else fallback
      | None => fallback
      end
  | None => fallback
  end.

Definition noPayload : string :=
  "No image or thumbnail URL returned from screenshot service".

(** The two branches that answer with status 200, and the [throw]. *)
Definition respond (options : ScreenshotOptions) (result : ScreenshotResult)
  : Exc Response :=
  match thumbnailUrl result with
  | Some u =>
      if truthyS u then
        Ok (ThumbnailJson u (isVideoThumbnail result)
                          (thumbnailField source result "unknown")
                          (thumbnailField method result "none"))
      else
        match image result with
        | Some img =>
            Ok (ImageBody (if String.eqb (format options) "png"
                           then "image/png" else "image/jpeg")
                          img (format options) (isVideoThumbnail result)
                          (thumbnailField method result "none"))
        | None => Throw noPayload
        end
  | None =>
      match image result with
      | Some img =>
          Ok (ImageBody (if String.eqb (format options) "png"
                         then "image/png" else "image/jpeg")
                        img (format options) (isVideoThumbnail result)
                        (thumbnailField method result "none"))
      | None => Throw noPayload
      end
  end.

(** [process.env.BLOCK_PRIVATE_IPS === 'true']. *)
Definition blockingOn (BLOCK_PRIVATE_IPS : option string) : bool :=
  match BLOCK_PRIVATE_IPS with
  | Some v => String.eqb v "true"
  | None => false
  end.

Section WithBrowser.
Context {W Elem : Type} {B : Browser W Elem}.

(** [hostnameOf] stands for [new URL(url).hostname], which throws on
    an address that does not parse; [BLOCK_PRIVATE_IPS] is the
    environment variable. *)
Variable hostnameOf : string -> Exc string.
Variable BLOCK_PRIVATE_IPS : option string.

(** The handler of [POST /api/v1/screenshot] ([router.post]), which
    runs after the middleware has checked the API key and validated the
    body.  The handler of [GET] validates the query itself and answers
    a failed validation with status 400; it is not modelled. *)
Definition postScreenshot (url : string) (options : ScreenshotOptions)
  : M W Response :=
  try_catch
    (match hostnameOf url with
     | Throw e => throw e
     | Ok hostname =>
         if blockingOn BLOCK_PRIVATE_IPS && blockedHostname hostname
         then ret (Status400 "Invalid URL"
                             "Private IP addresses and localhost are not allowed")
         else
           result <- takeIntelligentScreenshot url options ;;
           match respond options result with
           | Ok response => ret response
           | Throw e => throw e
           end
     end)
    (fun message =>
       ret (Status500 "Screenshot failed"
                      (if truthyS message then message
                       else "An unexpected error occurred"))).

End WithBrowser.

(** Decimal notation of a natural number, and a dotted quad. *)
Definition decimal (n : nat) : string :=
  NilEmpty.string_of_uint (Nat.to_uint n).

Definition dotted (a b c d : nat) : string :=
  decimal a +++ "." +++ decimal b +++ "." +++ decimal c +++ "." +++ decimal d.

End ScreenshotRoute.

(** ** Further pages and browsers for examples *)

Module ToyPages.
Import VideoThumbnailDetector.

(** The toy browser on a page whose scripts cannot be run: every read
    of the page throws, everything else works. *)
Definition blind : Browser Toy.World string := {|
  Date_now := Toy.clock;
  setTimeout ms w :=
    Toy.mkWorld (Toy.clock w + Z.max 0 ms) (Toy.dom w) (Toy.visible w);
  browser_newPage w := (Ok tt, w);
  page_goto _ w := (Ok tt, w);
  page_close w := (Ok tt, w);
  page_evaluate w := (Throw "Execution context was destroyed", w);
  page_query selector w := (Ok (Toy.resolves selector w), w);
  page_queryContains baseSelector text suffix w :=
    (Ok (Toy.resolves (baseSelector +++ ":contains(" +++ q text +++ ")" +++ suffix) w), w);
  element_isVisible el w := (Ok (existsb (String.eqb el) (Toy.visible w)), w);
  element_scrollIntoView _ w := (Ok tt, w);
  element_click el w := (Ok tt, Toy.dismiss el w);
  element_remove el w := (Ok tt, Toy.dismiss el w);
  page_addStyleTag _ w := (Ok tt, w);
  page_screenshot options w :=
    (Ok (match shot_clip options with Some _ => [x01] | None => [x02] end), w)
|}.

(** The toy browser on a connection that drops once the page has
    loaded: a tab opens and navigation succeeds, every later operation
    on the page throws. *)
Definition dropped : Browser Toy.World string := {|
  Date_now := Toy.clock;
  setTimeout ms w :=
    Toy.mkWorld (Toy.clock w + Z.max 0 ms) (Toy.dom w) (Toy.visible w);
  browser_newPage w := (Ok tt, w);
  page_goto _ w := (Ok tt, w);
  page_close w := Toy.lost w;
  page_evaluate w := Toy.lost w;
  page_query _ w := Toy.lost w;
  page_queryContains _ _ _ w := Toy.lost w;
  element_isVisible _ w := Toy.lost w;
  element_scrollIntoView _ w := Toy.lost w;
  element_click _ w := Toy.lost w;
  element_remove _ w := Toy.lost w;
  page_addStyleTag _ w := Toy.lost w;
  page_screenshot _ w := Toy.lost w
|}.

Definition playerBox : DOMRect := mkRect 10 20 640 360.

(** A page with a player-sized container and, when [withVideo] is
    set, a [video] element that has no box yet. *)
Definition playerPage (withVideo : bool) : Toy.World :=
  Toy.mkWorld 0
    (mkDom None None []
           (if withVideo then [mkVideo "" (fun _ => None) (mkRect 0 0 0 0)] else [])
           [] [] [] [] [playerBox]
           (fun _ => O) (fun u => u) (fun _ => (1280, 720)%Z)
           (fun _ => Throw "HTTP 404"))
    [].

(** A candidate whose extractor supplies a size, and its validated
    copy on a page. *)
Definition sizedCandidate : ThumbnailCandidate :=
  mkCandidate "https://x/t.jpg" "oEmbed" 0.8 (Some 640%Z) (Some 360%Z) None "oembed".

Definition validatedOn (w : Toy.World) (c : ThumbnailCandidate) : ThumbnailCandidate :=
  match fst (validateCandidate (B := Toy.browser) c (start w)) with
  | Ok (Some c') => c'
  | _ => c
  end.

(** The default options with video detection switched off. *)
Definition plainOptions : BrowserManager.ScreenshotOptions :=
  BrowserManager.mkOptions 1920 1080 "png" 80 false 30000 "domcontentloaded"
                           true 5000 [] false false.

(** A selector with a pseudo-class before [:contains(]. *)
Definition pseudoClassSelector : string :=
  "a:not(.x):contains(" +++ q "OK" +++ ")".

(** A page showing two buttons. *)
Definition twoButtons : Toy.World :=
  Toy.mkWorld 0 Toy.plainDom ["#accept"; "#close"]%string.

(** A stand-in for [new URL(url).hostname]: the text between the
    scheme and the next slash. *)
Definition hostnameOf (url : string) : Exc string :=
  match BannerHandler.stripPrefix "http://" url with
  | Some rest =>
      Ok (fst (BannerHandler.span (fun c => negb (Ascii.eqb c "/")) rest))
  | None => Throw "Invalid URL"
  end.

End ToyPages.

(** ** Vocabulary of the further properties *)

Module Observed.

(** [l'] is [l] with some elements left out, the others in order and
    related by [R]. *)
Inductive Kept {A B : Type} (R : A -> B -> Prop) : list A -> list B -> Prop :=
| Kept_nil : Kept R [] []
| Kept_skip a l l' : Kept R l l' -> Kept R (a :: l) l'
| Kept_take a b l l' : R a b -> Kept R l l' -> Kept R (a :: l) (b :: l').

Definition Subseq {A : Type} (l' l : list A) : Prop := Kept eq l l'.

(** Successful clicks and removals. *)
Definition isAction (e : Event) : bool :=
  match e with EvClick _ | EvRemove _ => true | _ => false end.

Definition actions (evs : list Event) : nat := List.length (filter isAction evs).

Definition clicked (evs : list Event) : list string :=
  flat_map (fun e => match e with EvClick selector => [selector] | _ => [] end) evs.

Definition allChars (keep : ascii -> bool) (s : string) : bool :=
  forallb keep (list_ascii_of_string s).

Definition notColon (c : ascii) : bool := negb (Ascii.eqb c ":").
Definition notDot (c : ascii) : bool := negb (Ascii.eqb c ".").
Definition notQuote (c : ascii) : bool := negb (Ascii.eqb c (ascii_of_nat 34)).

(** A string that is empty or starts with a character that [keep]
    refuses. *)
Definition stopsAt (keep : ascii -> bool) (s : string) : Prop :=
  match s with
  | EmptyString => True
  | String c _ => keep c = false
  end.

(** An outcome of the plain method and an outcome of the intelligent
    method that agree: the same browser state, and the same bytes as a
    plain image or the same error. *)
Definition Agree {W : Type} (plain : Exc Buffer * State W)
           (smart : Exc BrowserManager.ScreenshotResult * State W) : Prop :=
  world (snd plain) = world (snd smart) /\
  match fst plain, fst smart with
  | Ok bytes, Ok result =>
      result = BrowserManager.mkResult (Some bytes) None false None
  | Throw cause, Throw cause' => cause = cause'
  | _, _ => False
  end.

(** The flag of an exit of the detection block. *)
Definition exitFlag (x : BrowserManager.Exit) : bool :=
  match x with
  | BrowserManager.Returned result => BrowserManager.isVideoThumbnail result
  | BrowserManager.Captured _ isVideoThumbnail => isVideoThumbnail
  end.

End Observed.

(** * Properties *)

(** ** Rational comparisons and the sort *)

Section Comparisons.

Lemma Qltb_true a b : Qltb a b = true <-> a < b.
Proof.
  unfold Qltb. rewrite negb_true_iff. split; intros H.
  - apply Qnot_le_lt. intros Hle. apply Qle_bool_iff in Hle. congruence.
  - destruct (Qle_bool b a) eqn:E; [|reflexivity].
    apply Qle_bool_iff in E. apply Qlt_not_le in H. contradiction.
Qed.

Lemma Qltb_false a b : Qltb a b = false <-> b <= a.
Proof.
  unfold Qltb. rewrite negb_false_iff. apply Qle_bool_iff.
Qed.

Lemma Math_min_Qmin a b : Math_min a b == Qmin a b.
Proof.
  unfold Math_min. destruct (Qle_bool a b) eqn:E.
  - apply Qle_bool_iff in E. symmetry. now apply Q.min_l.
  - symmetry. apply Q.min_r. apply Qlt_le_weak, Qnot_le_lt.
    intros Hle. apply Qle_bool_iff in Hle. congruence.
Qed.

End Comparisons.

Section SortFacts.
Import VideoThumbnailDetector.

Lemma after_iff x y : Qltb 0 (byConfidenceDesc x y) = true <-> confidence x < confidence y.
Proof. unfold byConfidenceDesc. rewrite Qltb_true. split; intros; lra. Qed.

Lemma sort_insert_In x y l :
  In y (sort_insert byConfidenceDesc x l) <-> y = x \/ In y l.
Proof.
  induction l as [|z l IH]; simpl.
  - intuition congruence.
  - destruct (Qltb 0 (byConfidenceDesc x z)); simpl; rewrite ?IH; intuition congruence.
Qed.

Lemma sort_insert_perm x l : Permutation (x :: l) (sort_insert byConfidenceDesc x l).
Proof.
  induction l as [|z l IH]; simpl; [reflexivity|].
  destruct (Qltb 0 (byConfidenceDesc x z)); [|reflexivity].
  rewrite perm_swap. now constructor.
Qed.

Lemma sort_perm l : Permutation l (sort byConfidenceDesc l).
Proof.
  induction l as [|x l IH]; simpl; [constructor|].
  rewrite <- sort_insert_perm. now constructor.
Qed.

Lemma sort_insert_sorted x l :
  Spec.byDescendingConfidence l ->
  Spec.byDescendingConfidence (sort_insert byConfidenceDesc x l).
Proof.
  unfold Spec.byDescendingConfidence.
  induction 1 as [|z l Hs IH Hall]; simpl.
  - repeat constructor.
  - destruct (Qltb 0 (byConfidenceDesc x z)) eqn:E.
    + constructor; [assumption|].
      apply Forall_forall. intros y Hy. apply sort_insert_In in Hy.
      destruct Hy as [->|Hy].
      * apply after_iff in E. now apply Qlt_le_weak.
      * rewrite Forall_forall in Hall. now apply Hall.
    + assert (Hzx : confidence z <= confidence x).
      { unfold byConfidenceDesc in E. apply Qltb_false in E. lra. }
      constructor; [now constructor|].
      constructor; [assumption|].
      eapply Forall_impl; [|exact Hall]. simpl. intros a Ha. lra.
Qed.

Lemma sort_sorted l : Spec.byDescendingConfidence (sort byConfidenceDesc l).
Proof.
  induction l as [|x l IH]; simpl; [constructor|]. now apply sort_insert_sorted.
Qed.

(** The head of the sorted array is the first maximum of the input. *)
Lemma sort_head x l :
  exists c before after,
    hd_error (sort byConfidenceDesc (x :: l)) = Some c /\
    x :: l = before ++ c :: after /\
    Forall (fun y => confidence y < confidence c) before /\
    Forall (fun y => confidence y <= confidence c) after.
Proof.
  revert x. induction l as [|z l IH]; intros x.
  - exists x, [], []. simpl. repeat split; constructor.
  - destruct (IH z) as (c & before & after & Hhd & Hsplit & Hb & Ha).
    change (sort byConfidenceDesc (x :: z :: l))
      with (sort_insert byConfidenceDesc x (sort byConfidenceDesc (z :: l))).
    destruct (sort byConfidenceDesc (z :: l)) as [|y rest] eqn:Es; [discriminate|].
    simpl in Hhd. injection Hhd as ->. simpl.
    destruct (Qltb 0 (byConfidenceDesc x c)) eqn:E.
    + apply after_iff in E.
      exists c, (x :: before), after. simpl. repeat split.
      * now rewrite Hsplit.
      * now constructor.
      * assumption.
    + assert (Hcx : confidence c <= confidence x).
      { unfold byConfidenceDesc in E. apply Qltb_false in E. lra. }
      exists x, [], (z :: l). simpl. repeat split; [constructor|].
      rewrite Hsplit. apply Forall_app. split.
      * eapply Forall_impl; [|exact Hb]. simpl. intros a Ha'. lra.
      * constructor; [assumption|].
        eapply Forall_impl; [|exact Ha]. simpl. intros a Ha'. lra.
Qed.

End SortFacts.

(** ** Reasoning about monadic code *)

Section MonadFacts.
Context {W : Type}.

Lemma bind_ok {A C} (m : M W A) (k : A -> M W C) s c s' :
  bind m k s = (Ok c, s') ->
  exists a s1, m s = (Ok a, s1) /\ k a s1 = (Ok c, s').
Proof.
  unfold bind. destruct (m s) as [[a|e] s1]; intros H; [eauto|discriminate].
Qed.

Lemma bind_value {A C} (m : M W A) (k : A -> M W C) s a s1 :
  m s = (Ok a, s1) -> bind m k s = k a s1.
Proof. unfold bind. now intros ->. Qed.

Lemma bind_error {A C} (m : M W A) (k : A -> M W C) s e s1 :
  m s = (Throw e, s1) -> bind m k s = (Throw e, s1).
Proof. unfold bind. now intros ->. Qed.

Lemma try_catch_cases {A} (m : M W A) h s r s' :
  try_catch m h s = (r, s') ->
  (exists a, m s = (Ok a, s') /\ r = Ok a) \/
  (exists e s1, m s = (Throw e, s1) /\ h e s1 = (r, s')).
Proof.
  unfold try_catch. destruct (m s) as [[a|e] s1]; intros H.
  - injection H as <- <-. left. eauto.
  - right. eauto.
Qed.

Lemma Emits_ret {A} P (a : A) : Emits P (ret a : M W A).
Proof. intros s. exists []. simpl. now rewrite app_nil_r. Qed.

Lemma Emits_throw {A} P e : Emits P (@throw W A e).
Proof. intros s. exists []. simpl. now rewrite app_nil_r. Qed.

Lemma Emits_lift {A} P (op : W -> Exc A * W) : Emits P (lift op).
Proof.
  intros s. exists []. unfold lift. destruct (op (world s)). simpl.
  now rewrite app_nil_r.
Qed.

Lemma Emits_emit (P : Event -> Prop) e : P e -> Emits P (emit e : M W unit).
Proof. intros H s. exists [e]. simpl. split; [reflexivity|]. now constructor. Qed.

Lemma Emits_bind {A C} P (m : M W A) (k : A -> M W C) :
  Emits P m -> (forall a, Emits P (k a)) -> Emits P (bind m k).
Proof.
  intros Hm Hk s. unfold bind. destruct (Hm s) as (e1 & H1 & F1).
  destruct (m s) as [[a|e] s1]; simpl in *.
  - destruct (Hk a s1) as (e2 & H2 & F2). exists (e1 ++ e2).
    rewrite H2, H1, app_assoc. split; [reflexivity|]. now apply Forall_app.
  - eauto.
Qed.

Lemma Emits_try_catch {A} P (m : M W A) h :
  Emits P m -> (forall e, Emits P (h e)) -> Emits P (try_catch m h).
Proof.
  intros Hm Hh s. unfold try_catch. destruct (Hm s) as (e1 & H1 & F1).
  destruct (m s) as [[a|e] s1]; simpl in *.
  - eauto.
  - destruct (Hh e s1) as (e2 & H2 & F2). exists (e1 ++ e2).
    rewrite H2, H1, app_assoc. split; [reflexivity|]. now apply Forall_app.
Qed.

Lemma Emits_finally {A} P (m : M W A) f :
  Emits P m -> Emits P f -> Emits P (finally m f).
Proof.
  intros Hm Hf s. unfold finally. destruct (Hm s) as (e1 & H1 & F1).
  destruct (m s) as [r s1]; simpl in *.
  destruct (Hf s1) as (e2 & H2 & F2). exists (e1 ++ e2).
  rewrite H2, H1, app_assoc. split; [reflexivity|]. now apply Forall_app.
Qed.

Lemma Emits_weaken {A} (P Q : Event -> Prop) (m : M W A) :
  (forall e, P e -> Q e) -> Emits P m -> Emits Q m.
Proof.
  intros HPQ Hm s. destruct (Hm s) as (evs & H & F). exists evs.
  split; [assumption|]. eapply Forall_impl; eauto.
Qed.

Lemma Emits_if {A} P (b : bool) (m1 m2 : M W A) :
  Emits P m1 -> Emits P m2 -> Emits P (if b then m1 else m2).
Proof. now destruct b. Qed.

Lemma Total_ret {A} (a : A) : Total (ret a : M W A).
Proof. intros s. now exists a, s. Qed.

Lemma Total_emit e : Total (emit e : M W unit).
Proof. intros s. unfold emit. eauto. Qed.

Lemma Total_bind {A C} (m : M W A) (k : A -> M W C) :
  Total m -> (forall a, Total (k a)) -> Total (bind m k).
Proof.
  intros Hm Hk s. unfold bind. destruct (Hm s) as (a & s1 & ->). apply Hk.
Qed.

Lemma Total_try_catch {A} (m : M W A) h :
  (forall e, Total (h e)) -> Total (try_catch m h).
Proof.
  intros Hh s. unfold try_catch. destruct (m s) as [[a|e] s1]; [eauto|apply Hh].
Qed.

Lemma Total_if {A} (b : bool) (m1 m2 : M W A) :
  Total m1 -> Total m2 -> Total (if b then m1 else m2).
Proof. now destruct b. Qed.

Lemma Keeps_ret {A} L (a : A) : Keeps L (ret a : M W A).
Proof. intros s H. exact H. Qed.

Lemma Keeps_throw {A} L e : Keeps L (@throw W A e).
Proof. intros s H. exact H. Qed.

Lemma Keeps_emit L e : Keeps L (emit e : M W unit).
Proof. intros s H. exact H. Qed.

Lemma Keeps_lift {A} (L : W -> Prop) (op : W -> Exc A * W) :
  (forall w, L w -> L (snd (op w))) -> Keeps L (lift op).
Proof.
  intros Hop s H. unfold lift. specialize (Hop (world s) H).
  destruct (op (world s)). exact Hop.
Qed.

Lemma Keeps_bind {A C} L (m : M W A) (k : A -> M W C) :
  Keeps L m -> (forall a, Keeps L (k a)) -> Keeps L (bind m k).
Proof.
  intros Hm Hk s H. unfold bind. specialize (Hm s H).
  destruct (m s) as [[a|e] s1]; simpl in *; [now apply Hk|exact Hm].
Qed.

Lemma Keeps_try_catch {A} L (m : M W A) h :
  Keeps L m -> (forall e, Keeps L (h e)) -> Keeps L (try_catch m h).
Proof.
  intros Hm Hh s H. unfold try_catch. specialize (Hm s H).
  destruct (m s) as [[a|e] s1]; simpl in *; [exact Hm|now apply Hh].
Qed.

Lemma Keeps_if {A} L (b : bool) (m1 m2 : M W A) :
  Keeps L m1 -> Keeps L m2 -> Keeps L (if b then m1 else m2).
Proof. now destruct b. Qed.

End MonadFacts.

(** Structural proof of an [Emits] goal. *)
Ltac emits :=
  repeat first
    [ apply Emits_ret | apply Emits_throw | apply Emits_lift
    | apply Emits_emit; exact I
    | apply Emits_bind; [|intros ?]
    | apply Emits_try_catch; [|intros ?]
    | apply Emits_finally
    | match goal with
      | |- Emits _ (match ?x with _ => _ end) => destruct x
      end ].

(** ** Validation and scoring *)

Module DetectorFacts.
Import VideoThumbnailDetector Spec.

Lemma far_from_zero tolerance r ratio :
  tolerance <= 1 -> r == 0 -> 1 < ratio ->
  Qle_bool (Qabs (r - ratio)) tolerance = false.
Proof.
  intros Ht Hr Hratio. destruct (Qle_bool _ _) eqn:E; [|reflexivity].
  apply Qle_bool_iff, Qabs_Qle_condition in E. destruct E as [E1 E2]. lra.
Qed.

Lemma near_zero tolerance r : tolerance <= 1 -> r == 0 -> near tolerance r = false.
Proof.
  intros Ht Hr. unfold near, some, PREFERRED_ASPECT_RATIOS. cbn [existsb].
  rewrite !(far_from_zero tolerance r) by (assumption || reflexivity).
  reflexivity.
Qed.

Lemma ifTruthy_In content mk c :
  In c (ifTruthy content mk) -> exists v, c = mk v.
Proof.
  unfold ifTruthy. destruct content as [v|]; [|contradiction].
  destruct (truthyS v); [|contradiction].
  intros [<-|[]]. eauto.
Qed.

Lemma iframeLoop_In l : forall acc c,
  In c (iframeLoop l acc) ->
  In c acc \/ exists u, c = raw u "iframe data attribute" 0.6 "iframe".
Proof.
  induction l as [|f l IH]; intros acc c H; simpl in H; [now left|].
  destruct (iframe_src f) as [src|]; [|now left].
  destruct (looksLikePlayer src && contentFrame_throws f).
  - destruct (iframe_poster f) as [p|]; [|now left].
    apply IH in H. destruct H as [H|H]; [|now right].
    apply in_app_or in H. destruct H as [H|H]; [now left|].
    right. now apply ifTruthy_In in H.
  - now apply IH.
Qed.

(** Every extraction script assigns one of five base confidences. *)
Lemma Extracted_base c :
  Extracted c -> In (confidence c) [0.5; 0.6; 0.7; 0.8; 0.9].
Proof.
  intros H. simpl. destruct H as [d c H|d c H|d c H|d c H|l c H|d c H].
  - unfold extractMetadataThumbnails in H.
    apply in_app_or in H. destruct H as [H|H];
      [apply ifTruthy_In in H; destruct H as [v ->]; simpl; tauto|].
    apply in_app_or in H. destruct H as [H|H];
      [apply ifTruthy_In in H; destruct H as [v ->]; simpl; tauto|].
    apply in_map_iff in H. destruct H as (u & <- & _). simpl. tauto.
  - unfold extractVideoElementThumbnails in H.
    apply in_flat_map in H. destruct H as (v & _ & H).
    unfold videoCandidates in H. apply in_app_or in H. destruct H as [H|H].
    + destruct (truthyS (poster v)); [|contradiction].
      destruct H as [<-|[]]. simpl. tauto.
    + apply in_flat_map in H. destruct H as (attr & _ & H).
      apply ifTruthy_In in H. destruct H as [x ->]. simpl. tauto.
  - unfold extractDOMThumbnails in H.
    apply in_map_iff in H. destruct H as ([sibling u] & <- & _).
    destruct sibling; simpl; tauto.
  - unfold extractCSSBackgroundThumbnails in H.
    apply in_map_iff in H. destruct H as (u & <- & _). simpl. tauto.
  - apply iframeLoop_In in H. destruct H as [[]|[u ->]]. simpl. tauto.
  - unfold extractOEmbedThumbnails in H.
    apply in_flat_map in H. destruct H as (link & _ & H).
    unfold oembedCandidates in H.
    destruct (truthyS (href link)); [|contradiction].
    destruct (oembed_response link) as [data|]; [|contradiction].
    apply ifTruthy_In in H. destruct H as [u ->]. simpl. tauto.
Qed.

(** Hence every base confidence lies between 0.5 and 0.9. *)
Lemma Extracted_confidence c :
  Extracted c -> 0.5 <= confidence c /\ confidence c <= 0.9.
Proof.
  intros H. apply Extracted_base in H. simpl in H.
  repeat (destruct H as [<-|H]; [split; unfold Qle; simpl; lia|]).
  contradiction.
Qed.

Lemma within_interval tolerance r p p' :
  p == p' ->
  Qle_bool (Qabs (r - p)) tolerance
  = Qle_bool (p' - tolerance) r && Qle_bool r (p' + tolerance).
Proof.
  intros Hp. apply eq_true_iff_eq.
  rewrite andb_true_iff, !Qle_bool_iff, Qabs_Qle_condition.
  split; intros [H1 H2]; split; lra.
Qed.

(** The distance test of the code is the interval test of the
    specification. *)
Lemma withinPreferred_near tolerance c :
  withinPreferred tolerance c
  = match aspectRatio c with
    | Some r => near tolerance r
    | None => false
    end.
Proof.
  unfold withinPreferred. destruct (aspectRatio c) as [r|]; [|reflexivity].
  unfold near, some, PREFERRED_ASPECT_RATIOS, preferredRatios. cbn [existsb].
  repeat match goal with |- orb _ _ = orb _ _ => f_equal end;
    try reflexivity; symmetry; apply within_interval; reflexivity.
Qed.

Lemma existsb_shift (f : nat -> bool) l :
  existsb f (map S l) = existsb (fun i => f (S i)) l.
Proof. induction l as [|i l IH]; simpl; [reflexivity|now rewrite IH]. Qed.

Lemma prefix_substring word s :
  String.prefix word s = String.eqb (substring 0 (String.length word) s) word.
Proof.
  apply eq_true_iff_eq. rewrite String.eqb_eq. apply prefix_correct.
Qed.

(** [includes] finds a word exactly when it stands at some position. *)
Lemma mentions_includes s word : mentions s word = includes s word.
Proof.
  unfold mentions. induction s as [|c s IH].
  - cbn [includes String.length seq existsb]. rewrite prefix_substring.
    apply orb_false_r.
  - cbn [includes String.length]. rewrite <- IH, prefix_substring.
    change (seq 0 (S (S (String.length s))))
      with (0%nat :: seq 1 (S (String.length s))).
    cbn [existsb]. f_equal.
    rewrite <- seq_shift, existsb_shift. reflexivity.
Qed.

(** The code of [calculateFinalConfidence], in exact arithmetic,
    computes the rule of the specification. *)
Lemma calculateFinalConfidence_scoreSpec c :
  calculateFinalConfidence c == scoreSpec (confidence c) c.
Proof.
  unfold scoreSpec. rewrite withinPreferred_near, !mentions_includes.
  unfold calculateFinalConfidence, pixelArea.
  rewrite Math_min_Qmin. apply Q.min_compat; [|reflexivity].
  destruct (includes (source c) "video" || includes (source c) "poster").
  - destruct (aspectRatio c) as [r|].
    + unfold truthyQ. destruct (Qeq_bool r 0) eqn:Er; simpl.
      * apply Qeq_bool_iff in Er. rewrite (near_zero 0.1 r); [|discriminate|assumption].
        destruct (width c) as [w|], (height c) as [h|]; simpl; try ring.
        destruct (Z.eqb_spec w 0) as [->|Hw]; simpl; [ring|].
        destruct (Z.eqb_spec h 0) as [->|Hh]; simpl; [rewrite Z.mul_0_r; simpl; ring|].
        destruct (500000 <? w * h)%Z; [ring|].
        destruct (200000 <? w * h)%Z; ring.
      * destruct (near 0.1 r);
        destruct (width c) as [w|], (height c) as [h|]; simpl; try ring;
        (destruct (Z.eqb_spec w 0) as [->|Hw]; simpl; [ring|]);
        (destruct (Z.eqb_spec h 0) as [->|Hh]; simpl; [rewrite Z.mul_0_r; simpl; ring|]);
        (destruct (500000 <? w * h)%Z; [ring|]);
        destruct (200000 <? w * h)%Z; ring.
    + destruct (width c) as [w|], (height c) as [h|]; simpl; try ring;
      (destruct (Z.eqb_spec w 0) as [->|Hw]; simpl; [ring|]);
      (destruct (Z.eqb_spec h 0) as [->|Hh]; simpl; [rewrite Z.mul_0_r; simpl; ring|]);
      (destruct (500000 <? w * h)%Z; [ring|]);
      destruct (200000 <? w * h)%Z; ring.
  - destruct (aspectRatio c) as [r|].
    + unfold truthyQ. destruct (Qeq_bool r 0) eqn:Er; simpl.
      * apply Qeq_bool_iff in Er. rewrite (near_zero 0.1 r); [|discriminate|assumption].
        destruct (width c) as [w|], (height c) as [h|]; simpl; try ring.
        destruct (Z.eqb_spec w 0) as [->|Hw]; simpl; [ring|].
        destruct (Z.eqb_spec h 0) as [->|Hh]; simpl; [rewrite Z.mul_0_r; simpl; ring|].
        destruct (500000 <? w * h)%Z; [ring|].
        destruct (200000 <? w * h)%Z; ring.
      * destruct (near 0.1 r);
        destruct (width c) as [w|], (height c) as [h|]; simpl; try ring;
        (destruct (Z.eqb_spec w 0) as [->|Hw]; simpl; [ring|]);
        (destruct (Z.eqb_spec h 0) as [->|Hh]; simpl; [rewrite Z.mul_0_r; simpl; ring|]);
        (destruct (500000 <? w * h)%Z; [ring|]);
        destruct (200000 <? w * h)%Z; ring.
    + destruct (width c) as [w|], (height c) as [h|]; simpl; try ring;
      (destruct (Z.eqb_spec w 0) as [->|Hw]; simpl; [ring|]);
      (destruct (Z.eqb_spec h 0) as [->|Hh]; simpl; [rewrite Z.mul_0_r; simpl; ring|]);
      (destruct (500000 <? w * h)%Z; [ring|]);
      destruct (200000 <? w * h)%Z; ring.
Qed.

Lemma scoreSpec_bounds base c :
  base <= 1 -> scoreSpec base c <= 1 /\ base <= scoreSpec base c.
Proof.
  intros Hb. unfold scoreSpec. split; [apply Q.le_min_r|].
  apply Q.min_glb; [|assumption].
  destruct (500000 <? pixelArea c)%Z, (200000 <? pixelArea c)%Z,
    (withinPreferred (1 # 10) c),
    (mentions (source c) "video" || mentions (source c) "poster"); lra.
Qed.

(** The size check refuses the non-zero sizes below the minimum and
    nothing else: a known size that passes is zero or at least the
    minimum. *)
Lemma isValidThumbnail_size c w h :
  isValidThumbnail c = true -> width c = Some w -> height c = Some h ->
  (w = 0 \/ 200 <= w)%Z /\ (h = 0 \/ 150 <= h)%Z.
Proof.
  unfold isValidThumbnail, below, truthyZ, MIN_THUMBNAIL_WIDTH, MIN_THUMBNAIL_HEIGHT.
  intros H Hw Hh. rewrite Hw, Hh in H.
  destruct (Z.eqb_spec w 0), (Z.ltb_spec w 200), (Z.eqb_spec h 0), (Z.ltb_spec h 150);
    simpl in H; try discriminate; lia.
Qed.

Section Pipeline.
Context {W Elem : Type} {B : Browser W Elem}.

Lemma validateCandidate_Some c c' (s s' : State W) :
  validateCandidate c s = (Ok (Some c'), s') ->
  exists v,
    isValidThumbnail v = true /\
    c' = set_confidence v (calculateFinalConfidence v) /\
    confidence v = confidence c /\ source v = source c.
Proof.
  unfold validateCandidate. intros H.
  apply try_catch_cases in H. destruct H as [(a & H & Ha)|(e & s1 & _ & H)];
    [|discriminate].
  injection Ha as <-.
  apply bind_ok in H. destruct H as (absoluteUrl & s1 & _ & H).
  apply bind_ok in H. destruct H as (v0 & s2 & Hv0 & H).
  assert (Hkeep : confidence v0 = confidence c /\ source v0 = source c).
  { destruct (negb (truthyZ (width (set_url c absoluteUrl)))
              || negb (truthyZ (height (set_url c absoluteUrl)))).
    - apply bind_ok in Hv0. destruct Hv0 as (dims & s3 & _ & Hv0).
      injection Hv0 as <- _. now split.
    - injection Hv0 as <- _. now split. }
  destruct Hkeep as [Hk1 Hk2].
  match type of H with
  | (if isValidThumbnail ?v then _ else _) _ = _ =>
      exists v; destruct (isValidThumbnail v) eqn:Hvalid; [|discriminate];
      injection H as <- _;
      assert (confidence v = confidence v0 /\ source v = source v0) as [E1 E2]
  end.
  { destruct (width v0) as [w|], (height v0) as [h|]; try (now split).
    destruct (truthyZ (Some w) && truthyZ (Some h)); now split. }
  repeat split; congruence.
Qed.

Lemma detectVideoThumbnail_shape (s : State W) :
  exists r s',
    detectVideoThumbnail s = (Ok r, s') /\
    ((r = mkDetection false None []) \/
     exists valid, thumbnail r = fst (selectBestCandidate valid) /\
                   candidates r = snd (selectBestCandidate valid)).
Proof.
  unfold detectVideoThumbnail.
  match goal with |- context [try_catch ?m ?h s] =>
    destruct (try_catch m h s) as [r s'] eqn:E end.
  apply try_catch_cases in E. destruct E as [(a & E & ->)|(e & s1 & _ & E)].
  - exists a, s'. split; [reflexivity|]. right.
    do 6 (apply bind_ok in E; destruct E as (? & ? & _ & E)).
    apply bind_ok in E. destruct E as (valid & ? & _ & E).
    apply bind_ok in E. destruct E as (hv & ? & _ & E).
    injection E as <- _. exists valid. now split.
  - injection E as <- <-. eauto.
Qed.

End Pipeline.

(** C6.  [selectBestCandidate] returns nothing for an empty array and
    otherwise the first element, in encounter order, whose confidence
    no other element exceeds: every earlier element is strictly lower,
    every later element is lower or equal. *)
Theorem selectBestCandidate_first_maximum (l : list ThumbnailCandidate) :
  match l with
  | [] => fst (selectBestCandidate l) = None
  | _ :: _ =>
      exists c before after,
        fst (selectBestCandidate l) = Some c /\
        l = before ++ c :: after /\
        Forall (fun x => confidence x < confidence c) before /\
        Forall (fun x => confidence x <= confidence c) after
  end.
Proof.
  destruct l as [|x l]; [reflexivity|].
  unfold selectBestCandidate. cbn [fst]. apply sort_head.
Qed.

Section Selection.
Context {W Elem : Type} {B : Browser W Elem}.

Lemma validateCandidate_returns c (s : State W) :
  exists r s', validateCandidate c s = (Ok r, s').
Proof.
  unfold validateCandidate.
  apply (Total_try_catch (W := W)). intros e. apply Total_ret.
Qed.

Lemma validateAndScoreCandidates_returns l : forall s : State W,
  exists valid s', validateAndScoreCandidates l s = (Ok valid, s').
Proof.
  induction l as [|c l IH]; intros s; simpl; [now exists [], s|].
  destruct (validateCandidate_returns c s) as (r & s1 & E1).
  destruct (IH s1) as (valid & s2 & E2).
  rewrite (bind_value _ _ _ _ _ E1), (bind_value _ _ _ _ _ E2).
  eexists. eexists. reflexivity.
Qed.

(** The array after the selection holds the elements of the array
    before it, in sorted order, and the selected element is its
    first. *)
Lemma selectBestCandidate_permutes valid :
  Permutation valid (snd (selectBestCandidate valid)) /\
  byDescendingConfidence (snd (selectBestCandidate valid)) /\
  fst (selectBestCandidate valid) = hd_error (snd (selectBestCandidate valid)).
Proof.
  destruct valid as [|x valid]; simpl.
  - repeat split; constructor.
  - split; [apply (sort_perm (x :: valid))|].
    split; [apply (sort_sorted (x :: valid))|reflexivity].
Qed.

(** Detection, once the extraction has returned [raw]: validation,
    selection and the presence test, inside the [try]. *)
Lemma detectVideoThumbnail_continues (s sA : State W) raw :
  extraction s = (Ok raw, sA) ->
  detectVideoThumbnail s
  = try_catch
      (validCandidates <- validateAndScoreCandidates raw ;;
       hasVideo <-
         (if (0 <? List.length raw)%nat then ret true else detectVideoPresence) ;;
       ret (mkDetection hasVideo (fst (selectBestCandidate validCandidates))
                        (snd (selectBestCandidate validCandidates))))
      (fun _ => ret (mkDetection false None []))
      sA.
Proof.
  unfold extraction. intros E.
  apply bind_ok in E. destruct E as (c1 & s1 & E1 & E).
  apply bind_ok in E. destruct E as (c2 & s2 & E2 & E).
  apply bind_ok in E. destruct E as (c3 & s3 & E3 & E).
  apply bind_ok in E. destruct E as (c4 & s4 & E4 & E).
  apply bind_ok in E. destruct E as (c5 & s5 & E5 & E).
  apply bind_ok in E. destruct E as (c6 & s6 & E6 & E).
  injection E as <- <-.
  unfold detectVideoThumbnail, try_catch.
  rewrite (bind_value _ _ _ _ _ E1), (bind_value _ _ _ _ _ E2),
    (bind_value _ _ _ _ _ E3), (bind_value _ _ _ _ _ E4),
    (bind_value _ _ _ _ _ E5), (bind_value _ _ _ _ _ E6).
  reflexivity.
Qed.

(** When an extractor throws, the [catch] clause answers. *)
Lemma detectVideoThumbnail_extraction_throws (s sA : State W) e :
  extraction s = (Throw e, sA) ->
  detectVideoThumbnail s = (Ok (mkDetection false None []), sA).
Proof.
  intros E. unfold detectVideoThumbnail, try_catch. unfold extraction in E.
  repeat match type of E with
  | bind ?m ?k ?s0 = (Throw _, _) =>
      let r := fresh "r" in let s1 := fresh "s" in let Em := fresh "E" in
      destruct (m s0) as [[r|?] s1] eqn:Em;
      [ rewrite (bind_value _ _ _ _ _ Em) in E;
        rewrite (bind_value _ _ _ _ _ Em)
      | rewrite (bind_error _ _ _ _ _ Em) in E;
        rewrite (bind_error _ _ _ _ _ Em);
        injection E as <- <-; reflexivity ]
  end.
  discriminate E.
Qed.

(** What detection reports, by the outcome of the extraction and of
    the presence script. *)
Lemma detectVideoThumbnail_reports (s : State W) :
  (forall e sA,
      extraction s = (Throw e, sA) ->
      detectVideoThumbnail s = (Ok (mkDetection false None []), sA))
  /\
  (forall raw sA,
      extraction s = (Ok raw, sA) -> raw <> [] ->
      exists d s', detectVideoThumbnail s = (Ok d, s') /\ hasVideo d = true)
  /\
  (forall sA found sB,
      extraction s = (Ok [], sA) ->
      detectVideoPresence sA = (Ok found, sB) ->
      detectVideoThumbnail s = (Ok (mkDetection found None []), sB))
  /\
  (forall sA e sB,
      extraction s = (Ok [], sA) ->
      detectVideoPresence sA = (Throw e, sB) ->
      detectVideoThumbnail s = (Ok (mkDetection false None []), sB)).
Proof.
  split; [|split; [|split]].
  - intros e sA. apply detectVideoThumbnail_extraction_throws.
  - intros raw sA E Hraw. rewrite (detectVideoThumbnail_continues s sA raw E).
    destruct (validateAndScoreCandidates_returns raw sA) as (valid & sB & Ev).
    unfold try_catch. rewrite (bind_value _ _ _ _ _ Ev).
    destruct raw as [|c raw]; [now contradiction Hraw|].
    cbn [List.length Nat.ltb Nat.leb]. unfold bind, ret.
    eexists. eexists. split; reflexivity.
  - intros sA found sB E Ep. rewrite (detectVideoThumbnail_continues s sA [] E).
    unfold try_catch. cbn [validateAndScoreCandidates List.length Nat.ltb Nat.leb].
    unfold bind at 1, ret at 1. rewrite (bind_value _ _ _ _ _ Ep). reflexivity.
  - intros sA e sB E Ep. rewrite (detectVideoThumbnail_continues s sA [] E).
    unfold try_catch. cbn [validateAndScoreCandidates List.length Nat.ltb Nat.leb].
    unfold bind at 1, ret at 1. rewrite (bind_error _ _ _ _ _ Ep). reflexivity.
Qed.

(** The result of detection, once the extraction has returned [raw]. *)
Lemma detectVideoThumbnail_after_extraction (s sA : State W) raw :
  extraction s = (Ok raw, sA) ->
  exists valid sB r s',
    validateAndScoreCandidates raw sA = (Ok valid, sB) /\
    detectVideoThumbnail s = (Ok r, s') /\
    (r = mkDetection false None [] /\ raw = [] /\ valid = [] \/
     thumbnail r = fst (selectBestCandidate valid) /\
     candidates r = snd (selectBestCandidate valid)).
Proof.
  intros E. rewrite (detectVideoThumbnail_continues s sA raw E).
  destruct (validateAndScoreCandidates_returns raw sA) as (valid & sB & Ev).
  exists valid, sB. unfold try_catch. rewrite (bind_value _ _ _ _ _ Ev).
  destruct raw as [|c raw].
  - simpl in Ev. injection Ev as <- <-. cbn [List.length Nat.ltb Nat.leb].
    unfold bind. destruct (detectVideoPresence sA) as [[hv|e] s7].
    + eexists. eexists. split; [reflexivity|]. split; [reflexivity|].
      right. now split.
    + eexists. eexists. split; [reflexivity|]. split; [reflexivity|].
      left. now repeat split.
  - cbn [List.length Nat.ltb Nat.leb]. unfold bind, ret.
    eexists. eexists. split; [exact Ev|]. split; [reflexivity|].
    right. now split.
Qed.

(** C10.  Detection always returns a result whose [candidates] are in
    order of non-increasing confidence, the selected thumbnail first.
    When the six extractors return the raw candidates [raw], validation
    returns an array [valid], and the [candidates] of the result are a
    rearrangement of [valid]: every validated candidate is there, as
    often as in [valid], and nothing else.  When an extractor throws,
    no selection takes place and the result holds no candidate. *)
Theorem detection_candidates_sorted (s : State W) :
  (exists r s',
      detectVideoThumbnail s = (Ok r, s') /\
      byDescendingConfidence (candidates r) /\
      thumbnail r = hd_error (candidates r))
  /\
  (forall raw sA,
      extraction s = (Ok raw, sA) ->
      exists valid sB r s',
        validateAndScoreCandidates raw sA = (Ok valid, sB) /\
        detectVideoThumbnail s = (Ok r, s') /\
        Permutation valid (candidates r) /\
        byDescendingConfidence (candidates r) /\
        thumbnail r = hd_error (candidates r))
  /\
  (forall e sA,
      extraction s = (Throw e, sA) ->
      detectVideoThumbnail s = (Ok (mkDetection false None []), sA)).
Proof.
  split; [|split].
  - destruct (detectVideoThumbnail_shape s) as (r & s' & E & H).
    exists r, s'. split; [assumption|].
    destruct H as [->|(valid & Ht & Hc)].
    + split; [constructor|reflexivity].
    + rewrite Ht, Hc. apply selectBestCandidate_permutes.
  - intros raw sA E.
    destruct (detectVideoThumbnail_after_extraction s sA raw E)
      as (valid & sB & r & s' & Ev & Ed & H).
    exists valid, sB, r, s'. split; [exact Ev|]. split; [exact Ed|].
    destruct H as [(-> & _ & ->)|[Ht Hc]].
    + repeat split; constructor.
    + rewrite Ht, Hc. apply selectBestCandidate_permutes.
  - intros e sA. apply detectVideoThumbnail_extraction_throws.
Qed.

End Selection.

End DetectorFacts.

Module DetectorExamples.
Import VideoThumbnailDetector Spec DetectorFacts Samples.

(** C1.  A page whose only candidate is an [og:image] that fails to
    load: the measured size is 0x0, the size check is skipped because
    zero is falsy, and the candidate is kept and selected. *)
Theorem zero_size_candidate_is_kept :
  exists r s' c,
    detectVideoThumbnail (B := Toy.browser) (start brokenImagePage) = (Ok r, s') /\
    candidates r = [c] /\ thumbnail r = Some c /\
    width c = Some 0%Z /\ height c = Some 0%Z /\
    url c = "https://x/a.jpg"%string.
Proof.
  eexists. eexists. eexists. split; [vm_compute; reflexivity|].
  repeat split; reflexivity.
Qed.

(** Scenario A of the specification: 0.8 + 0.1 + 0.1 reaches the cap. *)
Example scenario_A_score : confidence ogValidated == 1.
Proof. vm_compute. reflexivity. Qed.

Lemma detection_candidates_witness :
  extraction (B := Toy.browser) (start reorderedPage)
  = (Ok reorderedRaw, start reorderedPage) /\
  exists valid sB r s',
    validateAndScoreCandidates (B := Toy.browser) reorderedRaw (start reorderedPage)
    = (Ok valid, sB) /\
    detectVideoThumbnail (B := Toy.browser) (start reorderedPage) = (Ok r, s') /\
    Permutation valid (candidates r) /\
    byDescendingConfidence (candidates r) /\
    thumbnail r = hd_error (candidates r).
Proof.
  assert (E : extraction (B := Toy.browser) (start reorderedPage)
              = (Ok reorderedRaw, start reorderedPage))
    by (vm_compute; reflexivity).
  split; [exact E|].
  exact (proj1 (proj2 (detection_candidates_sorted (B := Toy.browser)
                         (start reorderedPage)))
               reorderedRaw (start reorderedPage) E).
Defined.

(** On that page validation keeps both candidates in extraction order,
    [og:image] first; the result lists the structured-data thumbnail
    first, and selects it. *)
Example validated_order_is_not_kept :
  exists valid sB r s',
    validateAndScoreCandidates (B := Toy.browser) reorderedRaw (start reorderedPage)
    = (Ok valid, sB) /\
    detectVideoThumbnail (B := Toy.browser) (start reorderedPage) = (Ok r, s') /\
    map source valid = ["og:image"; "schema.org VideoObject"]%string /\
    map source (candidates r) = ["schema.org VideoObject"; "og:image"]%string /\
    option_map source (thumbnail r) = Some "schema.org VideoObject"%string.
Proof.
  eexists. eexists. eexists. eexists.
  split; [vm_compute; reflexivity|]. split; [vm_compute; reflexivity|].
  repeat split; reflexivity.
Qed.

(** The extractors meet [og:image] before the structured-data
    thumbnail; the returned sequence lists the higher score first. *)
Example candidates_reordered :
  exists r s',
    detectVideoThumbnail (B := Toy.browser)
      (start (Toy.withMetadata (Some "https://x/a.jpg"%string)
                               ["https://x/b.jpg"%string] (300, 300)%Z))
    = (Ok r, s') /\
    map source (candidates r) = ["schema.org VideoObject"; "og:image"]%string.
Proof. eexists. eexists. split; vm_compute; reflexivity. Qed.

End DetectorExamples.

(** ** The score on doubles *)

Module ScoringFacts.
Import PrimFloat FloatOps FloatAxioms SpecFloat.
Import VideoThumbnailDetector Spec RoundedSpec.
Local Open Scope float_scope.
Set Warnings "-inexact-float".

Lemma SFcompare_same s m e :
  SFcompare (S754_finite s m e) (S754_finite s m e) = Some Eq.
Proof.
  simpl. destruct s; rewrite Z.compare_refl, Pos.compare_cont_refl; reflexivity.
Qed.

(** The falsy numbers. *)
Lemma falsy_cases r : Binary64.truthy r = false -> r = 0 \/ r = -0 \/ r = nan.
Proof.
  unfold Binary64.truthy, is_nan. intros H.
  rewrite <- (SF2Prim_Prim2SF r).
  rewrite !eqb_spec in H.
  destruct (Prim2SF r) as [s|s| |s m e].
  - destruct s; [right; left|left]; reflexivity.
  - destruct s; discriminate H.
  - right; right. reflexivity.
  - unfold SFeqb in H. rewrite SFcompare_same in H.
    destruct s; simpl in H; discriminate H.
Qed.

(** A falsy aspect ratio is not near any preferred ratio, so that the
    guard of the code does not change the rule. *)
Lemma near_falsy r : Binary64.truthy r = false -> Binary64.near 0.1 r = false.
Proof.
  intros H. destruct (falsy_cases r H) as [->|[->| ->]]; vm_compute; reflexivity.
Qed.

Lemma near_iff r :
  Binary64.near 0.1 r = true <->
  exists p, In p preferredRatios /\ (abs (r - p) <=? 0.1) = true.
Proof. unfold Binary64.near, some. apply existsb_exists. Qed.

Lemma prefix_iff word s :
  String.prefix word s = true <-> exists after, s = word +++ after.
Proof.
  revert s. induction word as [|a word IH]; intros s.
  - destruct s; simpl; split; eauto.
  - destruct s as [|b s]; simpl.
    + split; [discriminate|]. intros [after H]. discriminate.
    + destruct (Ascii.ascii_dec a b) as [->|Hab].
      * rewrite IH. split; intros [after H]; exists after; congruence.
      * split; [discriminate|]. intros [after H]. congruence.
Qed.

(** [includes] holds exactly of the strings that contain the word. *)
Lemma includes_iff s word : includes s word = true <-> Mentions s word.
Proof.
  unfold Mentions. induction s as [|c s IH].
  - cbn [includes]. rewrite prefix_iff. split.
    + intros [after H]. now exists ""%string, after.
    + intros (before & after & H). destruct before; [|discriminate].
      now exists after.
  - cbn [includes]. rewrite orb_true_iff, prefix_iff, IH. split.
    + intros [[after H]|(before & after & H)].
      * now exists ""%string, after.
      * exists (String c before), after. simpl. now rewrite H.
    + intros (before & after & H). destruct before as [|b before].
      * left. now exists after.
      * right. exists before, after. simpl in H. congruence.
Qed.

Lemma videoSource_iff c :
  includes (Binary64.source c) "video" || includes (Binary64.source c) "poster" = true
  <-> VideoSource c.
Proof. unfold VideoSource. now rewrite orb_true_iff, !includes_iff. Qed.

(** On whole numbers, the quotient of the rational model becomes the
    quotient of the two doubles. *)
Lemma ofQ_quotient w h :
  (0 < h)%Z ->
  Binary64.ofQ (inject_Z w / inject_Z h) = Binary64.ofZ w / Binary64.ofZ h.
Proof.
  intros Hh. destruct h as [|h|h]; try lia.
  unfold Binary64.ofQ. simpl. now rewrite Z.mul_1_r.
Qed.

(** The extraction scripts assign one of five base confidences. *)
Lemma extractor_bases c :
  Extracted c -> In (Binary64.ofQ (confidence c)) Binary64.baseConfidences.
Proof.
  intros H. apply DetectorFacts.Extracted_base in H. simpl in H.
  destruct H as [<-|[<-|[<-|[<-|[<-|[]]]]]]; vm_compute; tauto.
Qed.

Section Pipeline.
Context {W Elem : Type} {B : Browser W Elem}.

(** Every candidate that reaches the scoring step of the pipeline
    carries one of the five base confidences. *)
Lemma scored_candidates_have_extractor_bases c c' (s s' : State W) :
  Extracted c ->
  validateCandidate c s = (Ok (Some c'), s') ->
  exists v,
    isValidThumbnail v = true /\
    c' = set_confidence v (calculateFinalConfidence v) /\
    In (Binary64.confidence (doubles v)) Binary64.baseConfidences.
Proof.
  intros Hex H. apply DetectorFacts.validateCandidate_Some in H.
  destruct H as (v & Hvalid & -> & Hconf & _).
  exists v. split; [exact Hvalid|]. split; [reflexivity|].
  unfold doubles. cbn [Binary64.confidence]. rewrite Hconf.
  now apply extractor_bases.
Qed.

End Pipeline.

Ltac size_bonus :=
  unfold SizeBonus, pixelArea; cbn [Binary64.width Binary64.height];
  first [ left; split; [lia|reflexivity]
        | right; left; split; [lia|split; [lia|reflexivity]]
        | right; right; split; [lia|reflexivity] ].

Lemma ratio_bonus_given c r :
  Binary64.aspectRatio c = Some r -> Binary64.near 0.1 r = true ->
  Bonus (WithinPreferred c) 0.1 0.1.
Proof.
  intros Hr Hn. left. split; [|reflexivity].
  apply near_iff in Hn. destruct Hn as (p & Hp & Hle). now exists r, p.
Qed.

Lemma ratio_bonus_refused c :
  match Binary64.aspectRatio c with
  | Some r => Binary64.near 0.1 r = false
  | None => True
  end ->
  Bonus (WithinPreferred c) 0.1 0.
Proof.
  intros H. right. split; [|reflexivity].
  intros (r & p & Hr & Hp & Hle). rewrite Hr in H.
  assert (Hn : Binary64.near 0.1 r = true) by (apply near_iff; now exists p).
  congruence.
Qed.

Ltac ratio_bonus :=
  first
    [ eapply ratio_bonus_given; [reflexivity|assumption]
    | apply ratio_bonus_refused; cbn [Binary64.aspectRatio];
      first [exact I | assumption | apply near_falsy; assumption] ].

Ltac source_bonus :=
  unfold Bonus;
  match goal with
  | H : _ || _ = true |- _ =>
      left; split; [apply videoSource_iff; exact H|reflexivity]
  | H : _ || _ = false |- _ =>
      right; split; [|reflexivity];
      intros Hv; apply videoSource_iff in Hv;
      cbn [Binary64.source] in Hv; congruence
  end.

(** The ways through [calculateFinalConfidence]. *)
Ltac score_cases src r w h :=
  destruct (includes src "video" || includes src "poster") eqn:Es;
  (destruct r as [r|];
   [destruct (Binary64.truthy r) eqn:Et;
    [destruct (Binary64.near 0.1 r) eqn:En|]|]);
  (destruct w as [w|], h as [h|]; cbn [truthyZ];
   try destruct (Z.eqb_spec w 0) as [->|Hw];
   try destruct (Z.eqb_spec h 0) as [->|Hh];
   cbn [negb andb];
   try destruct (Z.ltb_spec 500000 (w * h)) as [Hl|Hl];
   try destruct (Z.ltb_spec 200000 (w * h)) as [Hm|Hm]).

(** A base confidence of 0.8 or 0.9 passes the test
    [confidence >= 0.8] of the direct return after scoring, on doubles
    as in exact arithmetic. *)
Lemma confident_base_stays_confident (c : Binary64.Candidate) :
  In (Binary64.confidence c) [0.8; 0.9] ->
  (0.8 <=? Binary64.calculateFinalConfidence c) = true.
Proof.
  destruct c as [src base w h r]. cbn [Binary64.confidence]. intros Hbase.
  unfold Binary64.calculateFinalConfidence.
  cbn [Binary64.confidence Binary64.width Binary64.height
       Binary64.aspectRatio Binary64.source].
  score_cases src r w h;
    simpl in Hbase; destruct Hbase as [<-|[<-|[]]]; vm_compute; reflexivity.
Qed.

(** C5.  For a candidate with one of the base confidences of the
    extractors, [calculateFinalConfidence] returns the base confidence
    plus 0.1 for an area above 500,000 (else 0.05 above 200,000), plus
    0.1 when the rounded distance of the aspect ratio to a preferred
    ratio is at most 0.1, plus 0.1 for a source that contains [video]
    or [poster], each addition rounded to a double, capped at one; the
    result is at most one and at least the base confidence. *)
Theorem final_confidence_is_rounded_sum (c : Binary64.Candidate) :
  In (Binary64.confidence c) Binary64.baseConfidences ->
  RoundedSum c (Binary64.calculateFinalConfidence c) /\
  (Binary64.calculateFinalConfidence c <=? 1) = true /\
  (Binary64.confidence c <=? Binary64.calculateFinalConfidence c) = true.
Proof.
  destruct c as [src base w h r]. cbn [Binary64.confidence]. intros Hbase.
  unfold RoundedSum, Binary64.calculateFinalConfidence.
  cbn [Binary64.confidence Binary64.width Binary64.height
       Binary64.aspectRatio Binary64.source].
  score_cases src r w h;
    simpl in Hbase;
    destruct Hbase as [<-|[<-|[<-|[<-|[<-|[]]]]]];
    (split; [|split; vm_compute; reflexivity]);
    eexists _, _, _;
    (split; [size_bonus|]);
    (split; [ratio_bonus|]);
    (split; [source_bonus|]);
    vm_compute; reflexivity.
Qed.

Set Warnings "+inexact-float".
End ScoringFacts.

Module ScoringExamples.
Import PrimFloat.
Import VideoThumbnailDetector Spec RoundedSpec ScoringFacts Samples.
Set Warnings "-inexact-float".

Lemma rounded_sum_witness :
  In (Binary64.confidence (doubles twitterCandidate)) Binary64.baseConfidences /\
  RoundedSum (doubles twitterCandidate)
             (Binary64.calculateFinalConfidence (doubles twitterCandidate)) /\
  (Binary64.calculateFinalConfidence (doubles twitterCandidate) <=? 1)%float = true /\
  (Binary64.confidence (doubles twitterCandidate)
   <=? Binary64.calculateFinalConfidence (doubles twitterCandidate))%float = true.
Proof.
  assert (H : In (Binary64.confidence (doubles twitterCandidate))
                 Binary64.baseConfidences).
  { right. right. left. vm_compute. reflexivity. }
  split; [exact H|].
  exact (final_confidence_is_rounded_sum (doubles twitterCandidate) H).
Defined.

(** C5, as stated, fails.  A [twitter:image] of 1000x600 passes
    validation; the sum of the claim is 0.7 + 0.1 = 0.8, but the code
    adds doubles and returns 0.7999999999999999, which is below 0.8.
    An [og:image] of 1280x800 passes validation with the aspect ratio
    1.6, which is within 0.1 of 3:2, so that the sum of the claim is
    0.8 + 0.1 + 0.1 = 1; but on doubles the distance is
    0.10000000000000009, the bonus is not given, and the code returns
    0.9000000000000001. *)
Lemma decimal_sum_is_not_computed :
  (isValidThumbnail twitterCandidate = true /\
   scoreSpec (confidence twitterCandidate) twitterCandidate == 0.8 /\
   (Binary64.calculateFinalConfidence (doubles twitterCandidate) <? 0.8)%float = true /\
   exists q,
     Binary64.exact (Binary64.calculateFinalConfidence (doubles twitterCandidate))
     = Some q /\ q < 0.8)
  /\
  (isValidThumbnail wideCandidate = true /\
   scoreSpec (confidence wideCandidate) wideCandidate == 1 /\
   Binary64.calculateFinalConfidence (doubles wideCandidate) = (0.8 + 0.1)%float /\
   exists q,
     Binary64.exact (Binary64.calculateFinalConfidence (doubles wideCandidate))
     = Some q /\ q < 0.91).
Proof.
  split; (split; [vm_compute; reflexivity|]);
    (split; [vm_compute; reflexivity|]);
    (split; [vm_compute; reflexivity|]);
    eexists; (split; [vm_compute; reflexivity|]); vm_compute; reflexivity.
Qed.

(** The sums that differ from the decimal ones, and the two sizes
    whose aspect ratio is at distance 0.1 of a preferred one on paper
    and further away on doubles. *)
Example rounding_of_the_chain :
  (0.7 + 0.1 <? 0.8)%float = true /\
  (0.6 + 0.1 + 0.1 <? 0.8)%float = true /\
  Binary64.near 0.1 (Binary64.ofZ 1280 / Binary64.ofZ 800) = false /\
  Binary64.near 0.1 (Binary64.ofZ 900 / Binary64.ofZ 400) = false /\
  Binary64.near 0.1 (Binary64.ofZ 1280 / Binary64.ofZ 720) = true.
Proof. repeat split; vm_compute; reflexivity. Qed.

Set Warnings "+inexact-float".
End ScoringExamples.

(** ** The banner loop *)

Module BannerFacts.
Import BannerHandler BannerSpec.

Section Frames.
Context {W Elem : Type} {B : Browser W Elem}.

Lemma Emits_sleep (P : Event -> Prop) ms :
  P (EvSleep ms) -> Emits P (sleep (W := W) ms).
Proof.
  intros H. unfold sleep. apply Emits_bind; [apply Emits_lift|intros _].
  now apply Emits_emit.
Qed.

Lemma Total_sleep ms : Total (sleep (W := W) ms).
Proof. intros s. unfold sleep, bind, lift, emit. simpl. eauto. Qed.

Lemma Emits_trySelector p selector : Emits Inner (trySelector p selector).
Proof.
  unfold trySelector, locate. emits; try (apply Emits_sleep; exact I).
Qed.

Lemma Total_trySelector p selector : Total (trySelector p selector).
Proof. unfold trySelector. apply Total_try_catch. intros e. apply Total_ret. Qed.

Lemma Emits_trySelectors p l : Emits Inner (trySelectors p l).
Proof.
  induction l as [|selector l IH]; simpl; [apply Emits_ret|].
  apply Emits_bind; [apply Emits_trySelector|]. intros [|]; [apply Emits_ret|exact IH].
Qed.

Lemma Total_trySelectors p l : Total (trySelectors p l).
Proof.
  induction l as [|selector l IH]; simpl; [apply Total_ret|].
  apply Total_bind; [apply Total_trySelector|]. intros [|]; [apply Total_ret|exact IH].
Qed.

(** Applying a pattern always returns, leaving only inner events. *)
Lemma handleBannerPattern_returns p (s : State W) :
  exists done s' inner,
    handleBannerPattern p s = (Ok done, s') /\
    log s' = log s ++ inner /\ Forall Inner inner.
Proof.
  unfold handleBannerPattern.
  destruct (Total_trySelectors p (selectors p) s) as (done & s' & E).
  destruct (Emits_trySelectors p (selectors p) s) as (inner & Hlog & Hin).
  rewrite E in Hlog. simpl in Hlog. eauto 6.
Qed.

End Frames.


Section Loop.
Context {W Elem : Type} {B : Browser W Elem}.

(** One pass always returns, and its log is a [PassLog]. *)
Lemma scanPatterns_spec ps maxTime : forall s : State W,
  exists found s' evs,
    scanPatterns ps maxTime s = (Ok found, s') /\
    log s' = log s ++ evs /\ PassLog ps evs found.
Proof.
  induction ps as [|p ps IH]; intros s.
  - exists false, s, []. simpl. rewrite app_nil_r. repeat split. constructor.
  - cbn [scanPatterns]. unfold bind at 1. unfold now at 1.
    destruct (maxTime <=? Date_now (world s))%Z.
    { exists false, s, []. simpl. rewrite app_nil_r. repeat split. constructor. }
    set (s1 := mkState (world s) (log s ++ [EvTry (name p)])).
    destruct (handleBannerPattern_returns p s1) as (done & s2 & inner & E & Hlog & Hin).
    assert (Hlog2 : log s2 = log s ++ EvTry (name p) :: inner).
    { rewrite Hlog. unfold s1. simpl. now rewrite <- app_assoc. }
    unfold bind at 1, try_catch, bind at 1, emit at 1. fold s1.
    unfold bind at 1. rewrite E.
    destruct done.
    + exists true. unfold bind at 1, emit at 1.
      assert (Hw : exists s3,
                 (match waitAfter p with
                  | Some ms => if truthyZ (Some ms) then sleep ms else ret tt
                  | None => ret tt
                  end) (mkState (world s2) (log s2 ++ [EvHandled (name p)]))
                 = (Ok tt, s3) /\
                 log s3 = log s2 ++ EvHandled (name p) :: waitEvents p).
      { unfold waitEvents. destruct (waitAfter p) as [ms|].
        - destruct (truthyZ (Some ms)).
          + eexists. split; [reflexivity|]. simpl. now rewrite <- app_assoc.
          + eexists. split; [reflexivity|]. reflexivity.
        - eexists. split; [reflexivity|]. reflexivity. }
      destruct Hw as (s3 & Ew & Hlog3).
      unfold bind at 1. rewrite Ew. cbn [ret].
      exists s3, (EvTry (name p) :: inner ++ EvHandled (name p) :: waitEvents p).
      repeat split.
      * rewrite Hlog3, Hlog2. rewrite <- app_assoc. reflexivity.
      * now constructor.
    + cbn [ret]. destruct (IH s2) as (found & s3 & evs & E3 & Hlog3 & Hpass).
      rewrite E3. exists found, s3, (EvTry (name p) :: inner ++ evs).
      repeat split.
      * rewrite Hlog3, Hlog2. rewrite <- app_assoc. reflexivity.
      * now constructor.
Qed.

(** The loop returns before its bound, its log is a [LoopLog], and
    its counters tell why it stopped. *)
Lemma bannerLoop_spec ps maxTime :
  forall fuel attempts0 handled0 (s : State W),
    (maxAttempts - attempts0 < fuel)%nat ->
    exists summary s' evs,
      bannerLoop fuel ps maxTime attempts0 handled0 s = (Ok (Some summary), s') /\
      log s' = log s ++ evs /\
      LoopLog ps maxTime attempts0 evs /\
      (attempts0 <= attempts summary <= Nat.max attempts0 maxAttempts)%nat /\
      (((attempts summary + handled0 = bannersHandled summary + attempts0)%nat /\
        ((maxTime <= Date_now (world s'))%Z \/ (maxAttempts <= attempts summary)%nat))
       \/ (attempts summary + handled0 = S (bannersHandled summary + attempts0))%nat).
Proof.
  induction fuel as [|fuel IH]; intros attempts0 handled0 s Hfuel; [lia|].
  cbn [bannerLoop]. unfold bind at 1. unfold now at 1.
  destruct ((Date_now (world s) <? maxTime)%Z && (attempts0 <? maxAttempts)%nat) eqn:Hc.
  - apply andb_true_iff in Hc. destruct Hc as [Ht Ha].
    apply Z.ltb_lt in Ht. apply Nat.ltb_lt in Ha.
    unfold bind at 1, emit at 1.
    set (s1 := mkState (world s) (log s ++ [EvPass (S attempts0) (Date_now (world s))])).
    destruct (scanPatterns_spec ps maxTime s1) as (found & s2 & evs & E & Hlog & Hpass).
    assert (Hlog2 : log s2 = log s ++ EvPass (S attempts0) (Date_now (world s)) :: evs).
    { rewrite Hlog. unfold s1. simpl. now rewrite <- app_assoc. }
    unfold bind at 1. rewrite E. destruct found; cbn [negb].
    + destruct (Total_sleep 500 s2) as ([] & s3 & Es).
      assert (Hlog3 : log s3 = log s2 ++ [EvSleep 500]).
      { destruct (Emits_sleep (fun e => e = EvSleep 500) 500 eq_refl s2)
          as (l & Hl & Hall).
        rewrite Es in Hl. simpl in Hl. unfold sleep, bind, lift, emit in Es.
        simpl in Es. injection Es as <-. reflexivity. }
      unfold bind at 1. rewrite Es.
      destruct (IH (S attempts0) (S handled0) s3) as
        (summary & s' & rest & E' & Hlog' & Hloop & Hrange & Hwhy); [lia|].
      exists summary, s',
        (EvPass (S attempts0) (Date_now (world s)) :: evs ++ EvSleep 500 :: rest).
      split; [exact E'|]. split.
      { rewrite Hlog', Hlog3, Hlog2. rewrite <- !app_assoc. reflexivity. }
      split; [now apply LoopNext|]. split; [lia|].
      destruct Hwhy as [[Hsum Hcause]|Hsum]; [left|right]; [split|]; [lia|exact Hcause|lia].
    + cbn [ret]. exists (mkSummary (S attempts0) handled0), s2,
        (EvPass (S attempts0) (Date_now (world s)) :: evs).
      split; [reflexivity|]. split; [exact Hlog2|].
      split; [now apply LoopLast|]. simpl. split; [lia|]. right. lia.
  - cbn [ret]. exists (mkSummary attempts0 handled0), s, [].
    split; [reflexivity|]. split; [now rewrite app_nil_r|].
    split; [constructor|]. simpl. split; [lia|]. left. split; [lia|].
    apply andb_false_iff in Hc. destruct Hc as [Hc|Hc].
    + left. now apply Z.ltb_ge in Hc.
    + right. now apply Nat.ltb_ge in Hc.
Qed.

Lemma sleep_run ms (s : State W) :
  sleep ms s = (Ok tt, mkState (setTimeout ms (world s)) (log s ++ [EvSleep ms])).
Proof. reflexivity. Qed.

(** [handleBanners]: settle delay, loop, settle delay. *)
Lemma handleBannersWith_spec ps timeout (s : State W) :
  let maxTime := (Date_now (world s) + timeout)%Z in
  exists summary sx evs,
    bannerLoop (S maxAttempts) ps maxTime 0 0
               (mkState (setTimeout 800 (world s)) (log s ++ [EvSleep 800]))
    = (Ok (Some summary), sx) /\
    handleBannersWith ps timeout s
    = (Ok (Some summary),
       mkState (setTimeout 500 (world sx)) (log sx ++ [EvSleep 500])) /\
    log sx = log s ++ EvSleep 800 :: evs /\
    LoopLog ps maxTime 0 evs /\
    (attempts summary <= maxAttempts)%nat /\
    (((attempts summary = bannersHandled summary)%nat /\
      ((maxTime <= Date_now (world sx))%Z \/ (attempts summary = maxAttempts)%nat))
     \/ (attempts summary = S (bannersHandled summary))%nat).
Proof.
  intros maxTime.
  destruct (bannerLoop_spec ps maxTime (S maxAttempts) 0 0
              (mkState (setTimeout 800 (world s)) (log s ++ [EvSleep 800])))
    as (summary & sx & evs & E & Hlog & Hloop & Hrange & Hwhy); [lia|].
  exists summary, sx, evs. split; [exact E|]. split.
  - unfold handleBannersWith. unfold bind at 1. unfold now at 1.
    unfold try_catch. unfold bind at 1. rewrite sleep_run.
    unfold bind at 1. fold maxTime. rewrite E.
    unfold bind at 1. rewrite sleep_run. reflexivity.
  - split; [rewrite Hlog; simpl; now rewrite <- app_assoc|].
    split; [exact Hloop|]. split; [lia|].
    destruct Hwhy as [[Hsum Hcause]|Hsum]; [left|right]; [split|]; lia.
Qed.

End Loop.


(** *** Consequences of the log shapes *)

Lemma Inner_not_pass inner n t : Forall Inner inner -> ~ In (EvPass n t) inner.
Proof.
  intros H Hin. rewrite Forall_forall in H. apply (H _ Hin).
Qed.

Lemma waitEvents_Inner p : Forall Inner (waitEvents p).
Proof.
  unfold waitEvents. destruct (waitAfter p) as [ms|]; [|constructor].
  destruct (truthyZ (Some ms)); repeat constructor.
Qed.

Lemma PassLog_not_pass ps evs found n t :
  PassLog ps evs found -> ~ In (EvPass n t) evs.
Proof.
  induction 1 as [ps|p ps inner evs found Hin Hp IH|p ps inner Hin]; simpl.
  - tauto.
  - intros [H|H]; [discriminate|]. apply in_app_or in H.
    destruct H as [H|H]; [now apply (Inner_not_pass inner n t)|now apply IH].
  - intros [H|H]; [discriminate|]. apply in_app_or in H.
    destruct H as [H|[H|H]]; [now apply (Inner_not_pass inner n t)|discriminate|].
    now apply (Inner_not_pass _ n t (waitEvents_Inner p)).
Qed.

Lemma LoopLog_passes ps maxTime n evs :
  LoopLog ps maxTime n evs ->
  forall k t, In (EvPass k t) evs ->
              (t < maxTime)%Z /\ (n < k <= maxAttempts)%nat.
Proof.
  induction 1 as [n|n t evs Ht Hn Hp|n t evs rest Ht Hn Hp Hl IH]; intros k u Hin.
  - contradiction.
  - destruct Hin as [Hin|Hin].
    + injection Hin as <- <-. lia.
    + exfalso. now apply (PassLog_not_pass _ _ _ k u Hp).
  - destruct Hin as [Hin|Hin].
    + injection Hin as <- <-. lia.
    + apply in_app_or in Hin. destruct Hin as [Hin|[Hin|Hin]].
      * exfalso. now apply (PassLog_not_pass _ _ _ k u Hp).
      * discriminate.
      * destruct (IH k u Hin). lia.
Qed.

Lemma tried_app l1 l2 : tried (l1 ++ l2) = tried l1 ++ tried l2.
Proof. unfold tried. now rewrite flat_map_app. Qed.

Lemma handled_app l1 l2 : handled (l1 ++ l2) = handled l1 ++ handled l2.
Proof. unfold handled. now rewrite flat_map_app. Qed.

Lemma Inner_silent inner : Forall Inner inner -> tried inner = [] /\ handled inner = [].
Proof.
  induction 1 as [|e l He Hl [IH1 IH2]]; [now split|].
  destruct e; try contradiction; simpl; now split.
Qed.

(** In a pass the patterns tried are the first [k] of the catalog, in
    order; a success is the last of them and the only one. *)
Lemma PassLog_prefix ps evs found :
  PassLog ps evs found ->
  exists k,
    tried evs = map name (firstn k ps) /\
    if found
    then exists before p, firstn k ps = before ++ [p] /\ handled evs = [name p]
    else handled evs = [].
Proof.
  induction 1 as [ps|p ps inner evs found Hin Hp (k & IH1 & IH2)|p ps inner Hin].
  - exists 0%nat. split; reflexivity.
  - exists (S k). destruct (Inner_silent inner Hin) as [E1 E2].
    change (EvTry (name p) :: inner ++ evs) with ([EvTry (name p)] ++ inner ++ evs).
    rewrite !tried_app, !handled_app, E1, E2, IH1. simpl.
    split; [reflexivity|]. destruct found; [|exact IH2].
    destruct IH2 as (before & q & Hk & Hh). exists (p :: before), q.
    rewrite Hk. split; [reflexivity|exact Hh].
  - exists 1%nat. destruct (Inner_silent inner Hin) as [E1 E2].
    destruct (Inner_silent _ (waitEvents_Inner p)) as [E3 E4].
    change (EvTry (name p) :: inner ++ EvHandled (name p) :: waitEvents p)
      with ([EvTry (name p)] ++ inner ++ [EvHandled (name p)] ++ waitEvents p).
    rewrite !tried_app, !handled_app, E1, E2, E3, E4. simpl.
    split; [reflexivity|]. exists [], p. split; reflexivity.
Qed.

(** *** Pages without any match *)

Section Quiet.
Context {W Elem : Type} {B : Browser W Elem}.
Variable P : W -> Prop.
Hypothesis quiet : NoMatch B P.

Lemma trySelector_quiet p selector (s : State W) :
  P (world s) ->
  exists s', trySelector p selector s = (Ok false, s') /\
             P (world s') /\ log s' = log s.
Proof.
  intros Hs. unfold trySelector, locate, try_catch, bind at 1.
  destruct (includes selector ":contains(").
  - destruct (matchContains selector) as [[[baseSelector text] suffix]|].
    + unfold lift.
      destruct (nm_contains B P quiet baseSelector text suffix (world s) Hs) as [HP Hno].
      destruct (page_queryContains baseSelector text suffix (world s))
        as [[[el|]|e] w']; simpl in *.
      * exfalso. now apply (Hno el).
      * eexists. split; [reflexivity|]. simpl. auto.
      * eexists. split; [reflexivity|]. simpl. auto.
    + eexists. split; [reflexivity|]. simpl. auto.
  - unfold lift.
    destruct (nm_query B P quiet selector (world s) Hs) as [HP Hno].
    destruct (page_query selector (world s)) as [[[el|]|e] w']; simpl in *.
    + exfalso. now apply (Hno el).
    + eexists. split; [reflexivity|]. simpl. auto.
    + eexists. split; [reflexivity|]. simpl. auto.
Qed.

Lemma trySelectors_quiet p l : forall s : State W,
  P (world s) ->
  exists s', trySelectors p l s = (Ok false, s') /\
             P (world s') /\ log s' = log s.
Proof.
  induction l as [|selector l IH]; intros s Hs; simpl.
  - exists s. repeat split. assumption.
  - destruct (trySelector_quiet p selector s Hs) as (s1 & E & H1 & L1).
    unfold bind. rewrite E. destruct (IH s1 H1) as (s2 & E2 & H2 & L2).
    exists s2. repeat split; congruence.
Qed.

Lemma scanPatterns_quiet ps maxTime : forall s : State W,
  P (world s) ->
  exists s', scanPatterns ps maxTime s = (Ok false, s') /\ P (world s').
Proof.
  induction ps as [|p ps IH]; intros s Hs.
  - exists s. now split.
  - cbn [scanPatterns]. unfold bind at 1. unfold now at 1.
    destruct (maxTime <=? Date_now (world s))%Z; [exists s; now split|].
    set (s1 := mkState (world s) (log s ++ [EvTry (name p)])).
    destruct (trySelectors_quiet p (selectors p) s1 Hs) as (s2 & E & H2 & _).
    unfold bind at 1, try_catch, bind at 1, emit at 1. fold s1.
    unfold bind at 1, handleBannerPattern. rewrite E. cbn [ret].
    now apply IH.
Qed.

Lemma bannerLoop_quiet ps maxTime fuel (s : State W) :
  P (world s) ->
  exists s',
    bannerLoop (S fuel) ps maxTime 0 0 s
    = (Ok (Some (mkSummary
                   (if (Date_now (world s) <? maxTime)%Z then 1 else 0) 0)), s').
Proof.
  intros Hs. cbn [bannerLoop]. unfold bind at 1. unfold now at 1.
  change (0 <? maxAttempts)%nat with true. rewrite andb_true_r.
  destruct (Date_now (world s) <? maxTime)%Z.
  - unfold bind at 1, emit at 1.
    destruct (scanPatterns_quiet ps maxTime
                (mkState (world s) (log s ++ [EvPass 1 (Date_now (world s))])) Hs)
      as (s2 & E & _).
    unfold bind at 1. rewrite E. eexists. reflexivity.
  - eexists. reflexivity.
Qed.

End Quiet.

End BannerFacts.

Module BannerTheorems.
Import BannerHandler BannerSpec BannerFacts.

Section Claims.
Context {W Elem : Type} {B : Browser W Elem}.

(** C7.  [handleBanners] always returns; it makes at most 5 passes;
    it stops because the last pass matched nothing, or else with
    every pass successful and the budget spent or the cap of 5
    reached; each pass starts within the budget and below the cap.
    On pages without any match no banner is handled and there is one
    pass exactly when the budget outlasts the settle delay, none
    otherwise. *)
Theorem banner_loop_terminates (ps : list BannerPattern) (timeout : Z) (s : State W) :
  let maxTime := (Date_now (world s) + timeout)%Z in
  exists summary s' evs wx,
    handleBannersWith ps timeout s = (Ok (Some summary), s') /\
    log s' = log s ++ evs /\
    world s' = setTimeout 500 wx /\
    (attempts summary <= 5)%nat /\
    (attempts summary = S (bannersHandled summary) \/
     attempts summary = bannersHandled summary /\
     ((maxTime <= Date_now wx)%Z \/ attempts summary = 5%nat)) /\
    (forall n t, In (EvPass n t) evs -> (t < maxTime)%Z /\ (1 <= n <= 5)%nat) /\
    (forall P : W -> Prop,
        NoMatch B P -> P (world s) ->
        bannersHandled summary = 0%nat /\
        attempts summary =
          if (Date_now (setTimeout 800 (world s)) <? maxTime)%Z then 1%nat else 0%nat).
Proof.
  intros maxTime.
  destruct (handleBannersWith_spec ps timeout s)
    as (summary & sx & evs & Eloop & E & Hlog & Hloop & Hcap & Hwhy).
  fold maxTime in Eloop, Hloop, Hwhy.
  exists summary, (mkState (setTimeout 500 (world sx)) (log sx ++ [EvSleep 500])),
    (EvSleep 800 :: evs ++ [EvSleep 500]), (world sx).
  split; [exact E|]. split.
  { simpl. rewrite Hlog. rewrite <- app_assoc. reflexivity. }
  split; [reflexivity|]. split; [exact Hcap|]. split.
  { destruct Hwhy as [[H1 H2]|H]; [right|left]; [split|]; assumption. }
  split.
  - intros n t [Hin|Hin]; [discriminate|].
    apply in_app_or in Hin. destruct Hin as [Hin|[Hin|[]]]; [|discriminate].
    destruct (LoopLog_passes _ _ _ _ Hloop n t Hin) as [Ht Hn].
    unfold maxAttempts in Hn. split; [exact Ht|lia].
  - intros P quiet Hs.
    destruct (bannerLoop_quiet P quiet ps maxTime maxAttempts
                (mkState (setTimeout 800 (world s)) (log s ++ [EvSleep 800])))
      as (s2 & E2).
    { simpl. now apply (nm_wait B P quiet). }
    rewrite E2 in Eloop. injection Eloop as <- _. simpl. now split.
Qed.

(** C8.  The log of [handleBanners] is that of the loop described in
    [LoopLog]: in each pass the patterns are tried from the top of
    the catalog; the first success ends the pass, followed only by
    its [waitAfter] delay when that is set, and by the 500 ms pause
    before the next pass starts again at the top.  In every pass the
    patterns tried are the first [k] of the catalog, and the only
    pattern handled, if any, is the last one tried. *)
Theorem at_most_one_application_per_pass (ps : list BannerPattern) :
  (forall timeout (s : State W),
      exists r s' evs,
        handleBannersWith ps timeout s = (r, s') /\
        log s' = log s ++ EvSleep 800 :: evs ++ [EvSleep 500] /\
        LoopLog ps (Date_now (world s) + timeout) 0 evs)
  /\
  (forall maxTime (s : State W),
      exists found s' evs k,
        scanPatterns ps maxTime s = (Ok found, s') /\
        log s' = log s ++ evs /\
        PassLog ps evs found /\
        tried evs = map name (firstn k ps) /\
        if found
        then exists before p, firstn k ps = before ++ [p] /\ handled evs = [name p]
        else handled evs = []).
Proof.
  split.
  - intros timeout s.
    destruct (handleBannersWith_spec ps timeout s)
      as (summary & sx & evs & _ & E & Hlog & Hloop & _).
    exists (Ok (Some summary)),
      (mkState (setTimeout 500 (world sx)) (log sx ++ [EvSleep 500])), evs.
    split; [exact E|]. split; [|exact Hloop].
    simpl. rewrite Hlog. rewrite <- app_assoc. reflexivity.
  - intros maxTime s.
    destruct (scanPatterns_spec ps maxTime s) as (found & s' & evs & E & Hlog & Hpass).
    destruct (PassLog_prefix _ _ _ Hpass) as (k & Htried & Hhandled).
    exists found, s', evs, k. repeat split; assumption.
Qed.

End Claims.

(** *** The order of the catalog *)

Lemma catalog_names : map name COMMON_BANNER_PATTERNS = catalogNames.
Proof. reflexivity. Qed.

Lemma catalog_categories :
  map categoryOf catalogNames =
  [AgeVerification; CookieConsent; CookieConsent; CookieConsent;
   AgeVerification; CookieConsent; Generic; Generic; Generic].
Proof. reflexivity. Qed.

Lemma Precedes_firstn a b k names :
  Precedes a b names -> Precedes a b (firstn k names).
Proof.
  intros H i j x y Hi Hj. rewrite nth_error_firstn in Hi, Hj.
  destruct (i <? k)%nat; [|discriminate].
  destruct (j <? k)%nat; [|discriminate].
  now apply H.
Qed.

Lemma indexesOf_complete c names : forall base i x,
  nth_error names i = Some x -> categoryOf x = c ->
  In (base + i)%nat (indexesOf c names base).
Proof.
  induction names as [|y names IH]; intros base i x Hi Hc.
  - destruct i; discriminate.
  - destruct i as [|i]; simpl in Hi.
    + injection Hi as ->. simpl. rewrite Hc, Nat.add_0_r.
      destruct c; now left.
    + replace (base + S i)%nat with (S base + i)%nat by lia. simpl.
      specialize (IH (S base) i x Hi Hc).
      destruct (categoryOf y), c; simpl; auto.
Qed.

Lemma cookies_before_generic : Precedes CookieConsent Generic catalogNames.
Proof.
  intros i j x y Hi Hj Hx Hy.
  pose proof (indexesOf_complete _ _ 0%nat i x Hi Hx) as H1.
  pose proof (indexesOf_complete _ _ 0%nat j y Hj Hy) as H2.
  vm_compute in H1, H2.
  repeat (destruct H1 as [H1|H1]; [repeat (destruct H2 as [H2|H2]; [lia|]); contradiction|]).
  contradiction.
Qed.

(** C3.  In every pass the patterns are tried in the order of the
    catalog, from its top: the adult-site age verification, three
    cookie-consent patterns, the 18+ age verification, the YouTube
    cookie pattern, then modal, GDPR and newsletter.  Every
    cookie-consent pattern tried comes before every generic one; the
    pass opens with an age-verification pattern. *)
Theorem catalog_scanned_in_order
        {W Elem : Type} {B : Browser W Elem} (maxTime : Z) (s : State W) :
  exists found s' evs k,
    scanPatterns COMMON_BANNER_PATTERNS maxTime s = (Ok found, s') /\
    log s' = log s ++ evs /\
    tried evs = firstn k catalogNames /\
    catalogNames =
      ["Adult Site Age Verification"; "Cookie Accept All"; "German Cookie Accept";
       "Cookie OK/Agree"; "Age Verification - 18+"; "YouTube Cookie Accept";
       "Modal Close"; "GDPR Accept"; "Newsletter Close"]%string /\
    Precedes CookieConsent Generic (tried evs) /\
    option_map categoryOf (hd_error (tried evs))
    = (if (0 <? k)%nat then Some AgeVerification else None).
Proof.
  destruct (scanPatterns_spec COMMON_BANNER_PATTERNS maxTime s)
    as (found & s' & evs & E & Hlog & Hpass).
  destruct (PassLog_prefix _ _ _ Hpass) as (k & Htried & _).
  rewrite <- firstn_map, catalog_names in Htried.
  exists found, s', evs, k. split; [exact E|]. split; [exact Hlog|].
  split; [exact Htried|]. split; [reflexivity|]. split.
  - rewrite Htried. apply Precedes_firstn, cookies_before_generic.
  - rewrite Htried. destruct k; reflexivity.
Qed.

End BannerTheorems.

Module BannerExamples.
Import BannerHandler BannerSpec BannerFacts BannerTheorems.

Lemma toy_quiet : NoMatch Toy.browser (fun w => Toy.visible w = []).
Proof.
  constructor.
  - intros ms w H. exact H.
  - intros selector w H. simpl. split; [exact H|].
    intros el. unfold Toy.resolves. rewrite H. discriminate.
  - intros baseSelector text suffix w H. simpl. split; [exact H|].
    intros el. unfold Toy.resolves. rewrite H. discriminate.
Qed.

(** On a page without banners and with the default budget the loop
    makes one pass and handles nothing. *)
Lemma banner_loop_witness :
  NoMatch Toy.browser (fun w => Toy.visible w = []) /\
  Toy.visible (world (start Toy.plain)) = [] /\
  exists summary s',
    handleBannersWith (B := Toy.browser) COMMON_BANNER_PATTERNS 5000 (start Toy.plain)
    = (Ok (Some summary), s') /\
    bannersHandled summary = 0%nat /\ attempts summary = 1%nat.
Proof.
  split; [exact toy_quiet|]. split; [reflexivity|].
  destruct (banner_loop_terminates (B := Toy.browser)
              COMMON_BANNER_PATTERNS 5000 (start Toy.plain))
    as (summary & s' & evs & wx & E & _ & _ & _ & _ & _ & Hquiet).
  exists summary, s'. split; [exact E|].
  exact (Hquiet (fun w => Toy.visible w = []) toy_quiet eq_refl).
Defined.

(** C7, as stated, fails: with a budget of 500 ms, spent during the
    800 ms settle delay, a page without any match sees no pass. *)
Lemma no_pass_when_budget_is_spent :
  Toy.visible Toy.plain = [] /\
  exists summary,
    fst (handleBanners (B := Toy.browser) 500 (start Toy.plain)) = Ok (Some summary) /\
    attempts summary = 0%nat /\ attempts summary <> 1%nat.
Proof.
  split; [reflexivity|]. eexists. split; [vm_compute; reflexivity|].
  split; [reflexivity|discriminate].
Qed.

(** C3, as stated, fails: a full pass tries three cookie-consent
    patterns before the 18+ age verification. *)
Lemma age_pattern_after_cookie_patterns :
  tried (log (snd (handleBanners (B := Toy.browser) 5000 (start Toy.plain))))
  = catalogNames /\
  ~ Precedes AgeVerification CookieConsent
      (tried (log (snd (handleBanners (B := Toy.browser) 5000 (start Toy.plain))))).
Proof.
  assert (E : tried (log (snd (handleBanners (B := Toy.browser) 5000 (start Toy.plain))))
              = catalogNames) by (vm_compute; reflexivity).
  split; [exact E|]. rewrite E. intros H.
  specialize (H 4%nat 1%nat "Age Verification - 18+"%string "Cookie Accept All"%string
                eq_refl eq_refl eq_refl eq_refl).
  lia.
Qed.

(** A cookie button is clicked in the first pass; the second pass
    starts again at the top and finds nothing. *)
Example cookie_button_run :
  log (snd (handleBanners (B := Toy.browser) 5000 (start Toy.withCookieButton)))
  = [EvSleep 800; EvPass 1 800;
     EvTry "Adult Site Age Verification"; EvTry "Cookie Accept All";
     EvSleep 200; EvClick "#cookie-accept"; EvHandled "Cookie Accept All";
     EvSleep 1000; EvSleep 500; EvPass 2 2500]
    ++ map EvTry catalogNames ++ [EvSleep 500].
Proof. vm_compute. reflexivity. Qed.

End BannerExamples.

(** ** The orchestrator *)

Module CaptureFacts.
Import VideoThumbnailDetector BannerHandler BrowserManager CaptureSpec BannerSpec BannerFacts.

Section Frames.
Context {W Elem : Type} {B : Browser W Elem}.

Lemma Emits_silent {A} (m : M W A) :
  Emits (fun _ => False) m -> forall s, log (snd (m s)) = log s.
Proof.
  intros H s. destruct (H s) as (evs & E & F).
  destruct evs as [|e evs]; [now rewrite app_nil_r in E|].
  inversion F; contradiction.
Qed.

Lemma Emits_evaluate {A} P (script : Dom -> A) : Emits P (evaluate (W := W) script).
Proof. unfold evaluate. emits. Qed.

Lemma Emits_validateCandidate P c : Emits P (validateCandidate (W := W) c).
Proof.
  unfold validateCandidate.
  apply Emits_try_catch; [|intros ?; apply Emits_ret].
  apply Emits_bind; [apply Emits_evaluate|intros absoluteUrl].
  apply Emits_bind.
  - apply Emits_if; [|apply Emits_ret].
    apply Emits_bind; [apply Emits_evaluate|intros ?; apply Emits_ret].
  - intros v. apply Emits_if; apply Emits_ret.
Qed.

Lemma Emits_validateAndScoreCandidates P l :
  Emits P (validateAndScoreCandidates (W := W) l).
Proof.
  induction l as [|c l IH]; simpl; [apply Emits_ret|].
  apply Emits_bind; [apply Emits_validateCandidate|intros r].
  apply Emits_bind; [exact IH|intros ?; apply Emits_ret].
Qed.

Lemma Emits_detectVideoThumbnail P : Emits P (detectVideoThumbnail (W := W)).
Proof.
  unfold detectVideoThumbnail, extractIframeThumbnails, detectVideoPresence.
  apply Emits_try_catch; [|intros ?; apply Emits_ret].
  do 4 (apply Emits_bind; [apply Emits_evaluate|intros ?]).
  apply Emits_bind;
    [apply Emits_try_catch; [apply Emits_evaluate|intros ?; apply Emits_ret]|intros ?].
  apply Emits_bind; [apply Emits_evaluate|intros ?].
  apply Emits_bind; [apply Emits_validateAndScoreCandidates|intros ?].
  apply Emits_bind; [|intros ?; apply Emits_ret].
  apply Emits_if; [apply Emits_ret|apply Emits_evaluate].
Qed.

(** Detection never throws and leaves the log alone. *)
Lemma detectVideoThumbnail_runs (s : State W) :
  exists d s1, detectVideoThumbnail s = (Ok d, s1) /\ log s1 = log s.
Proof.
  assert (T : Total (detectVideoThumbnail (W := W))).
  { unfold detectVideoThumbnail. apply Total_try_catch. intros e. apply Total_ret. }
  destruct (T s) as (d & s1 & E). exists d, s1. split; [exact E|].
  pose proof (Emits_silent _ (Emits_detectVideoThumbnail _) s) as H.
  now rewrite E in H.
Qed.

Lemma Emits_now P : Emits P (now (W := W)).
Proof. intros s. exists []. simpl. now rewrite app_nil_r. Qed.

Lemma Emits_scanPatterns ps maxTime : Emits Bannerish (scanPatterns (W := W) ps maxTime).
Proof.
  induction ps as [|p ps IH]; simpl; [apply Emits_ret|].
  apply Emits_bind; [apply Emits_now|intros t].
  apply Emits_if; [apply Emits_ret|].
  apply Emits_bind; [|intros found; apply Emits_if; [apply Emits_ret|exact IH]].
  apply Emits_try_catch; [|intros ?; apply Emits_ret].
  apply Emits_bind; [apply Emits_emit; reflexivity|intros _].
  apply Emits_bind.
  - apply (Emits_weaken Inner); [|apply Emits_trySelectors].
    intros [] H; try contradiction; reflexivity.
  - intros handled. apply Emits_if; [|apply Emits_ret].
    apply Emits_bind; [apply Emits_emit; reflexivity|intros _].
    apply Emits_bind; [|intros ?; apply Emits_ret].
    destruct (waitAfter p) as [ms|]; [|apply Emits_ret].
    apply Emits_if; [apply Emits_sleep; reflexivity|apply Emits_ret].
Qed.

Lemma Emits_bannerLoop ps maxTime fuel : forall a h,
  Emits Bannerish (bannerLoop (W := W) fuel ps maxTime a h).
Proof.
  induction fuel as [|fuel IH]; intros a h; simpl; [apply Emits_ret|].
  apply Emits_bind; [apply Emits_now|intros t].
  apply Emits_if; [|apply Emits_ret].
  apply Emits_bind; [apply Emits_emit; reflexivity|intros _].
  apply Emits_bind; [apply Emits_scanPatterns|intros found].
  apply Emits_if; [apply Emits_ret|].
  apply Emits_bind; [apply Emits_sleep; reflexivity|intros _]. apply IH.
Qed.

Lemma Emits_handleCustomBanners l : Emits Bannerish (handleCustomBanners (W := W) l).
Proof.
  induction l as [|selector l IH]; simpl; [apply Emits_ret|].
  apply Emits_bind; [|intros _; exact IH].
  unfold handleCustomBanner.
  apply Emits_try_catch; [|intros ?; apply Emits_ret].
  apply Emits_bind; [apply Emits_lift|intros [el|]]; [|apply Emits_ret].
  apply Emits_bind; [apply Emits_lift|intros visible].
  apply Emits_if; [|apply Emits_ret].
  apply Emits_bind; [apply Emits_lift|intros _].
  apply Emits_bind; [apply Emits_emit; reflexivity|intros _].
  apply Emits_sleep; reflexivity.
Qed.

Lemma Emits_dismissBanners options : Emits Bannerish (dismissBanners (W := W) options).
Proof.
  unfold dismissBanners. apply Emits_if; [|apply Emits_ret].
  apply Emits_try_catch; [|intros ?; apply Emits_ret].
  apply Emits_bind; [|intros _].
  { apply Emits_if; [|apply Emits_ret]. unfold injectBannerBlockingCSS.
    apply Emits_try_catch; [apply Emits_lift|intros ?; apply Emits_ret]. }
  apply Emits_bind; [|intros _].
  { unfold handleBanners, handleBannersWith.
    apply Emits_bind; [apply Emits_now|intros t].
    apply Emits_try_catch; [|intros ?; apply Emits_ret].
    apply Emits_bind; [apply Emits_sleep; reflexivity|intros _].
    apply Emits_bind; [apply Emits_bannerLoop|intros summary].
    apply Emits_bind; [apply Emits_sleep; reflexivity|intros _]. apply Emits_ret. }
  apply Emits_if; [apply Emits_handleCustomBanners|apply Emits_ret].
Qed.

Lemma Total_dismissBanners options : Total (dismissBanners (W := W) options).
Proof.
  unfold dismissBanners. apply Total_if; [|apply Total_ret].
  apply Total_try_catch. intros e. apply Total_ret.
Qed.

Lemma captures_app l1 l2 : captures (l1 ++ l2) = captures l1 ++ captures l2.
Proof. apply filter_app. Qed.

Lemma captures_Bannerish evs : Forall Bannerish evs -> captures evs = [].
Proof.
  induction 1 as [|e evs He Hall IH]; [reflexivity|].
  unfold captures in *. simpl. unfold Bannerish in He. now rewrite He.
Qed.

End Frames.


Section CapturePhase.
Context {W Elem : Type} {B : Browser W Elem}.

Lemma takeRegularScreenshot_log options (s : State W) :
  log (snd (takeRegularScreenshot options s)) = log s ++ [EvScreenshot].
Proof.
  unfold takeRegularScreenshot, bind, emit, lift. simpl.
  destruct (page_screenshot _ (world s)) as [r w']. reflexivity.
Qed.

Lemma detectVideoRegionAndCrop_runs (s : State W) :
  exists o s', detectVideoRegionAndCrop s = (Ok o, s') /\ log s' = log s ++ [EvCrop].
Proof.
  unfold detectVideoRegionAndCrop. unfold bind at 1, emit at 1.
  set (s1 := mkState (world s) (log s ++ [EvCrop])).
  match goal with |- context [try_catch ?m ?h s1] =>
    assert (T : Total (try_catch m h)) by (apply Total_try_catch; intros e; apply Total_ret);
    assert (S : Emits (W := W) (fun _ => False) (try_catch m h))
  end.
  { apply Emits_try_catch; [|intros ?; apply Emits_ret].
    apply Emits_bind; [apply Emits_evaluate|intros [region|]]; [|apply Emits_ret].
    apply Emits_if; [|apply Emits_ret].
    apply Emits_bind; [apply Emits_lift|intros ?; apply Emits_ret]. }
  destruct (T s1) as (o & s' & E). exists o, s'. split; [exact E|].
  pose proof (Emits_silent _ S s1) as H. rewrite E in H. exact H.
Qed.

Lemma cropOrRegular_spec options (s : State W) out s' :
  cropOrRegular options s = (out, s') ->
  exists rest,
    log s' = log s ++ EvCrop :: rest /\ OnlyScreenshots rest /\ IsCaptured out.
Proof.
  unfold cropOrRegular.
  destruct (detectVideoRegionAndCrop_runs s) as (o & s1 & E & Hlog).
  unfold bind at 1. rewrite E. destruct o as [img|].
  - intros H. injection H as <- <-. exists []. rewrite Hlog.
    repeat split; [constructor|]. intros exit H. injection H as <-. eauto.
  - pose proof (takeRegularScreenshot_log options s1) as Hr.
    unfold bind. destruct (takeRegularScreenshot options s1) as [[img|e] s2];
      simpl in Hr; intros H; injection H as <- <-; exists [EvScreenshot];
      rewrite Hr, Hlog, <- app_assoc; (repeat split; [repeat constructor|]);
      intros exit H; [injection H as <-; eauto|discriminate].
Qed.

Lemma fetchThumbnail_log u (s : State W) :
  log (snd (fetchThumbnail u s)) = log s ++ [EvFetch u].
Proof.
  unfold fetchThumbnail. unfold bind at 1, emit at 1.
  set (s1 := mkState (world s) (log s ++ [EvFetch u])).
  match goal with |- log (snd (?m s1)) = _ =>
    assert (S : Emits (W := W) (fun _ => False) m)
  end.
  { apply Emits_bind; [apply Emits_evaluate|intros [b|e]]; [apply Emits_ret|apply Emits_throw]. }
  exact (Emits_silent _ S s1).
Qed.

(** What the decision block does, whatever its outcome. *)
Lemma decide_spec options d (s : State W) out s' :
  decide options d s = (out, s') ->
  exists evs,
    log s' = log s ++ evs /\
    match thumbnail d with
    | Some t =>
        if shouldReturnUrlDirectly t then
          out = Ok (Returned (mkResult None (Some (url t)) true (Some d))) /\ evs = []
        else (exists rest, evs = EvFetch (url t) :: rest) /\ IsCaptured out
    | None =>
        IsCaptured out /\
        if hasVideo d then exists rest, evs = EvCrop :: rest /\ OnlyScreenshots rest
        else OnlyScreenshots evs
    end.
Proof.
  unfold decide. destruct (thumbnail d) as [t|].
  - destruct (shouldReturnUrlDirectly t).
    + intros H. injection H as <- <-. exists []. rewrite app_nil_r. repeat split.
    + pose proof (fetchThumbnail_log (url t) s) as Hf.
      unfold try_catch, bind at 1.
      destruct (fetchThumbnail (url t) s) as [[img|e] s1]; simpl in Hf.
      * intros H. injection H as <- <-. exists [EvFetch (url t)].
        split; [exact Hf|]. split; [eauto|].
        intros exit H. injection H as <-. eauto.
      * intros H. apply cropOrRegular_spec in H. destruct H as (rest & Hlog & _ & Hcap).
        exists (EvFetch (url t) :: EvCrop :: rest). split.
        { rewrite Hlog, Hf, <- app_assoc. reflexivity. }
        split; [eauto|exact Hcap].
  - destruct (hasVideo d).
    + intros H. apply cropOrRegular_spec in H. destruct H as (rest & Hlog & Hrest & Hcap).
      exists (EvCrop :: rest). split; [exact Hlog|]. split; [exact Hcap|]. eauto.
    + pose proof (takeRegularScreenshot_log options s) as Hr.
      unfold bind. destruct (takeRegularScreenshot options s) as [[img|e] s1];
        simpl in Hr; intros H; injection H as <- <-; exists [EvScreenshot];
        (split; [exact Hr|]); (split; [|repeat constructor]);
        intros exit H; [injection H as <-; eauto|discriminate].
Qed.

Lemma step_log {A} P (m : M W A) (s : State W) out s1 :
  Emits P m -> m s = (out, s1) ->
  exists evs, log s1 = log s ++ evs /\ Forall P evs.
Proof.
  intros H E. destruct (H s) as (evs & Hl & F). rewrite E in Hl. eauto.
Qed.

Lemma attempt_detect (s : State W) :
  exists d s1,
    attempt detectVideoThumbnail s = (Ok (Ok d), s1) /\ log s1 = log s.
Proof.
  destruct (detectVideoThumbnail_runs s) as (d & s1 & E & Hlog).
  exists d, s1. split; [|exact Hlog].
  unfold attempt, try_catch, bind. rewrite E. reflexivity.
Qed.

Lemma OnlyScreenshots_snoc evs : OnlyScreenshots evs -> OnlyScreenshots (evs ++ [EvScreenshot]).
Proof. intros H. apply Forall_app. split; [exact H|repeat constructor]. Qed.

(** What the capture phase did when it returns. *)
Lemma capture_spec options (s : State W) x s2 :
  capture options s = (Ok x, s2) ->
  exists evs,
    log s2 = log s ++ evs /\
    match snd x with
    | Returned res =>
        exists d t,
          fst x = Some d /\ thumbnail d = Some t /\
          shouldReturnUrlDirectly t = true /\
          res = mkResult None (Some (url t)) true (Some d) /\ evs = []
    | Captured img v =>
        match fst x with
        | None => OnlyScreenshots evs
        | Some d =>
            match thumbnail d with
            | Some t =>
                shouldReturnUrlDirectly t = false /\
                exists rest, evs = EvFetch (url t) :: rest
            | None =>
                if hasVideo d
                then exists rest, evs = EvCrop :: rest /\ OnlyScreenshots rest
                else OnlyScreenshots evs
            end
        end
    end.
Proof.
  unfold capture. destruct (detectVideoThumbnails options).
  - destruct (attempt_detect s) as (d & s1 & Ea & Hlog1).
    unfold bind at 1. rewrite Ea.
    destruct (decide options d s1) as [out s1'] eqn:Ed.
    pose proof (decide_spec options d s1 out s1' Ed) as (evs & Hlog & Hcase).
    rewrite Hlog1 in Hlog.
    unfold try_catch, bind at 1. rewrite Ed. destruct out as [exit|e].
    + intros H. injection H as <- <-. exists evs. split; [exact Hlog|]. simpl.
      destruct (thumbnail d) as [t|] eqn:Et.
      * destruct (shouldReturnUrlDirectly t) eqn:Edirect.
        -- destruct Hcase as [Hout ->]. injection Hout as ->.
           exists d, t. repeat split; assumption.
        -- destruct Hcase as [Hrest Hcap].
           destruct (Hcap exit eq_refl) as (img & v & ->).
           now split.
      * destruct Hcase as [Hcap Hv].
        destruct (Hcap exit eq_refl) as (img & v & ->). exact Hv.
    + pose proof (takeRegularScreenshot_log options s1') as Hr.
      unfold bind. destruct (takeRegularScreenshot options s1') as [[img|e'] s3];
        simpl in Hr; intros H; [|discriminate].
      injection H as <- <-. exists (evs ++ [EvScreenshot]). split.
      { rewrite Hr, Hlog, <- app_assoc. reflexivity. }
      simpl. destruct (thumbnail d) as [t|].
      * destruct (shouldReturnUrlDirectly t); [destruct Hcase; discriminate|].
        destruct Hcase as [[rest ->] _]. split; [reflexivity|]. simpl. eauto.
      * destruct Hcase as [_ Hv]. destruct (hasVideo d).
        -- destruct Hv as (rest & -> & Hrest). exists (rest ++ [EvScreenshot]).
           split; [reflexivity|now apply OnlyScreenshots_snoc].
        -- now apply OnlyScreenshots_snoc.
  - pose proof (takeRegularScreenshot_log options s) as Hr.
    unfold bind. destruct (takeRegularScreenshot options s) as [[img|e'] s3];
      simpl in Hr; intros H; [|discriminate].
    injection H as <- <-. exists [EvScreenshot]. split; [exact Hr|].
    simpl. repeat constructor.
Qed.

(** A returned screenshot went through the capture phase; before it
    only banner handling wrote to the log, after it nothing did. *)
Lemma take_inv url options (s : State W) r s' :
  takeIntelligentScreenshot url options s = (Ok r, s') ->
  exists s1 s2 x pre,
    capture options s1 = (Ok x, s2) /\ r = finish x /\
    log s1 = log s ++ pre /\ Forall Bannerish pre /\ log s' = log s2.
Proof.
  unfold takeIntelligentScreenshot. intros H.
  apply try_catch_cases in H. destruct H as [(a & H & Ha)|(e & s0 & _ & H)];
    [|discriminate].
  injection Ha as <-.
  apply bind_ok in H. destruct H as (u & s0 & Hnew & H).
  unfold finally in H.
  match type of H with (let (_, _) := ?body s0 in _) = _ =>
    destruct (body s0) as [res s2] eqn:Eb end.
  injection H as -> <-.
  apply bind_ok in Eb. destruct Eb as (u1 & sa & Hgoto & Eb).
  apply bind_ok in Eb. destruct Eb as (u2 & sb & Hsleep & Eb).
  apply bind_ok in Eb. destruct Eb as (u3 & sc & Hban & Eb).
  apply bind_ok in Eb. destruct Eb as (x & sd & Hcap & Eb).
  exists sc, sd, x.
  destruct (step_log Bannerish _ _ _ _ (Emits_lift _ _) Hnew) as (e0 & L0 & F0).
  destruct (step_log Bannerish _ _ _ _ (Emits_lift _ _) Hgoto) as (e1 & L1 & F1).
  destruct (step_log Bannerish _ _ _ _ (Emits_sleep Bannerish 1000 eq_refl) Hsleep)
    as (e2 & L2 & F2).
  destruct (step_log Bannerish _ _ _ _ (Emits_dismissBanners options) Hban)
    as (e3 & L3 & F3).
  exists (e0 ++ e1 ++ e2 ++ e3). split; [exact Hcap|]. split.
  { unfold finish. destruct (snd x); injection Eb as <- _; reflexivity. }
  split.
  { rewrite L3, L2, L1, L0. rewrite <- !app_assoc. reflexivity. }
  split.
  { repeat (apply Forall_app; split); assumption. }
  assert (sd = s2) as ->.
  { destruct (snd x); injection Eb as _ <-; reflexivity. }
  apply (Emits_silent (try_catch (lift page_close) (fun _ => ret tt))).
  apply Emits_try_catch; [apply Emits_lift|intros ?; apply Emits_ret].
Qed.

End CapturePhase.

End CaptureFacts.

Module CaptureTheorems.
Import VideoThumbnailDetector BrowserManager CaptureSpec CaptureFacts BannerFacts.

Section Claims.
Context {W Elem : Type} {B : Browser W Elem}.

Lemma no_capture_in_banner_log pre e :
  Forall Bannerish pre -> isCapture e = true -> ~ In e pre.
Proof.
  intros H He Hin. rewrite Forall_forall in H. specialize (H e Hin).
  unfold Bannerish in H. congruence.
Qed.

Lemma shouldReturnUrlDirectly_spelled t :
  shouldReturnUrlDirectly t = claimedDirect t || includes (url t) "thumbnail_url".
Proof.
  unfold shouldReturnUrlDirectly, claimedDirect.
  destruct (String.eqb (source t) "oEmbed"),
    (String.eqb (source t) "schema.org VideoObject"),
    (includes (url t) "thumbnail_url"), (includes (url t) "maxresdefault"),
    (includes (url t) "vimeocdn.com"), (includes (url t) "dailymotion.com"),
    (Qle_bool 0.8 (confidence t)); reflexivity.
Qed.

(** C4.  When a candidate is selected, its URL is returned directly,
    with no download and no capture, exactly when the test of the code
    holds: the provenance test of the specification, or a URL containing
    [thumbnail_url].  In every other case the first step is the download
    of the candidate. *)
Theorem direct_url_iff_authoritative
        pageUrl options (s : State W) r s' d t :
  takeIntelligentScreenshot pageUrl options s = (Ok r, s') ->
  videoDetectionResult r = Some d ->
  thumbnail d = Some t ->
  exists evs,
    log s' = log s ++ evs /\
    shouldReturnUrlDirectly t = claimedDirect t || includes (url t) "thumbnail_url" /\
    if shouldReturnUrlDirectly t
    then thumbnailUrl r = Some (url t) /\ image r = None /\ captures evs = []
    else thumbnailUrl r = None /\
         exists rest, captures evs = EvFetch (url t) :: rest.
Proof.
  intros H Hd Ht. apply take_inv in H.
  destruct H as (s1 & s2 & x & pre & Hcap & -> & Hpre & Fpre & Hlog).
  apply capture_spec in Hcap. destruct Hcap as (evs & Hlog2 & Hcase).
  exists (pre ++ evs). split.
  { rewrite Hlog, Hlog2, Hpre, <- app_assoc. reflexivity. }
  split; [apply shouldReturnUrlDirectly_spelled|].
  rewrite captures_app, (captures_Bannerish pre Fpre). simpl.
  unfold finish in *. destruct (snd x) as [res|img v].
  - destruct Hcase as (d' & t' & Hx & Ht' & Hdirect & -> & ->).
    simpl in Hd. injection Hd as <-. rewrite Ht in Ht'. injection Ht' as <-.
    rewrite Hdirect. repeat split.
  - simpl in Hd. rewrite Hd in Hcase. rewrite Ht in Hcase.
    destruct Hcase as [Hdirect [rest ->]]. rewrite Hdirect.
    split; [reflexivity|]. simpl. eauto.
Qed.

Lemma evaluate_reads (P : W -> Prop) d0 {A} (script : Dom -> A) (s : State W) :
  Reads B P d0 -> P (world s) ->
  exists s1, evaluate script s = (Ok (script d0), s1) /\ P (world s1).
Proof.
  intros HR Hs. destruct (HR (world s) Hs) as [E HP].
  unfold evaluate, bind, lift.
  destruct (page_evaluate (world s)) as [r w']. simpl in *. subst r.
  eexists. split; [reflexivity|exact HP].
Qed.

Lemma validateCandidate_reads (P : W -> Prop) d0 c (s : State W) :
  Reads B P d0 -> P (world s) ->
  exists r s1, validateCandidate c s = (Ok r, s1) /\ P (world s1).
Proof.
  intros HR Hs. unfold validateCandidate, try_catch.
  destruct (evaluate_reads P d0 (fun d => resolveUrl d (url c)) s HR Hs)
    as (s1 & E1 & H1).
  unfold bind at 1. rewrite E1.
  destruct (negb (truthyZ (width (set_url c (resolveUrl d0 (url c)))))
            || negb (truthyZ (height (set_url c (resolveUrl d0 (url c)))))).
  - destruct (evaluate_reads P d0
                (fun d => naturalSize d (resolveUrl d0 (url c))) s1 HR H1)
      as (s2 & E2 & H2).
    unfold bind at 1, bind at 1. rewrite E2. cbn [ret].
    match goal with |- context [if isValidThumbnail ?v then _ else _] =>
      destruct (isValidThumbnail v) end; eexists; eexists; split; reflexivity || exact H2.
  - unfold bind at 1. cbn [ret].
    match goal with |- context [if isValidThumbnail ?v then _ else _] =>
      destruct (isValidThumbnail v) end; eexists; eexists; split; reflexivity || exact H1.
Qed.

Lemma validateAndScoreCandidates_reads (P : W -> Prop) d0 l : forall s : State W,
  Reads B P d0 -> P (world s) ->
  exists r s1, validateAndScoreCandidates l s = (Ok r, s1) /\ P (world s1).
Proof.
  induction l as [|c l IH]; intros s HR Hs; simpl.
  - exists [], s. now split.
  - destruct (validateCandidate_reads P d0 c s HR Hs) as (r & s1 & E & H1).
    unfold bind at 1. rewrite E.
    destruct (IH s1 HR H1) as (rs & s2 & E2 & H2).
    unfold bind at 1. rewrite E2. eexists. eexists. split; [reflexivity|exact H2].
Qed.

(** On a page that reads as [d0], detection reports a video when a raw
    candidate was extracted or a video indicator is present. *)
Lemma hasVideo_reads (P : W -> Prop) d0 (s : State W) d s' :
  Reads B P d0 -> P (world s) ->
  detectVideoThumbnail s = (Ok d, s') ->
  hasVideo d = (0 <? List.length (rawCandidates d0))%nat || videoPresence d0.
Proof.
  intros HR Hs. unfold detectVideoThumbnail, try_catch.
  destruct (evaluate_reads P d0 extractMetadataThumbnails s HR Hs) as (s1 & E1 & H1).
  unfold bind at 1. rewrite E1.
  destruct (evaluate_reads P d0 extractVideoElementThumbnails s1 HR H1) as (s2 & E2 & H2).
  unfold bind at 1. rewrite E2.
  destruct (evaluate_reads P d0 extractDOMThumbnails s2 HR H2) as (s3 & E3 & H3).
  unfold bind at 1. rewrite E3.
  destruct (evaluate_reads P d0 extractCSSBackgroundThumbnails s3 HR H3) as (s4 & E4 & H4).
  unfold bind at 1. rewrite E4.
  destruct (evaluate_reads P d0 (fun d => iframeLoop (iframes d) []) s4 HR H4)
    as (s5 & E5 & H5).
  unfold bind at 1, extractIframeThumbnails, try_catch. rewrite E5.
  destruct (evaluate_reads P d0 extractOEmbedThumbnails s5 HR H5) as (s6 & E6 & H6).
  unfold bind at 1. rewrite E6.
  fold (rawCandidates d0).
  destruct (validateAndScoreCandidates_reads P d0 (rawCandidates d0) s6 HR H6)
    as (valid & s7 & E7 & H7).
  unfold bind at 1. rewrite E7.
  destruct (0 <? List.length (rawCandidates d0))%nat.
  - unfold bind, ret. intros H. injection H as <- _. reflexivity.
  - destruct (evaluate_reads P d0 videoPresence s7 HR H7) as (s8 & E8 & H8).
    unfold bind at 1, detectVideoPresence. rewrite E8.
    unfold ret. intros H. injection H as <- _. reflexivity.
Qed.

Lemma nonempty_length {A} (l : list A) :
  (0 <? List.length l)%nat = true <-> l <> [].
Proof.
  destruct l; simpl; split; intros H; try discriminate; try reflexivity.
  now contradiction H.
Qed.

(** The presence script of the code answers [true] exactly for a
    [video] element or a match of one of the eight indicator
    selectors. *)
Lemma videoPresence_indicators d :
  videoPresence d = true <->
  videos d <> [] \/
  exists selector, In selector indicatorSelectors /\ (0 < count d selector)%nat.
Proof.
  unfold videoPresence, some.
  rewrite orb_true_iff, nonempty_length, existsb_exists.
  assert (E : videoIndicators = indicatorSelectors) by reflexivity.
  rewrite E. split; (intros [H|(selector & Hin & H)]; [now left|right]);
    exists selector; (split; [exact Hin|]); now apply Nat.ltb_lt.
Qed.

(** When the first script of detection throws, the [catch] clause
    answers. *)
Lemma detectVideoThumbnail_first_script_throws (s : State W) e w' :
  page_evaluate (world s) = (Throw e, w') ->
  detectVideoThumbnail s = (Ok (mkDetection false None []), mkState w' (log s)).
Proof.
  intros H. unfold detectVideoThumbnail, try_catch, bind at 1.
  unfold evaluate, bind at 1, lift. rewrite H. reflexivity.
Qed.

(** On a page that reads as [d0] the extraction returns the raw
    candidates of [d0]. *)
Lemma extraction_reads (P : W -> Prop) d0 (s : State W) :
  Reads B P d0 -> P (world s) ->
  exists sA, Spec.extraction s = (Ok (rawCandidates d0), sA) /\ P (world sA).
Proof.
  intros HR Hs. unfold Spec.extraction.
  destruct (evaluate_reads P d0 extractMetadataThumbnails s HR Hs) as (s1 & E1 & H1).
  rewrite (bind_value _ _ _ _ _ E1).
  destruct (evaluate_reads P d0 extractVideoElementThumbnails s1 HR H1) as (s2 & E2 & H2).
  rewrite (bind_value _ _ _ _ _ E2).
  destruct (evaluate_reads P d0 extractDOMThumbnails s2 HR H2) as (s3 & E3 & H3).
  rewrite (bind_value _ _ _ _ _ E3).
  destruct (evaluate_reads P d0 extractCSSBackgroundThumbnails s3 HR H3) as (s4 & E4 & H4).
  rewrite (bind_value _ _ _ _ _ E4).
  destruct (evaluate_reads P d0 (fun d => iframeLoop (iframes d) []) s4 HR H4)
    as (s5 & E5 & H5).
  assert (E5' : extractIframeThumbnails s4 = (Ok (iframeLoop (iframes d0) []), s5)).
  { unfold extractIframeThumbnails, try_catch. now rewrite E5. }
  rewrite (bind_value _ _ _ _ _ E5').
  destruct (evaluate_reads P d0 extractOEmbedThumbnails s5 HR H5) as (s6 & E6 & H6).
  rewrite (bind_value _ _ _ _ _ E6).
  exists s6. split; [reflexivity|exact H6].
Qed.


Lemma takeRegularScreenshot_alive options (s : State W) :
  LinkAlive B -> exists img s1, takeRegularScreenshot options s = (Ok img, s1).
Proof.
  intros HL. unfold takeRegularScreenshot, bind, emit, lift. simpl.
  match goal with |- context [page_screenshot ?o (world s)] =>
    destruct (alive_screenshot B HL o (world s) eq_refl) as (b & w' & ->) end.
  eexists. eexists. reflexivity.
Qed.

Lemma capture_alive options (s : State W) :
  LinkAlive B -> exists x s2, capture options s = (Ok x, s2).
Proof.
  intros HL. unfold capture. destruct (detectVideoThumbnails options).
  - destruct (attempt_detect s) as (d & s1 & Ea & _).
    unfold bind at 1. rewrite Ea. unfold try_catch, bind at 1.
    destruct (decide options d s1) as [[exit|e] s1'].
    + eexists. eexists. reflexivity.
    + destruct (takeRegularScreenshot_alive options s1' HL) as (img & s3 & E).
      unfold bind. rewrite E. eexists. eexists. reflexivity.
  - destruct (takeRegularScreenshot_alive options s HL) as (img & s3 & E).
    unfold bind. rewrite E. eexists. eexists. reflexivity.
Qed.

Lemma finish_exactlyOne options (s : State W) x s2 :
  capture options s = (Ok x, s2) -> exactlyOne (finish x).
Proof.
  intros H. apply capture_spec in H. destruct H as (evs & _ & Hcase).
  unfold finish, exactlyOne. destruct (snd x) as [res|img v]; simpl; [|exact I].
  destruct Hcase as (d & t & _ & _ & _ & -> & _). exact I.
Qed.

(** While the link holds, a result is returned, whatever reads,
    queries, clicks, downloads and clipped captures throw. *)
Lemma result_while_link_holds :
  LinkAlive B ->
  forall pageUrl options (s : State W),
  exists r s',
    takeIntelligentScreenshot pageUrl options s = (Ok r, s') /\ exactlyOne r.
Proof.
  intros HL pageUrl options s.
  destruct (takeIntelligentScreenshot pageUrl options s) as [[r|e] s'] eqn:E.
  { exists r, s'. split; [reflexivity|]. apply take_inv in E.
    destruct E as (s1 & s2 & x & pre & Hcap & -> & _).
    now apply (finish_exactlyOne options s1 x s2). }
  exfalso. revert E. unfold takeIntelligentScreenshot, try_catch.
  unfold bind at 1, lift at 1.
  destruct (alive_newPage B HL (world s)) as (w0 & ->).
  unfold finally.
  unfold bind at 1, lift at 1. cbn [world log].
  destruct (alive_goto B HL pageUrl w0) as (w1 & ->).
  unfold bind at 1. rewrite sleep_run.
  match goal with |- context [bind (dismissBanners options) ?k ?s1] =>
    destruct (Total_dismissBanners options s1) as (u & sb & Eb) end.
  unfold bind at 1. rewrite Eb.
  destruct (capture_alive options sb HL) as (x & sc & Ec).
  unfold bind at 1. rewrite Ec.
  destruct (snd x); discriminate.
Qed.

(** *** Errors that leave the orchestrator *)

Lemma takeRegularScreenshot_throws options (s : State W) e s' :
  takeRegularScreenshot options s = (Throw e, s') ->
  exists o w',
    shot_clip o = None /\ page_screenshot o (world s) = (Throw e, w') /\
    s' = mkState w' (log s ++ [EvScreenshot]).
Proof.
  unfold takeRegularScreenshot, bind, emit, lift. cbn [world log].
  match goal with |- context [page_screenshot ?o (world s)] =>
    destruct (page_screenshot o (world s)) as [[img|e'] w'] eqn:E;
    intros H; [discriminate|]; injection H as <- <-; exists o, w'
  end.
  now repeat split.
Qed.

Lemma cropOrRegular_throws options (s : State W) e s' :
  cropOrRegular options s = (Throw e, s') ->
  exists s1, takeRegularScreenshot options s1 = (Throw e, s') /\
             exists evs, log s1 = log s ++ evs.
Proof.
  unfold cropOrRegular.
  destruct (detectVideoRegionAndCrop_runs s) as (o & s1 & E & Hlog).
  rewrite (bind_value _ _ _ _ _ E). destruct o as [img|]; [discriminate|].
  unfold bind. destruct (takeRegularScreenshot options s1) as [[img|e'] s2] eqn:Er;
    intros H; [discriminate|]. injection H as <- <-.
  exists s1. split; [exact Er|]. eauto.
Qed.

(** The decision block throws only what a plain capture threw. *)
Lemma decide_throws options d (s : State W) e s' :
  decide options d s = (Throw e, s') ->
  exists s1, takeRegularScreenshot options s1 = (Throw e, s') /\
             exists evs, log s1 = log s ++ evs.
Proof.
  unfold decide. destruct (thumbnail d) as [t|].
  - destruct (shouldReturnUrlDirectly t); [discriminate|].
    unfold try_catch, bind at 1.
    pose proof (fetchThumbnail_log (url t) s) as Hf.
    destruct (fetchThumbnail (url t) s) as [[img|e0] s1]; [discriminate|].
    simpl in Hf. intros H. apply cropOrRegular_throws in H.
    destruct H as (s2 & H & evs & Hlog). exists s2. split; [exact H|].
    exists ([EvFetch (url t)] ++ evs). now rewrite Hlog, Hf, app_assoc.
  - destruct (hasVideo d); [apply cropOrRegular_throws|].
    unfold bind.
    destruct (takeRegularScreenshot options s) as [[img|e'] s2] eqn:Er;
      intros H; [discriminate|]. injection H as <- <-.
    exists s. split; [exact Er|]. exists []. now rewrite app_nil_r.
Qed.

(** The capture phase throws only what its last plain capture threw. *)
Lemma capture_throws options (s : State W) e s' :
  capture options s = (Throw e, s') ->
  exists s1, takeRegularScreenshot options s1 = (Throw e, s') /\
             exists evs, log s1 = log s ++ evs.
Proof.
  unfold capture. destruct (detectVideoThumbnails options).
  - destruct (attempt_detect s) as (d & s1 & Ea & Hlog1).
    rewrite (bind_value _ _ _ _ _ Ea). unfold try_catch, bind at 1.
    destruct (decide options d s1) as [[exit|e0] s2] eqn:Ed; [discriminate|].
    apply decide_throws in Ed. destruct Ed as (sx & Ex & evs & Hlogx).
    unfold bind.
    destruct (takeRegularScreenshot options s2) as [[img|e'] s3] eqn:Er;
      intros H; [discriminate|]. injection H as <- <-.
    exists s2. split; [exact Er|].
    pose proof (takeRegularScreenshot_log options sx) as Hr.
    rewrite Ex in Hr. simpl in Hr. exists (evs ++ [EvScreenshot]).
    now rewrite Hr, Hlogx, Hlog1, app_assoc.
  - unfold bind.
    destruct (takeRegularScreenshot options s) as [[img|e'] s3] eqn:Er;
      intros H; [discriminate|]. injection H as <- <-.
    exists s. split; [exact Er|]. exists []. now rewrite app_nil_r.
Qed.

(** *** A lost link *)

Section Lost.
Variable L : W -> Prop.
Hypothesis HL : LinkLost B L.

Lemma Keeps_sleep ms : Keeps L (sleep (W := W) ms).
Proof.
  unfold sleep. apply Keeps_bind; [|intros _; apply Keeps_emit].
  apply Keeps_lift. intros w. apply (lost_timer B L HL).
Qed.

Lemma Keeps_now : Keeps L (now (W := W)).
Proof. intros s H. exact H. Qed.

Lemma Keeps_locate selector : Keeps L (BannerHandler.locate selector).
Proof.
  unfold BannerHandler.locate. apply Keeps_if.
  - destruct (BannerHandler.matchContains selector) as [[[baseSelector text] suffix]|];
      [|apply Keeps_ret].
    apply Keeps_lift. intros w. apply (lost_queryContains B L HL).
  - apply Keeps_lift. intros w. apply (lost_query B L HL).
Qed.

Lemma Keeps_trySelector p selector : Keeps L (BannerHandler.trySelector p selector).
Proof.
  unfold BannerHandler.trySelector.
  apply Keeps_try_catch; [|intros ?; apply Keeps_ret].
  apply Keeps_bind; [apply Keeps_locate|intros [el|]]; [|apply Keeps_ret].
  apply Keeps_bind;
    [apply Keeps_lift; intros w; apply (lost_isVisible B L HL)|intros visible].
  apply Keeps_if; [apply Keeps_ret|].
  destruct (BannerHandler.action p).
  - apply Keeps_bind;
      [apply Keeps_lift; intros w; apply (lost_scrollIntoView B L HL)|intros _].
    apply Keeps_bind; [apply Keeps_sleep|intros _].
    apply Keeps_bind;
      [apply Keeps_lift; intros w; apply (lost_click B L HL)|intros _].
    apply Keeps_bind; [apply Keeps_emit|intros _]. apply Keeps_ret.
  - apply Keeps_bind;
      [apply Keeps_lift; intros w; apply (lost_remove B L HL)|intros _].
    apply Keeps_bind; [apply Keeps_emit|intros _]. apply Keeps_ret.
Qed.

Lemma Keeps_trySelectors p l : Keeps L (BannerHandler.trySelectors p l).
Proof.
  induction l as [|selector l IH]; simpl; [apply Keeps_ret|].
  apply Keeps_bind; [apply Keeps_trySelector|].
  intros [|]; [apply Keeps_ret|exact IH].
Qed.

Lemma Keeps_scanPatterns ps maxTime : Keeps L (BannerHandler.scanPatterns ps maxTime).
Proof.
  induction ps as [|p ps IH]; simpl; [apply Keeps_ret|].
  apply Keeps_bind; [apply Keeps_now|intros t].
  apply Keeps_if; [apply Keeps_ret|].
  apply Keeps_bind; [|intros found; apply Keeps_if; [apply Keeps_ret|exact IH]].
  apply Keeps_try_catch; [|intros ?; apply Keeps_ret].
  apply Keeps_bind; [apply Keeps_emit|intros _].
  apply Keeps_bind; [apply Keeps_trySelectors|intros handled].
  apply Keeps_if; [|apply Keeps_ret].
  apply Keeps_bind; [apply Keeps_emit|intros _].
  apply Keeps_bind; [|intros ?; apply Keeps_ret].
  destruct (BannerHandler.waitAfter p) as [ms|]; [|apply Keeps_ret].
  apply Keeps_if; [apply Keeps_sleep|apply Keeps_ret].
Qed.

Lemma Keeps_bannerLoop ps maxTime fuel : forall a h,
  Keeps L (BannerHandler.bannerLoop fuel ps maxTime a h).
Proof.
  induction fuel as [|fuel IH]; intros a h; simpl; [apply Keeps_ret|].
  apply Keeps_bind; [apply Keeps_now|intros t].
  apply Keeps_if; [|apply Keeps_ret].
  apply Keeps_bind; [apply Keeps_emit|intros _].
  apply Keeps_bind; [apply Keeps_scanPatterns|intros found].
  apply Keeps_if; [apply Keeps_ret|].
  apply Keeps_bind; [apply Keeps_sleep|intros _]. apply IH.
Qed.

Lemma Keeps_handleCustomBanners l : Keeps L (BannerHandler.handleCustomBanners l).
Proof.
  induction l as [|selector l IH]; simpl; [apply Keeps_ret|].
  apply Keeps_bind; [|intros _; exact IH].
  unfold BannerHandler.handleCustomBanner.
  apply Keeps_try_catch; [|intros ?; apply Keeps_ret].
  apply Keeps_bind;
    [apply Keeps_lift; intros w; apply (lost_query B L HL)|intros [el|]];
    [|apply Keeps_ret].
  apply Keeps_bind;
    [apply Keeps_lift; intros w; apply (lost_isVisible B L HL)|intros visible].
  apply Keeps_if; [|apply Keeps_ret].
  apply Keeps_bind;
    [apply Keeps_lift; intros w; apply (lost_click B L HL)|intros _].
  apply Keeps_bind; [apply Keeps_emit|intros _].
  apply Keeps_sleep.
Qed.

(** Banner handling does not bring a lost link back. *)
Lemma Keeps_dismissBanners options : Keeps L (dismissBanners options).
Proof.
  unfold dismissBanners. apply Keeps_if; [|apply Keeps_ret].
  apply Keeps_try_catch; [|intros ?; apply Keeps_ret].
  apply Keeps_bind; [|intros _].
  { apply Keeps_if; [|apply Keeps_ret]. unfold BannerHandler.injectBannerBlockingCSS.
    apply Keeps_try_catch; [|intros ?; apply Keeps_ret].
    apply Keeps_lift. intros w. apply (lost_addStyleTag B L HL). }
  apply Keeps_bind; [|intros _].
  { unfold BannerHandler.handleBanners, BannerHandler.handleBannersWith.
    apply Keeps_bind; [apply Keeps_now|intros t].
    apply Keeps_try_catch; [|intros ?; apply Keeps_ret].
    apply Keeps_bind; [apply Keeps_sleep|intros _].
    apply Keeps_bind; [apply Keeps_bannerLoop|intros summary].
    apply Keeps_bind; [apply Keeps_sleep|intros _]. apply Keeps_ret. }
  apply Keeps_if; [apply Keeps_handleCustomBanners|apply Keeps_ret].
Qed.

Lemma takeRegularScreenshot_lost options (s : State W) :
  L (world s) ->
  exists e s', takeRegularScreenshot options s = (Throw e, s') /\ L (world s').
Proof.
  intros H. unfold takeRegularScreenshot, bind, emit, lift. cbn [world log].
  match goal with |- context [page_screenshot ?o (world s)] =>
    destruct (lost_screenshot B L HL o (world s) H) as (e & w' & -> & Hw) end.
  eexists. eexists. split; [reflexivity|exact Hw].
Qed.

(** Behind a lost link the capture phase throws. *)
Lemma capture_lost options (s : State W) :
  L (world s) -> exists e s', capture options s = (Throw e, s').
Proof.
  intros H. unfold capture. destruct (detectVideoThumbnails options).
  - destruct (lost_evaluate B L HL (world s) H) as (e0 & w1 & Ee & H1).
    unfold attempt, try_catch, bind at 1, bind at 1.
    rewrite (detectVideoThumbnail_first_script_throws s e0 w1 Ee).
    unfold ret at 1. unfold decide. cbn [thumbnail hasVideo].
    destruct (takeRegularScreenshot_lost options (mkState w1 (log s)) H1)
      as (e1 & s2 & E1 & H2).
    rewrite (bind_error _ _ _ _ _ (bind_error _ _ _ _ _ E1)).
    destruct (takeRegularScreenshot_lost options s2 H2) as (e2 & s3 & E2 & _).
    rewrite (bind_error _ _ _ _ _ E2). eauto.
  - destruct (takeRegularScreenshot_lost options s H) as (e1 & s2 & E1 & _).
    rewrite (bind_error _ _ _ _ _ E1). eauto.
Qed.

End Lost.


End Claims.

End CaptureTheorems.

Module CaptureExamples.
Import VideoThumbnailDetector BrowserManager CaptureSpec CaptureFacts CaptureTheorems Samples.

Lemma toy_alive : LinkAlive Toy.browser.
Proof.
  constructor.
  - intros w. now exists w.
  - intros u w. now exists w.
  - intros o w H. simpl. eexists. now exists w.
Qed.

Lemma toy_reads (d0 : Dom) : Reads Toy.browser (fun w => Toy.dom w = d0) d0.
Proof. intros w H. simpl. now rewrite H. Qed.

(** Scenario A: the selected [og:image] scores 1 and its address is
    returned without any download or capture. *)
Lemma direct_url_witness :
  run hdPage = (Ok (resultOf hdPage), snd (run hdPage)) /\
  videoDetectionResult (resultOf hdPage) = Some (detectionOf hdPage) /\
  thumbnail (detectionOf hdPage) = Some (thumbnailOf hdPage) /\
  exists evs,
    log (snd (run hdPage)) = log (start hdPage) ++ evs /\
    shouldReturnUrlDirectly (thumbnailOf hdPage)
    = claimedDirect (thumbnailOf hdPage)
      || includes (url (thumbnailOf hdPage)) "thumbnail_url" /\
    if shouldReturnUrlDirectly (thumbnailOf hdPage)
    then thumbnailUrl (resultOf hdPage) = Some (url (thumbnailOf hdPage)) /\
         image (resultOf hdPage) = None /\ captures evs = []
    else thumbnailUrl (resultOf hdPage) = None /\
         exists rest, captures evs = EvFetch (url (thumbnailOf hdPage)) :: rest.
Proof.
  assert (E : run hdPage = (Ok (resultOf hdPage), snd (run hdPage)))
    by (vm_compute; reflexivity).
  assert (Ed : videoDetectionResult (resultOf hdPage) = Some (detectionOf hdPage))
    by (vm_compute; reflexivity).
  assert (Et : thumbnail (detectionOf hdPage) = Some (thumbnailOf hdPage))
    by (vm_compute; reflexivity).
  split; [exact E|]. split; [exact Ed|]. split; [exact Et|].
  exact (direct_url_iff_authoritative (B := Toy.browser) "https://x/" defaultOptions
           (start hdPage) (resultOf hdPage) (snd (run hdPage))
           (detectionOf hdPage) (thumbnailOf hdPage) E Ed Et).
Defined.

(** C4, as stated, fails: a container image of confidence 0.6 from no
    authoritative source and no known CDN is returned directly, because
    its address contains [thumbnail_url]. *)
Lemma thumbnail_url_address_returned_directly :
  run thumbnailUrlPage = (Ok (resultOf thumbnailUrlPage), snd (run thumbnailUrlPage)) /\
  videoDetectionResult (resultOf thumbnailUrlPage) = Some (detectionOf thumbnailUrlPage) /\
  thumbnail (detectionOf thumbnailUrlPage) = Some (thumbnailOf thumbnailUrlPage) /\
  source (thumbnailOf thumbnailUrlPage) = "container image"%string /\
  confidence (thumbnailOf thumbnailUrlPage) == 0.6 /\
  claimedDirect (thumbnailOf thumbnailUrlPage) = false /\
  thumbnailUrl (resultOf thumbnailUrlPage) = Some "https://x/thumbnail_url/a.jpg"%string /\
  image (resultOf thumbnailUrlPage) = None /\
  captures (log (snd (run thumbnailUrlPage))) = [].
Proof. repeat split; vm_compute; reflexivity. Qed.


(** A rejected candidate has the same effect: the page has no video
    indicator at all, but its [og:image] is a logo. *)
Example crop_attempted_after_rejected_candidate :
  let page := Toy.withOgImage "https://x/logo.png" (1280, 720)%Z in
  videoDetectionResult (resultOf page) = Some (mkDetection true None []) /\
  videoPresence (Toy.dom page) = false /\
  captures (log (snd (run page))) = [EvCrop; EvScreenshot].
Proof. repeat split; vm_compute; reflexivity. Qed.


(** Each of the eight indicator selectors makes detection report a
    video on a page without candidates and without [video] element, and
    so does a [video] element; the empty page reports none. *)
Example every_indicator_reports_video :
  forallb (fun selector => hasVideo (detectionOf (indicatorPage selector)))
          indicatorSelectors = true /\
  hasVideo (detectionOf (ToyPages.playerPage true)) = true /\
  hasVideo (detectionOf Toy.plain) = false.
Proof. repeat split; vm_compute; reflexivity. Qed.

Lemma dropped_link_lost : LinkLost ToyPages.dropped (fun _ => True).
Proof.
  constructor; try (intros; exact I).
  - intros w _. eexists. exists w. split; [reflexivity|exact I].
  - intros o w _. eexists. exists w. split; [reflexivity|exact I].
Qed.


(** Behind a lost connection the error is passed on, with its prefix;
    so it is when the connection drops after the page has loaded, and
    then the message is that of the plain capture. *)
Example lost_connection_propagates :
  fst (takeIntelligentScreenshot (B := Toy.offline) "https://x/" defaultOptions
         (start Toy.plain))
  = Throw "Intelligent screenshot failed: Protocol error: Target closed" /\
  fst (takeIntelligentScreenshot (B := ToyPages.dropped) "https://x/" defaultOptions
         (start (ToyPages.playerPage true)))
  = Throw "Intelligent screenshot failed: Protocol error: Target closed".
Proof. split; vm_compute; reflexivity. Qed.

(** A page whose scripts cannot run, a page whose thumbnail cannot be
    downloaded and a page whose player cannot be cropped all get an
    answer: the failures stay inside the call. *)
Example failures_are_absorbed :
  (exists r s',
      takeIntelligentScreenshot (B := ToyPages.blind) "https://x/" defaultOptions
                                (start (ToyPages.playerPage true)) = (Ok r, s') /\
      image r = Some [x02] /\ thumbnailUrl r = None)
  /\
  (exists r s',
      run (Toy.withContainerImage "https://x/a.jpg" (300, 300)%Z) = (Ok r, s') /\
      In (EvFetch "https://x/a.jpg") (log s') /\
      image r = Some [x02] /\ thumbnailUrl r = None).
Proof.
  split; eexists; eexists; (split; [vm_compute; reflexivity|]).
  - split; reflexivity.
  - split; [|split; reflexivity]. vm_compute. tauto.
Qed.

(** Scenario C of the specification: no video, no banner, a plain capture. *)
Example scenario_C :
  fst (run Toy.plain) = Ok (mkResult (Some [x02]) None false (Some noDetection)) /\
  captures (log (snd (run Toy.plain))) = [EvScreenshot].
Proof. split; vm_compute; reflexivity. Qed.

End CaptureExamples.

(** * Further properties of the code *)

(** ** Lists, strings and the monad *)

Section ListFacts.
Import Observed.

Lemma existsb_false_Forall {A} (f : A -> bool) l :
  existsb f l = false <-> Forall (fun x => f x = false) l.
Proof.
  induction l as [|x l IH]; simpl.
  - split; [constructor|reflexivity].
  - rewrite orb_false_iff, IH. split.
    + intros [? ?]. now constructor.
    + intros H. inversion H. now split.
Qed.

Lemma Kept_length {A B} (R : A -> B -> Prop) l l' :
  Kept R l l' -> (List.length l' <= List.length l)%nat.
Proof. induction 1; simpl; lia. Qed.

Lemma Kept_nil_inv {A B} (R : A -> B -> Prop) l' : Kept R [] l' -> l' = [].
Proof. now inversion 1. Qed.

Lemma Kept_In {A B} (R : A -> B -> Prop) l l' b :
  Kept R l l' -> In b l' -> exists a, In a l /\ R a b.
Proof.
  induction 1 as [|a l l' _ IH|a b0 l l' Hr _ IH]; intros Hin.
  - contradiction.
  - destruct (IH Hin) as (x & ? & ?). exists x. split; [now right|assumption].
  - destruct Hin as [<-|Hin].
    + exists a. split; [now left|assumption].
    + destruct (IH Hin) as (x & ? & ?). exists x. split; [now right|assumption].
Qed.

End ListFacts.

Section StringFacts.
Import BannerHandler Observed.

Lemma append_assoc (a b c : string) : (a +++ b) +++ c = a +++ b +++ c.
Proof. induction a as [|x a IH]; simpl; [reflexivity|now rewrite IH]. Qed.

Lemma span_append keep a rest :
  allChars keep a = true -> stopsAt keep rest ->
  span keep (a +++ rest) = (a, rest).
Proof.
  unfold allChars. induction a as [|x a IH]; simpl; intros Ha Hrest.
  - destruct rest as [|c rest]; simpl; [reflexivity|].
    simpl in Hrest. now rewrite Hrest.
  - apply andb_prop in Ha. destruct Ha as [Hx Ha].
    rewrite Hx, (IH Ha Hrest). reflexivity.
Qed.

Lemma span_split keep s a rest :
  span keep s = (a, rest) ->
  s = a +++ rest /\ allChars keep a = true /\ stopsAt keep rest.
Proof.
  unfold allChars. revert a rest. induction s as [|c s IH]; simpl; intros a rest H.
  - injection H as <- <-. now repeat split.
  - destruct (keep c) eqn:Ec.
    + destruct (span keep s) as [a' rest'] eqn:E. simpl in H. injection H as <- <-.
      destruct (IH a' rest' eq_refl) as (-> & Ha & Hrest).
      simpl. rewrite Ec, Ha. now repeat split.
    + injection H as <- <-. simpl. now repeat split.
Qed.

Lemma stripPrefix_append p s : stripPrefix p (p +++ s) = Some s.
Proof.
  induction p as [|c p IH]; simpl; [now destruct s|].
  now rewrite Ascii.eqb_refl.
Qed.

Lemma stripPrefix_split p s rest : stripPrefix p s = Some rest -> s = p +++ rest.
Proof.
  revert s. induction p as [|c p IH]; intros s H.
  - destruct s; simpl in H; now injection H as <-.
  - destruct s as [|x s]; simpl in H; [discriminate|].
    destruct (Ascii.eqb_spec c x) as [->|]; [|discriminate].
    simpl. now rewrite (IH s H).
Qed.

End StringFacts.

(** ** The detector *)

Module DetectorCoverage.
Import VideoThumbnailDetector Spec Observed.

Lemma far_when_narrow r ratio :
  r < 0.5 -> 1 < ratio ->
  Qle_bool (Qabs (r - ratio)) MAX_ASPECT_RATIO_DEVIATION = false.
Proof.
  intros Hr Hratio. destruct (Qle_bool _ _) eqn:E; [|reflexivity].
  apply Qle_bool_iff, Qabs_Qle_condition in E. destruct E as [E1 E2].
  unfold MAX_ASPECT_RATIO_DEVIATION in *. lra.
Qed.

Lemma near_narrow r : r < 0.5 -> near MAX_ASPECT_RATIO_DEVIATION r = false.
Proof.
  intros Hr. unfold near, some, PREFERRED_ASPECT_RATIOS. cbn [existsb].
  rewrite !(far_when_narrow r) by (assumption || reflexivity).
  reflexivity.
Qed.

Lemma below_false x minimum :
  below x minimum = false <->
  match x with Some v => (v = 0 \/ minimum <= v)%Z | None => True end.
Proof.
  unfold below, truthyZ. destruct x as [v|]; [|tauto].
  destruct (Z.eqb_spec v 0), (Z.ltb_spec v minimum); simpl; split; intros;
    try reflexivity; try discriminate; lia.
Qed.

(** X1.  [isValidThumbnail] accepts a candidate exactly when each
    known dimension is zero or reaches its minimum (200 wide, 150
    high), the lower-cased address contains none of the refused words,
    and a known aspect ratio is zero or at least 0.5.  The preferred
    ratios play no part: every ratio below 0.5 is further than 0.3
    from all of them. *)
Theorem isValidThumbnail_iff (c : ThumbnailCandidate) :
  isValidThumbnail c = true <->
  match width c with Some w => (w = 0 \/ 200 <= w)%Z | None => True end /\
  match height c with Some h => (h = 0 \/ 150 <= h)%Z | None => True end /\
  Forall (fun pattern => includes (toLowerCase (url c)) pattern = false)
         rejectPatterns /\
  match aspectRatio c with Some r => r == 0 \/ 0.5 <= r | None => True end.
Proof.
  rewrite <- (below_false (width c) 200), <- (below_false (height c) 150).
  rewrite <- existsb_false_Forall.
  unfold isValidThumbnail, MIN_THUMBNAIL_WIDTH, MIN_THUMBNAIL_HEIGHT, some.
  destruct (below (width c) 200); [intuition discriminate|].
  destruct (below (height c) 150); [intuition discriminate|].
  cbv zeta.
  destruct (existsb _ rejectPatterns); [intuition discriminate|].
  destruct (aspectRatio c) as [r|]; [|tauto].
  unfold truthyQ. destruct (Qeq_bool r 0) eqn:Ez; simpl.
  - apply Qeq_bool_iff in Ez. tauto.
  - assert (Hnz : ~ r == 0).
    { intros Hr. apply Qeq_bool_iff in Hr. congruence. }
    destruct (Qltb r 0.5) eqn:El.
    + apply Qltb_true in El. rewrite (near_narrow r El). simpl.
      split; [discriminate|]. intros (_ & _ & _ & [Hr|Hr]); [contradiction|lra].
    + apply Qltb_false in El. rewrite andb_false_r. tauto.
Qed.

(** The sort leaves a sorted array as it is. *)
Lemma sort_fixed l :
  byDescendingConfidence l -> sort byConfidenceDesc l = l.
Proof.
  unfold byDescendingConfidence. induction 1 as [|x l Hs IH Hall]; [reflexivity|].
  simpl. rewrite IH. destruct l as [|y l]; [reflexivity|]. simpl.
  inversion Hall as [|? ? Hy _]; subst.
  assert (E : Qltb 0 (byConfidenceDesc x y) = false).
  { apply Qltb_false. unfold byConfidenceDesc. lra. }
  now rewrite E.
Qed.

(** X8.  [selectBestCandidate] only reorders the array it is given,
    and selecting again from the reordered array changes nothing. *)
Theorem selection_reorders_once (l : list ThumbnailCandidate) :
  Permutation l (snd (selectBestCandidate l)) /\
  selectBestCandidate (snd (selectBestCandidate l)) = selectBestCandidate l.
Proof.
  destruct l as [|x l]; [split; [constructor|reflexivity]|].
  unfold selectBestCandidate at 2 3. cbn [snd]. split; [apply sort_perm|].
  unfold selectBestCandidate.
  destruct (sort byConfidenceDesc (x :: l)) as [|y rest] eqn:E; [reflexivity|].
  rewrite <- E. rewrite (sort_fixed _ (sort_sorted (x :: l))). reflexivity.
Qed.

(** X6.  In the scan of the iframes, an iframe whose [src] cannot be
    read ends the scan: the candidates of the iframes before it are
    kept and the iframes after it are never looked at. *)
Theorem iframe_scan_stops_at_unreadable_src
        (before after : list Iframe) (message : string) (throws : bool)
        (attributes : Exc (option string)) (acc : list ThumbnailCandidate) :
  iframeLoop (before ++ mkIframe (Throw message) throws attributes :: after) acc
  = iframeLoop before acc.
Proof.
  revert acc. induction before as [|f l IH]; intros acc; [reflexivity|].
  simpl. destruct (iframe_src f) as [src|]; [|reflexivity].
  destruct (looksLikePlayer src && contentFrame_throws f); [|apply IH].
  destruct (iframe_poster f); [apply IH|reflexivity].
Qed.

(** X7.  Only an iframe whose [contentFrame()] call throws can yield
    a candidate: whatever their addresses and data attributes, iframes
    whose content frame is handed over add nothing. *)
Theorem accessible_iframes_yield_nothing
        (l : list Iframe) (acc : list ThumbnailCandidate) :
  iframeLoop
    (map (fun f => mkIframe (iframe_src f) false (iframe_poster f)) l) acc
  = acc.
Proof.
  revert acc. induction l as [|f l IH]; intros acc; [reflexivity|].
  simpl. destruct (iframe_src f) as [src|]; [|reflexivity].
  rewrite andb_false_r. apply IH.
Qed.

(** X10.  Without a [video] element, the region to crop is the
    rounded box of a container that passes the player test, and its
    width is at least 300 and its height at least 200, so that the
    clipped capture is always attempted for it. *)
Theorem container_region_is_player_sized (d : Dom) (region : Region) :
  videos d = [] ->
  findVideoRegion d = Some region ->
  (300 <= region_width region)%Z /\ (200 <= region_height region)%Z /\
  exists rect,
    In rect (videoContainers d) /\ plausiblePlayer rect = true /\
    region = roundRect rect.
Proof.
  unfold findVideoRegion. intros -> H.
  destruct (find plausiblePlayer (videoContainers d)) as [rect|] eqn:E;
    [|discriminate].
  injection H as <-. apply find_some in E. destruct E as [Hin Hp].
  assert (Hp' := Hp). unfold plausiblePlayer in Hp'.
  apply andb_prop in Hp'. destruct Hp' as [Hp' Hh].
  apply andb_prop in Hp'. destruct Hp' as [_ Hw].
  apply Qltb_true in Hw, Hh.
  split; [|split; [|eauto]]; simpl; unfold Math_round.
  - rewrite <- (Qfloor_Z 300). apply Qfloor_resp_le. unfold inject_Z. lra.
  - rewrite <- (Qfloor_Z 200). apply Qfloor_resp_le. unfold inject_Z. lra.
Qed.

Section Pipeline.
Context {W Elem : Type} {B : Browser W Elem}.

Lemma validateCandidate_total c (s : State W) :
  exists r s', validateCandidate c s = (Ok r, s').
Proof.
  unfold validateCandidate.
  apply (Total_try_catch (W := W)). intros e. apply Total_ret.
Qed.

(** X3.  [validateAndScoreCandidates] never throws, whatever the page
    does; the array it returns holds validated copies of some of the
    candidates it was given, in the order in which they were given,
    and nothing else. *)
Theorem validation_filters_in_order
        (l : list ThumbnailCandidate) (s : State W) :
  exists valid s',
    validateAndScoreCandidates l s = (Ok valid, s') /\
    Kept (fun c c' =>
            exists s1 s2 : State W, validateCandidate c s1 = (Ok (Some c'), s2))
         l valid /\
    (List.length valid <= List.length l)%nat.
Proof.
  assert (H : exists valid s',
             validateAndScoreCandidates l s = (Ok valid, s') /\
             Kept (fun c c' =>
                     exists s1 s2 : State W,
                       validateCandidate c s1 = (Ok (Some c'), s2))
                  l valid).
  { revert s. induction l as [|c l IH]; intros s.
    - exists [], s. split; [reflexivity|constructor].
    - destruct (validateCandidate_total c s) as (r & s1 & E1).
      destruct (IH s1) as (valid & s2 & E2 & HK).
      simpl. unfold bind at 1. rewrite E1. unfold bind at 1. rewrite E2.
      destruct r as [c'|].
      + exists (c' :: valid), s2. split; [reflexivity|].
        constructor; [eauto|assumption].
      + exists valid, s2. split; [reflexivity|]. now constructor. }
  destruct H as (valid & s' & E & HK). exists valid, s'.
  split; [assumption|]. split; [assumption|]. now apply Kept_length in HK.
Qed.

(** X2.  A candidate that leaves validation keeps its source and
    method and always carries both dimensions; when the extractor
    supplied both and neither is zero they are kept as supplied and
    not measured again.  Its aspect ratio is the quotient of the two
    dimensions when neither is zero, and is left as extracted
    otherwise. *)
Theorem validated_candidate_is_measured
        (c c' : ThumbnailCandidate) (s s' : State W) :
  validateCandidate c s = (Ok (Some c'), s') ->
  source c' = source c /\ method c' = method c /\
  exists w h,
    width c' = Some w /\ height c' = Some h /\
    aspectRatio c' =
      (if (w =? 0)%Z || (h =? 0)%Z then aspectRatio c
       else Some (inject_Z w / inject_Z h)) /\
    (truthyZ (width c) && truthyZ (height c) = true ->
     width c = Some w /\ height c = Some h).
Proof.
  unfold validateCandidate. intros H.
  apply try_catch_cases in H. destruct H as [(a & H & Ha)|(e & s1 & _ & H)];
    [|discriminate].
  injection Ha as <-.
  apply bind_ok in H. destruct H as (absoluteUrl & s1 & _ & H).
  apply bind_ok in H. destruct H as (v0 & s2 & Hv0 & H).
  assert (Hv : source v0 = source c /\ method v0 = method c /\
               aspectRatio v0 = aspectRatio c /\
               exists w h, width v0 = Some w /\ height v0 = Some h /\
                 (truthyZ (width c) && truthyZ (height c) = true ->
                  width c = Some w /\ height c = Some h)).
  { cbn [width height set_url] in Hv0.
    destruct (truthyZ (width c)) eqn:Ew, (truthyZ (height c)) eqn:Eh;
      cbn [negb orb] in Hv0;
      try (apply bind_ok in Hv0; destruct Hv0 as (dims & s3 & _ & Hv0);
           injection Hv0 as <- _;
           repeat split; exists (fst dims), (snd dims);
           repeat split; try reflexivity; discriminate).
    injection Hv0 as <- _. repeat split. cbn [width height set_url].
    destruct (width c) as [w|]; [|discriminate].
    destruct (height c) as [h|]; [|discriminate].
    exists w, h. now repeat split. }
  destruct Hv as (Hs & Hm & Hr & w & h & Hw & Hh & Hgiven).
  rewrite Hw, Hh in H.
  assert (Ev : truthyZ (Some w) && truthyZ (Some h)
               = negb ((w =? 0)%Z || (h =? 0)%Z)).
  { unfold truthyZ. now destruct (w =? 0)%Z, (h =? 0)%Z. }
  rewrite Ev in H.
  destruct ((w =? 0)%Z || (h =? 0)%Z) eqn:E0; cbn [negb] in H;
    (destruct (isValidThumbnail _); [|discriminate]); injection H as <- _;
    cbn [source method width height aspectRatio set_confidence set_aspectRatio];
    (split; [assumption|]); (split; [assumption|]); exists w, h;
    (split; [assumption|]); (split; [assumption|]);
    rewrite E0; (split; [congruence|assumption]).
Qed.


Lemma detectVideoThumbnail_main (s s' : State W) r :
  detectVideoThumbnail s = (Ok r, s') ->
  r = mkDetection false None [] \/
  exists raw valid (sA sB : State W),
    validateAndScoreCandidates raw sA = (Ok valid, sB) /\
    thumbnail r = fst (selectBestCandidate valid) /\
    candidates r = snd (selectBestCandidate valid) /\
    ((0 <? List.length raw)%nat = true -> hasVideo r = true).
Proof.
  unfold detectVideoThumbnail. intros E.
  apply try_catch_cases in E. destruct E as [(a & E & Ha)|(e & s1 & _ & E)].
  - injection Ha as <-. right.
    do 6 (apply bind_ok in E; destruct E as (? & ? & _ & E)).
    apply bind_ok in E. destruct E as (valid & ? & Hvalid & E).
    apply bind_ok in E. destruct E as (hv & ? & Hhv & E).
    injection E as <- _.
    eexists _, valid, _, _. split; [exact Hvalid|].
    split; [reflexivity|]. split; [reflexivity|].
    intros Hlen. rewrite Hlen in Hhv. injection Hhv as <- _. reflexivity.
  - injection E as <- _. now left.
Qed.

(** X5.  Detection never reports a thumbnail, or any validated
    candidate, on a page on which it reports no video: whenever the
    result carries a candidate, [hasVideo] is set. *)
Theorem candidates_imply_hasVideo (s : State W) :
  exists r s',
    detectVideoThumbnail s = (Ok r, s') /\
    (hasVideo r = true \/ (thumbnail r = None /\ candidates r = [])).
Proof.
  destruct (DetectorFacts.detectVideoThumbnail_shape s) as (r & s' & E & _).
  exists r, s'. split; [assumption|].
  apply detectVideoThumbnail_main in E.
  destruct E as [->|(raw & valid & sA & sB & Hvalid & Ht & Hc & Hhv)];
    [now right|].
  destruct raw as [|c raw].
  - right. simpl in Hvalid. injection Hvalid as <- _.
    rewrite Ht, Hc. now split.
  - left. now apply Hhv.
Qed.

(** X9.  A [video] element takes precedence over every container when
    the region to crop is chosen, also when its box is empty: if the
    first [video] element of the page has a rounded width or height
    of zero or less, the crop yields nothing after its one read of the
    page, without any capture, whatever containers the page has. *)
Theorem unsized_video_prevents_crop
        (P : W -> Prop) (d0 : Dom) (s : State W)
        (video : VideoElement) (others : list VideoElement) :
  CaptureSpec.Reads B P d0 ->
  P (world s) ->
  videos d0 = video :: others ->
  (Math_round (rect_width (video_rect video)) <= 0
   \/ Math_round (rect_height (video_rect video)) <= 0)%Z ->
  detectVideoRegionAndCrop s
  = (Ok None, mkState (snd (page_evaluate (world s))) (log s ++ [EvCrop])).
Proof.
  intros HR HP Hv Hsize.
  destruct (HR (world s) HP) as [Hread _].
  unfold detectVideoRegionAndCrop, bind at 1, emit.
  unfold try_catch, bind at 1, evaluate, bind at 1, lift. cbn [world log].
  destruct (page_evaluate (world s)) as [r w1]. simpl in Hread. subst r.
  unfold ret at 1. unfold findVideoRegion. rewrite Hv.
  cbn [roundRect region_width region_height].
  assert (E : (0 <? Math_round (rect_width (video_rect video)))%Z
              && (0 <? Math_round (rect_height (video_rect video)))%Z = false).
  { apply andb_false_iff. destruct Hsize; [left|right]; apply Z.ltb_ge; assumption. }
  rewrite E. reflexivity.
Qed.

End Pipeline.

End DetectorCoverage.

(** ** The banner handler *)

Module BannerCoverage.
Import BannerHandler BannerSpec Observed.

(** *** The selector splitter *)

(** X11.  The split of a [:contains()] selector is exact.  It yields
    a base, a text and a suffix precisely when the selector is the
    base, then [:contains(] with the text in double quotes, [)], and
    the suffix, where the base is not empty and has no colon, the text
    is not empty and has no double quote, and the suffix has no line
    terminator; in every other case there is no match. *)
Theorem matchContains_iff (selector baseSelector text suffix : string) :
  matchContains selector = Some (baseSelector, text, suffix) <->
  selector = baseSelector +++ ":contains(" +++ q text +++ ")" +++ suffix /\
  truthyS baseSelector = true /\ allChars notColon baseSelector = true /\
  truthyS text = true /\ allChars notQuote text = true /\
  hasLineTerminator suffix = false.
Proof.
  unfold matchContains. split.
  - destruct (span _ selector) as [b r1] eqn:E1. cbn [fst snd].
    apply span_split in E1. destruct E1 as (-> & Hb & _).
    destruct (truthyS b) eqn:Tb; [|discriminate].
    destruct (stripPrefix _ r1) as [r2|] eqn:E2; [|discriminate].
    apply stripPrefix_split in E2. subst r1.
    destruct (span _ r2) as [t r3] eqn:E3. cbn [fst snd].
    apply span_split in E3. destruct E3 as (-> & Ht & _).
    destruct (truthyS t) eqn:Tt; [|discriminate].
    destruct (stripPrefix _ r3) as [x|] eqn:E4; [|discriminate].
    apply stripPrefix_split in E4. subst r3.
    destruct (hasLineTerminator x) eqn:Ex; [discriminate|].
    intros H. injection H as <- <- <-.
    repeat split; try assumption.
    unfold q. rewrite !append_assoc. reflexivity.
  - intros (-> & Tb & Hb & Tt & Ht & Hx).
    assert (E : baseSelector +++ ":contains(" +++ q text +++ ")" +++ suffix
                = baseSelector +++ (":contains(" +++ dq) +++ text
                  +++ (dq +++ ")") +++ suffix).
    { unfold q. rewrite !append_assoc. reflexivity. }
    rewrite E.
    rewrite (span_append _ baseSelector) by (assumption || reflexivity).
    cbn [fst snd]. rewrite Tb, stripPrefix_append.
    rewrite (span_append _ text) by (assumption || reflexivity).
    cbn [fst snd]. rewrite Tt, stripPrefix_append, Hx. reflexivity.
Qed.

(** X13.  Every selector of the built-in catalog that uses
    [:contains(] has the form the split accepts, so that none of them
    is passed over for its form. *)
Theorem catalog_contains_selectors_split :
  Forall (fun selector =>
            includes selector ":contains(" = false \/
            exists parts, matchContains selector = Some parts)
         (flat_map selectors COMMON_BANNER_PATTERNS).
Proof.
  assert (H : forallb
                (fun selector =>
                   negb (includes selector ":contains(")
                   || match matchContains selector with
                      | Some _ => true
                      | None => false
                      end)
                (flat_map selectors COMMON_BANNER_PATTERNS) = true)
    by (vm_compute; reflexivity).
  rewrite forallb_forall in H. apply Forall_forall. intros selector Hin.
  specialize (H selector Hin).
  destruct (includes selector ":contains("); [right|now left].
  destruct (matchContains selector) as [parts|]; [eauto|discriminate].
Qed.

Section WithBrowser.
Context {W Elem : Type} {B : Browser W Elem}.

(** X12.  A selector that contains [:contains(] but does not have the
    form the split accepts (for instance because a pseudo-class comes
    first, or the text is in single quotes) is passed over without any
    access to the page: nothing is queried, clicked or logged. *)
Theorem malformed_contains_selector_is_skipped
        (pattern : BannerPattern) (selector : string) (s : State W) :
  includes selector ":contains(" = true ->
  matchContains selector = None ->
  trySelector pattern selector s = (Ok false, s).
Proof.
  intros Hi Hm. unfold trySelector, try_catch, bind, locate.
  rewrite Hi, Hm. reflexivity.
Qed.

(** *** Clicks and removals *)

Lemma actions_app l1 l2 : actions (l1 ++ l2) = (actions l1 + actions l2)%nat.
Proof. unfold actions. now rewrite filter_app, length_app. Qed.

Lemma locate_log selector (s : State W) :
  log (snd (locate selector s)) = log s.
Proof.
  unfold locate. destruct (includes selector ":contains(").
  - destruct (matchContains selector) as [[[b t] x]|]; [|reflexivity].
    unfold lift. now destruct (page_queryContains b t x (world s)).
  - unfold lift. now destruct (page_query selector (world s)).
Qed.

Lemma trySelector_actions pattern selector (s : State W) :
  exists done s' evs,
    trySelector pattern selector s = (Ok done, s') /\
    log s' = log s ++ evs /\
    actions evs = (if done then 1 else 0)%nat.
Proof.
  pose proof (locate_log selector s) as Hl.
  unfold trySelector, try_catch. unfold bind at 1.
  destruct (locate selector s) as [[[el|]|e] s1]; simpl in Hl;
    try (exists false, s1, []; rewrite app_nil_r; now repeat split).
  unfold bind at 1, lift at 1.
  destruct (element_isVisible el (world s1)) as [[[|]|e] w2]; cbn [negb];
    try (eexists false, _, []; rewrite app_nil_r; now repeat split).
  destruct (action pattern).
  - unfold bind at 1, lift at 1. cbn [world log].
    destruct (element_scrollIntoView el w2) as [[[]|e] w3];
      [|eexists false, _, []; rewrite app_nil_r; now repeat split].
    unfold bind at 1. rewrite BannerFacts.sleep_run. cbn [world log].
    unfold bind at 1, lift at 1. cbn [world log].
    destruct (element_click el (setTimeout 200 w3)) as [[[]|e] w4].
    + eexists true, _, [EvSleep 200; EvClick selector]. cbn.
      rewrite Hl, <- app_assoc. now repeat split.
    + eexists false, _, [EvSleep 200]. cbn. rewrite Hl. now repeat split.
  - unfold bind at 1, lift at 1. cbn [world log].
    destruct (element_remove el w2) as [[[]|e] w3].
    + eexists true, _, [EvRemove selector]. cbn. rewrite Hl. now repeat split.
    + eexists false, _, []. cbn. rewrite app_nil_r. now repeat split.
Qed.

Lemma trySelectors_actions pattern l : forall s : State W,
  exists done s' evs,
    trySelectors pattern l s = (Ok done, s') /\
    log s' = log s ++ evs /\
    actions evs = (if done then 1 else 0)%nat.
Proof.
  induction l as [|selector l IH]; intros s.
  - exists false, s, []. rewrite app_nil_r. now repeat split.
  - destruct (trySelector_actions pattern selector s) as (done & s1 & e1 & E1 & L1 & A1).
    cbn [trySelectors]. unfold bind at 1. rewrite E1. destruct done.
    + exists true, s1, e1. now repeat split.
    + destruct (IH s1) as (done & s2 & e2 & E2 & L2 & A2).
      exists done, s2, (e1 ++ e2). split; [exact E2|]. split.
      * now rewrite L2, L1, app_assoc.
      * rewrite actions_app, A1, A2. reflexivity.
Qed.

Lemma trySelector_shape pattern selector (s : State W) :
  exists done s' evs,
    trySelector pattern selector s = (Ok done, s') /\
    log s' = log s ++ evs /\
    if done
    then exists waits,
        evs = waits ++ [match action pattern with
                        | Click => EvClick selector
                        | Remove => EvRemove selector
                        end] /\
        Forall (eq (EvSleep 200)) waits
    else Forall (eq (EvSleep 200)) evs.
Proof.
  pose proof (locate_log selector s) as Hl.
  unfold trySelector, try_catch. unfold bind at 1.
  destruct (locate selector s) as [[[el|]|e] s1]; simpl in Hl;
    try (exists false, s1, []; rewrite app_nil_r; now repeat split).
  unfold bind at 1, lift at 1.
  destruct (element_isVisible el (world s1)) as [[[|]|e] w2]; cbn [negb];
    try (eexists false, _, []; rewrite app_nil_r; now repeat split).
  destruct (action pattern).
  - unfold bind at 1, lift at 1. cbn [world log].
    destruct (element_scrollIntoView el w2) as [[[]|e] w3];
      [|eexists false, _, []; rewrite app_nil_r; now repeat split].
    unfold bind at 1. rewrite BannerFacts.sleep_run. cbn [world log].
    unfold bind at 1, lift at 1. cbn [world log].
    destruct (element_click el (setTimeout 200 w3)) as [[[]|e] w4].
    + eexists true, _, [EvSleep 200; EvClick selector]. cbn.
      rewrite Hl, <- app_assoc. split; [reflexivity|]. split; [reflexivity|].
      exists [EvSleep 200]. split; [reflexivity|]. now repeat constructor.
    + eexists false, _, [EvSleep 200]. cbn. rewrite Hl.
      split; [reflexivity|]. split; [reflexivity|]. now repeat constructor.
  - unfold bind at 1, lift at 1. cbn [world log].
    destruct (element_remove el w2) as [[[]|e] w3].
    + eexists true, _, [EvRemove selector]. cbn. rewrite Hl.
      split; [reflexivity|]. split; [reflexivity|].
      exists []. split; [reflexivity|]. constructor.
    + eexists false, _, []. cbn. rewrite app_nil_r. now repeat split.
Qed.

Lemma waits_no_action waits :
  Forall (eq (EvSleep 200)) waits -> actions waits = 0%nat.
Proof.
  unfold actions. induction 1 as [|e l He _ IH]; [reflexivity|].
  subst e. exact IH.
Qed.

(** X14.  [handleBannerPattern] never throws and acts on at most one
    element per call.  When it returns true it has clicked or removed,
    as the pattern says, exactly one element, found by one of the
    selectors of the pattern, and that was the last thing it did; when
    it returns false it has clicked and removed nothing.  Apart from
    the one action it leaves only waits of 200 milliseconds, one for
    each click it tried. *)
Theorem handleBannerPattern_acts_once (pattern : BannerPattern) (s : State W) :
  exists done s' evs,
    handleBannerPattern pattern s = (Ok done, s') /\
    log s' = log s ++ evs /\
    actions evs = (if done then 1 else 0)%nat /\
    if done
    then exists waits selector,
        In selector (selectors pattern) /\
        evs = waits ++ [match action pattern with
                        | Click => EvClick selector
                        | Remove => EvRemove selector
                        end] /\
        Forall (eq (EvSleep 200)) waits
    else Forall (eq (EvSleep 200)) evs.
Proof.
  unfold handleBannerPattern. revert s.
  induction (selectors pattern) as [|selector l IH]; intros s.
  - exists false, s, []. rewrite app_nil_r. repeat split. constructor.
  - destruct (trySelector_shape pattern selector s)
      as (done & s1 & e1 & E1 & L1 & H1).
    cbn [trySelectors]. unfold bind at 1. rewrite E1. destruct done.
    + destruct H1 as (waits & -> & Hw).
      exists true, s1, (waits ++ [match action pattern with
                                  | Click => EvClick selector
                                  | Remove => EvRemove selector
                                  end]).
      split; [reflexivity|]. split; [exact L1|]. split.
      * rewrite actions_app, (waits_no_action waits Hw).
        now destruct (action pattern).
      * exists waits, selector. split; [now left|]. now split.
    + destruct (IH s1) as (done & s2 & e2 & E2 & L2 & A2 & H2).
      exists done, s2, (e1 ++ e2). split; [exact E2|]. split.
      { now rewrite L2, L1, app_assoc. }
      split.
      { rewrite actions_app, (waits_no_action e1 H1), A2. reflexivity. }
      destruct done.
      * destruct H2 as (waits & sel & Hin & -> & Hw).
        exists (e1 ++ waits), sel. split; [now right|].
        split; [now rewrite app_assoc|].
        apply Forall_app. now split.
      * apply Forall_app. now split.
Qed.

Lemma waitAfter_actions p (s : State W) :
  exists s',
    (match waitAfter p with
     | Some ms => if truthyZ (Some ms) then sleep ms else ret tt
     | None => ret tt
     end) s = (Ok tt, s') /\
    exists evs, log s' = log s ++ evs /\ actions evs = 0%nat.
Proof.
  destruct (waitAfter p) as [ms|].
  - destruct (truthyZ (Some ms)).
    + rewrite BannerFacts.sleep_run. eexists. split; [reflexivity|].
      exists [EvSleep ms]. now split.
    + exists s. split; [reflexivity|]. exists []. now rewrite app_nil_r.
  - exists s. split; [reflexivity|]. exists []. now rewrite app_nil_r.
Qed.

Lemma scanPatterns_actions ps maxTime : forall s : State W,
  exists found s' evs,
    scanPatterns ps maxTime s = (Ok found, s') /\
    log s' = log s ++ evs /\
    actions evs = (if found then 1 else 0)%nat.
Proof.
  induction ps as [|p ps IH]; intros s.
  - exists false, s, []. rewrite app_nil_r. now repeat split.
  - cbn [scanPatterns]. unfold bind at 1. unfold now at 1.
    destruct (maxTime <=? Date_now (world s))%Z.
    { exists false, s, []. rewrite app_nil_r. now repeat split. }
    set (s1 := mkState (world s) (log s ++ [EvTry (name p)])).
    destruct (trySelectors_actions p (selectors p) s1)
      as (done & s2 & inner & E & L2 & A2).
    unfold bind at 1, try_catch, bind at 1, emit at 1. fold s1.
    unfold bind at 1. unfold handleBannerPattern. rewrite E.
    destruct done.
    + unfold bind at 1, emit at 1.
      destruct (waitAfter_actions p
                  (mkState (world s2) (log s2 ++ [EvHandled (name p)])))
        as (s3 & Ew & evs & L3 & A3).
      unfold bind at 1. rewrite Ew. cbn [ret].
      exists true, s3, ([EvTry (name p)] ++ inner ++ [EvHandled (name p)] ++ evs).
      split; [reflexivity|]. split.
      * rewrite L3. cbn [log]. rewrite L2. unfold s1. cbn [log].
        now rewrite <- !app_assoc.
      * rewrite !actions_app, A2, A3. reflexivity.
    + cbn [ret]. destruct (IH s2) as (found & s3 & evs & E3 & L3 & A3).
      rewrite E3. exists found, s3, ([EvTry (name p)] ++ inner ++ evs).
      split; [reflexivity|]. split.
      * rewrite L3, L2. unfold s1. cbn [log]. now rewrite <- !app_assoc.
      * rewrite !actions_app, A2, A3. reflexivity.
Qed.

Lemma bannerLoop_actions ps maxTime :
  forall fuel attempts0 handled0 (s s' : State W) summary,
    bannerLoop fuel ps maxTime attempts0 handled0 s = (Ok (Some summary), s') ->
    exists evs,
      log s' = log s ++ evs /\
      (actions evs + handled0 = bannersHandled summary)%nat.
Proof.
  induction fuel as [|fuel IH]; intros attempts0 handled0 s s' summary H;
    [discriminate|].
  cbn [bannerLoop] in H. unfold bind at 1 in H. unfold now at 1 in H.
  destruct ((Date_now (world s) <? maxTime)%Z && (attempts0 <? maxAttempts)%nat).
  - unfold bind at 1, emit at 1 in H.
    set (s1 := mkState (world s)
                 (log s ++ [EvPass (S attempts0) (Date_now (world s))])) in H.
    destruct (scanPatterns_actions ps maxTime s1) as (found & s2 & evs & E & L2 & A2).
    unfold bind at 1 in H. rewrite E in H. destruct found; cbn [negb] in H.
    + unfold bind at 1 in H. rewrite BannerFacts.sleep_run in H.
      apply IH in H. destruct H as (rest & L & A). cbn [log] in L.
      exists ([EvPass (S attempts0) (Date_now (world s))] ++ evs
              ++ [EvSleep 500] ++ rest).
      split.
      * rewrite L, L2. unfold s1. cbn [log]. now rewrite <- !app_assoc.
      * rewrite !actions_app, A2. cbn. cbn in A. lia.
    + injection H as <- <-.
      exists ([EvPass (S attempts0) (Date_now (world s))] ++ evs). split.
      * rewrite L2. unfold s1. cbn [log]. now rewrite <- app_assoc.
      * rewrite actions_app, A2. reflexivity.
  - injection H as <- <-. exists []. now rewrite app_nil_r.
Qed.

(** X15.  One call of [handleBanners] clicks or removes at most five
    elements, and the count [bannersHandled] it reports is exactly the
    number of elements it clicked or removed. *)
Theorem handleBanners_acts_at_most_five_times (timeout : Z) (s : State W) :
  exists summary s' evs,
    handleBanners timeout s = (Ok (Some summary), s') /\
    log s' = log s ++ evs /\
    actions evs = bannersHandled summary /\
    (bannersHandled summary <= 5)%nat.
Proof.
  destruct (BannerFacts.handleBannersWith_spec COMMON_BANNER_PATTERNS timeout s)
    as (summary & sx & evs0 & E & Erun & _ & _ & Hcap & Hwhy).
  apply bannerLoop_actions in E. destruct E as (evs & L & A). cbn [log] in L.
  exists summary, (mkState (setTimeout 500 (world sx)) (log sx ++ [EvSleep 500])),
    ([EvSleep 800] ++ evs ++ [EvSleep 500]).
  split; [exact Erun|]. split; [|split].
  - cbn [log]. rewrite L. now rewrite <- !app_assoc.
  - rewrite !actions_app. cbn. lia.
  - unfold maxAttempts in Hcap. lia.
Qed.

Lemma handleCustomBanner_log selector (s : State W) :
  exists s' evs,
    handleCustomBanner selector s = (Ok tt, s') /\
    log s' = log s ++ evs /\
    (evs = [] \/ evs = [EvClick selector; EvSleep 1000]).
Proof.
  unfold handleCustomBanner, try_catch. unfold bind at 1, lift at 1.
  destruct (page_query selector (world s)) as [[[el|]|e] w1];
    try (eexists _, []; rewrite app_nil_r; split; [reflexivity|]; now split; [|left]).
  unfold bind at 1, lift at 1. cbn [world log].
  destruct (element_isVisible el w1) as [[[|]|e] w2];
    try (eexists _, []; rewrite app_nil_r; split; [reflexivity|]; now split; [|left]).
  unfold bind at 1, lift at 1. cbn [world log].
  destruct (element_click el w2) as [[[]|e] w3];
    [|eexists _, []; rewrite app_nil_r; split; [reflexivity|]; now split; [|left]].
  unfold bind at 1, emit at 1. rewrite BannerFacts.sleep_run. cbn [world log].
  eexists _, _. split; [reflexivity|]. cbn [log]. rewrite <- app_assoc.
  split; [reflexivity|]. now right.
Qed.

(** X16.  [handleCustomBanners] never throws, whatever the page does
    with the selectors; it clicks each selector of the list at most
    once and in the order of the list, waits one second after each
    click, and does nothing else that is logged. *)
Theorem handleCustomBanners_clicks_in_order
        (customSelectors : list string) (s : State W) :
  exists s' evs,
    handleCustomBanners customSelectors s = (Ok tt, s') /\
    log s' = log s ++ evs /\
    Subseq (clicked evs) customSelectors /\
    evs = flat_map (fun selector => [EvClick selector; EvSleep 1000])
                   (clicked evs).
Proof.
  revert s. induction customSelectors as [|selector l IH]; intros s.
  - exists s, []. rewrite app_nil_r. repeat split. constructor.
  - destruct (handleCustomBanner_log selector s) as (s1 & e1 & E1 & L1 & H1).
    destruct (IH s1) as (s2 & e2 & E2 & L2 & S2 & F2).
    cbn [handleCustomBanners]. unfold bind at 1. rewrite E1.
    exists s2, (e1 ++ e2). split; [exact E2|]. split.
    + now rewrite L2, L1, app_assoc.
    + destruct H1 as [->| ->]; cbn.
      * split; [now constructor|assumption].
      * split; [now constructor|]. do 2 f_equal. exact F2.
Qed.

End WithBrowser.

End BannerCoverage.

(** ** The orchestrator *)

Module CaptureCoverage.
Import VideoThumbnailDetector BrowserManager PlainCapture.
Import CaptureSpec CaptureFacts Observed.

Section WithBrowser.
Context {W Elem : Type} {B : Browser W Elem}.

(** *** The [isVideoThumbnail] flag *)

Lemma cropOrRegular_flag options (s : State W) exit s' :
  cropOrRegular options s = (Ok exit, s') ->
  exists evs,
    log s' = log s ++ evs /\ (exitFlag exit = false <-> In EvScreenshot evs).
Proof.
  unfold cropOrRegular.
  destruct (detectVideoRegionAndCrop_runs s) as (o & s1 & E & Hlog).
  unfold bind at 1. rewrite E. destruct o as [img|].
  - intros H. injection H as <- <-. exists [EvCrop]. split; [exact Hlog|].
    simpl. split; [discriminate|]. intros [H|[]]. discriminate.
  - pose proof (takeRegularScreenshot_log options s1) as Hr.
    unfold bind. destruct (takeRegularScreenshot options s1) as [[img|e] s2];
      simpl in Hr; intros H; [|discriminate].
    injection H as <- <-. exists [EvCrop; EvScreenshot]. split.
    + rewrite Hr, Hlog, <- app_assoc. reflexivity.
    + simpl. split; [tauto|reflexivity].
Qed.

Lemma decide_flag options d (s : State W) exit s' :
  decide options d s = (Ok exit, s') ->
  exists evs,
    log s' = log s ++ evs /\ (exitFlag exit = false <-> In EvScreenshot evs).
Proof.
  unfold decide. destruct (thumbnail d) as [t|].
  - destruct (shouldReturnUrlDirectly t).
    + intros H. injection H as <- <-. exists []. rewrite app_nil_r.
      split; [reflexivity|]. simpl. split; [discriminate|contradiction].
    + pose proof (fetchThumbnail_log (url t) s) as Hf.
      unfold try_catch, bind at 1.
      destruct (fetchThumbnail (url t) s) as [[img|e] s1]; simpl in Hf.
      * intros H. injection H as <- <-. exists [EvFetch (url t)].
        split; [exact Hf|]. simpl. split; [discriminate|].
        intros [H|[]]. discriminate.
      * intros H. apply cropOrRegular_flag in H. destruct H as (evs & Hlog & Hflag).
        exists (EvFetch (url t) :: evs). split.
        { rewrite Hlog, Hf, <- app_assoc. reflexivity. }
        rewrite Hflag. simpl. split; [tauto|]. intros [H|H]; [discriminate|exact H].
  - destruct (hasVideo d).
    + apply cropOrRegular_flag.
    + pose proof (takeRegularScreenshot_log options s) as Hr.
      unfold bind. destruct (takeRegularScreenshot options s) as [[img|e] s1];
        simpl in Hr; intros H; [|discriminate].
      injection H as <- <-. exists [EvScreenshot]. split; [exact Hr|].
      simpl. split; [tauto|reflexivity].
Qed.

Lemma capture_flag options (s : State W) x s2 :
  capture options s = (Ok x, s2) ->
  exists evs,
    log s2 = log s ++ evs /\
    (isVideoThumbnail (finish x) = false <-> In EvScreenshot evs).
Proof.
  unfold capture. destruct (detectVideoThumbnails options).
  - destruct (attempt_detect s) as (d & s1 & Ea & Hlog1).
    unfold bind at 1. rewrite Ea.
    destruct (decide options d s1) as [out s1'] eqn:Ed.
    unfold try_catch, bind at 1. rewrite Ed. destruct out as [exit|e].
    + intros H. injection H as <- <-.
      apply decide_flag in Ed. destruct Ed as (evs & Hlog & Hflag).
      exists evs. rewrite <- Hlog1. split; [exact Hlog|].
      unfold finish. cbn [fst snd]. destruct exit; exact Hflag.
    + apply decide_spec in Ed. destruct Ed as (evs & Hlog & _).
      pose proof (takeRegularScreenshot_log options s1') as Hr.
      unfold bind. destruct (takeRegularScreenshot options s1') as [[img|e'] s3];
        simpl in Hr; intros H; [|discriminate].
      injection H as <- <-. exists (evs ++ [EvScreenshot]). split.
      * rewrite Hr, Hlog, Hlog1, <- app_assoc. reflexivity.
      * unfold finish. cbn. split; [|reflexivity].
        intros _. apply in_or_app. right. now left.
  - pose proof (takeRegularScreenshot_log options s) as Hr.
    unfold bind. destruct (takeRegularScreenshot options s) as [[img|e'] s3];
      simpl in Hr; intros H; [|discriminate].
    injection H as <- <-. exists [EvScreenshot]. split; [exact Hr|].
    unfold finish. cbn. split; [tauto|reflexivity].
Qed.

(** X17.  In a returned result, [isVideoThumbnail] is false exactly
    when the plain capture of the page was taken during the call: a
    returned address, downloaded thumbnail bytes and a cropped video
    region carry the flag, the ordinary screenshot does not. *)
Theorem flag_tells_plain_capture
        (pageUrl : string) (options : ScreenshotOptions)
        (s : State W) (r : ScreenshotResult) (s' : State W) :
  takeIntelligentScreenshot pageUrl options s = (Ok r, s') ->
  exists evs,
    log s' = log s ++ evs /\
    (isVideoThumbnail r = false <-> In EvScreenshot evs).
Proof.
  intros H. apply take_inv in H.
  destruct H as (s1 & s2 & x & pre & Hcap & -> & Hpre & Hban & Hend).
  apply capture_flag in Hcap. destruct Hcap as (evs & Hlog & Hflag).
  exists (pre ++ evs). split.
  - rewrite Hend, Hlog, Hpre, <- app_assoc. reflexivity.
  - rewrite Hflag. split.
    + intros Hin. apply in_or_app. now right.
    + intros Hin. apply in_app_or in Hin. destruct Hin as [Hin|Hin]; [|exact Hin].
      rewrite Forall_forall in Hban. specialize (Hban _ Hin). discriminate.
Qed.

(** *** The plain method *)

Lemma close_world (s1 s2 : State W) :
  world s1 = world s2 ->
  world (snd (try_catch (lift page_close) (fun _ => ret tt) s1))
  = world (snd (try_catch (lift page_close) (fun _ => ret tt) s2)).
Proof.
  intros H. unfold try_catch, lift. rewrite H.
  destruct (page_close (world s2)) as [[u|e] w]; reflexivity.
Qed.

Lemma agree_bind {A} (m : M W A) k1 k2 (s : State W) :
  (forall a s', Agree (k1 a s') (k2 a s')) ->
  Agree (bind m k1 s) (bind m k2 s).
Proof.
  intros H. unfold bind. destruct (m s) as [[a|e] s']; [apply H|now split].
Qed.

Lemma agree_finally (m1 : M W Buffer) (m2 : M W ScreenshotResult) (s : State W) :
  Agree (m1 s) (m2 s) ->
  Agree (finally m1 (try_catch (lift page_close) (fun _ => ret tt)) s)
        (finally m2 (try_catch (lift page_close) (fun _ => ret tt)) s).
Proof.
  unfold finally, Agree. destruct (m1 s) as [r1 s1], (m2 s) as [r2 s2].
  cbn [fst snd]. intros [Hw Hr]. split; [now apply close_world|exact Hr].
Qed.

Lemma wrapped_agree (m1 : M W Buffer) (m2 : M W ScreenshotResult) (s : State W) :
  Agree (m1 s) (m2 s) ->
  match try_catch m1 (fun message => throw ("Screenshot failed: " +++ message)) s with
  | (Ok bytes, s1) =>
      exists s2,
        try_catch m2 (fun message =>
                        throw ("Intelligent screenshot failed: " +++ message)) s
        = (Ok (mkResult (Some bytes) None false None), s2) /\
        world s2 = world s1
  | (Throw message, s1) =>
      exists cause s2,
        message = "Screenshot failed: " +++ cause /\
        try_catch m2 (fun message =>
                        throw ("Intelligent screenshot failed: " +++ message)) s
        = (Throw ("Intelligent screenshot failed: " +++ cause), s2) /\
        world s2 = world s1
  end.
Proof.
  unfold try_catch, Agree, throw.
  destruct (m1 s) as [[bytes|e1] s1], (m2 s) as [[r|e2] s2]; cbn [fst snd];
    intros [Hw Hr]; try contradiction; subst.
  - exists s2. now split.
  - exists e2, s2. now repeat split.
Qed.

(** X18.  With video detection switched off, [takeIntelligentScreenshot]
    does what [takeScreenshot] does: it leaves the browser in the same
    state and returns the same bytes, as an image that is not a video
    thumbnail and without detection result; when one fails so does the
    other, with the same cause behind a different prefix. *)
Theorem plain_methods_agree
        (pageUrl : string) (options : ScreenshotOptions) (s : State W) :
  detectVideoThumbnails options = false ->
  match takeScreenshot pageUrl options s with
  | (Ok bytes, s1) =>
      exists s2,
        takeIntelligentScreenshot pageUrl options s
        = (Ok (mkResult (Some bytes) None false None), s2) /\
        world s2 = world s1
  | (Throw message, s1) =>
      exists cause s2,
        message = "Screenshot failed: " +++ cause /\
        takeIntelligentScreenshot pageUrl options s
        = (Throw ("Intelligent screenshot failed: " +++ cause), s2) /\
        world s2 = world s1
  end.
Proof.
  intros Hd. unfold takeScreenshot, takeIntelligentScreenshot.
  apply wrapped_agree.
  apply agree_bind. intros _ s0. apply agree_finally.
  apply agree_bind. intros _ s1.
  apply agree_bind. intros _ s2.
  apply agree_bind. intros _ s3.
  unfold capture. rewrite Hd. unfold takeRegularScreenshot.
  unfold bind, emit, lift. cbn [world log].
  destruct (page_screenshot _ (world s3)) as [[bytes|e] w2]; now split.
Qed.

(** *** A page that cannot be read *)

Lemma detectVideoThumbnail_unreadable (s : State W) e w :
  page_evaluate (world s) = (Throw e, w) ->
  detectVideoThumbnail s = (Ok (mkDetection false None []), mkState w (log s)).
Proof.
  intros H. unfold detectVideoThumbnail, try_catch.
  unfold bind at 1, evaluate, bind at 1, lift. rewrite H. reflexivity.
Qed.

Lemma capture_unreadable options (s : State W) :
  LinkAlive B ->
  (forall w, exists e w', page_evaluate w = (Throw e, w')) ->
  detectVideoThumbnails options = true ->
  exists bytes s',
    capture options s
    = (Ok (Some (mkDetection false None []), Captured bytes false), s').
Proof.
  intros HL Hblind Hd. unfold capture. rewrite Hd.
  destruct (Hblind (world s)) as (e & w & Hread).
  assert (Ea : attempt detectVideoThumbnail s
               = (Ok (Ok (mkDetection false None [])), mkState w (log s))).
  { unfold attempt, try_catch, bind.
    now rewrite (detectVideoThumbnail_unreadable s e w Hread). }
  unfold bind at 1. rewrite Ea. unfold try_catch, bind at 1, decide.
  cbn [thumbnail hasVideo].
  destruct (CaptureTheorems.takeRegularScreenshot_alive
              options (mkState w (log s)) HL) as (bytes & s3 & E).
  unfold bind at 1. rewrite E. cbn [ret]. eexists. eexists. reflexivity.
Qed.

(** X19.  When the scripts of the detector cannot read the page while
    the link to it holds, the detection is given up without error:
    the result is the plain capture, it is not a video thumbnail, and
    it carries a detection result without video and without
    candidates. *)
Theorem unreadable_page_gets_plain_capture
        (pageUrl : string) (options : ScreenshotOptions) (s : State W) :
  LinkAlive B ->
  (forall w, exists e w', page_evaluate w = (Throw e, w')) ->
  detectVideoThumbnails options = true ->
  exists bytes s',
    takeIntelligentScreenshot pageUrl options s
    = (Ok (mkResult (Some bytes) None false (Some (mkDetection false None []))),
       s').
Proof.
  intros HL Hblind Hd.
  unfold takeIntelligentScreenshot, try_catch.
  unfold bind at 1, lift at 1.
  destruct (alive_newPage B HL (world s)) as (w0 & ->).
  unfold finally.
  unfold bind at 1, lift at 1. cbn [world log].
  destruct (alive_goto B HL pageUrl w0) as (w1 & ->).
  unfold bind at 1. rewrite BannerFacts.sleep_run.
  match goal with |- context [bind (dismissBanners options) ?k ?s1] =>
    destruct (Total_dismissBanners options s1) as (u & sb & Eb) end.
  unfold bind at 1. rewrite Eb.
  destruct (capture_unreadable options sb HL Hblind Hd) as (bytes & sc & Ec).
  unfold bind at 1. rewrite Ec. cbn [snd fst ret].
  eexists. eexists. reflexivity.
Qed.

(** *** Timers *)

Lemma inject_silent (flag : bool) (s : State W) :
  exists s0,
    (if flag then BannerHandler.injectBannerBlockingCSS else ret tt) s = (Ok tt, s0) /\
    log s0 = log s.
Proof.
  destruct flag; [|now exists s].
  unfold BannerHandler.injectBannerBlockingCSS, try_catch, lift.
  destruct (page_addStyleTag BannerHandler.blockingCSS (world s)) as [[[]|e] w];
    eexists; split; reflexivity.
Qed.

Lemma custom_runs (l : list string) (s : State W) :
  exists s' evs,
    (if (0 <? List.length l)%nat
     then BannerHandler.handleCustomBanners l else ret tt) s = (Ok tt, s') /\
    log s' = log s ++ evs.
Proof.
  destruct (0 <? List.length l)%nat.
  - assert (T : Total (BannerHandler.handleCustomBanners (W := W) l)).
    { induction l as [|selector l IH]; simpl; [apply Total_ret|].
      apply Total_bind; [|intros _; exact IH].
      unfold BannerHandler.handleCustomBanner.
      apply Total_try_catch. intros e. apply Total_ret. }
    destruct (T s) as ([] & s' & E).
    destruct (Emits_handleCustomBanners l s) as (evs & L & _).
    rewrite E in L. exists s', evs. now split.
  - exists s, []. rewrite app_nil_r. now split.
Qed.

Lemma dismissBanners_waits options (s : State W) :
  handleBanners options = true ->
  exists s' mid tail,
    dismissBanners options s = (Ok tt, s') /\
    log s' = log s ++ EvSleep 800 :: mid ++ EvSleep 500 :: tail.
Proof.
  intros Hon. unfold dismissBanners. rewrite Hon. unfold try_catch.
  destruct (inject_silent (injectBannerBlockingCSS options) s) as (s0 & E0 & L0).
  unfold bind at 1. rewrite E0.
  destruct (BannerFacts.handleBannersWith_spec
              BannerHandler.COMMON_BANNER_PATTERNS (bannerTimeout options) s0)
    as (summary & sx & mid & _ & Erun & Lx & _).
  unfold bind at 1. unfold BannerHandler.handleBanners. rewrite Erun.
  destruct (custom_runs (customBannerSelectors options)
              (mkState (setTimeout 500 (world sx)) (log sx ++ [EvSleep 500])))
    as (s' & tail & Ec & Lc).
  rewrite Ec. exists s', mid, tail. split; [reflexivity|].
  rewrite Lc. cbn [log]. rewrite Lx, L0. rewrite <- !app_assoc. reflexivity.
Qed.

(** X28.  A call of [takeIntelligentScreenshot] that returns with
    banner handling on has awaited, on any page, a timer of 1000
    milliseconds right after navigation, then 800 milliseconds before
    the banner loop and 500 milliseconds after it: at least 2300
    milliseconds of timers in every such call. *)
Theorem timers_of_a_returned_call
        (pageUrl : string) (options : ScreenshotOptions)
        (s : State W) (r : ScreenshotResult) (s' : State W) :
  takeIntelligentScreenshot pageUrl options s = (Ok r, s') ->
  handleBanners options = true ->
  exists mid tail,
    log s' = log s ++ EvSleep 1000 :: EvSleep 800 :: mid ++ EvSleep 500 :: tail.
Proof.
  unfold takeIntelligentScreenshot. intros H Hon.
  apply try_catch_cases in H. destruct H as [(a & H & Ha)|(e & s0 & _ & H)];
    [|discriminate].
  injection Ha as <-.
  apply bind_ok in H. destruct H as (u & s0 & Hnew & H).
  unfold finally in H.
  match type of H with (let (_, _) := ?body s0 in _) = _ =>
    destruct (body s0) as [res s2] eqn:Eb end.
  injection H as -> <-.
  apply bind_ok in Eb. destruct Eb as (u1 & sa & Hgoto & Eb).
  apply bind_ok in Eb. destruct Eb as (u2 & sb & Hsleep & Eb).
  apply bind_ok in Eb. destruct Eb as (u3 & sc & Hban & Eb).
  apply bind_ok in Eb. destruct Eb as (x & sd & Hcap & Eb).
  destruct (step_log (fun _ => False) _ _ _ _ (Emits_lift _ _) Hnew) as (e0 & L0 & F0).
  destruct (step_log (fun _ => False) _ _ _ _ (Emits_lift _ _) Hgoto) as (e1 & L1 & F1).
  destruct e0 as [|? ?]; [|inversion F0; contradiction].
  destruct e1 as [|? ?]; [|inversion F1; contradiction].
  rewrite app_nil_r in L0, L1.
  rewrite BannerFacts.sleep_run in Hsleep. injection Hsleep as _ <-.
  destruct (dismissBanners_waits options
              (mkState (setTimeout 1000 (world sa)) (log sa ++ [EvSleep 1000])) Hon)
    as (sc' & mid & tail & Ed & Ld).
  rewrite Ed in Hban. injection Hban as _ <-.
  apply capture_spec in Hcap. destruct Hcap as (evs & Lcap & _).
  assert (sd = s2) as ->.
  { destruct (snd x); injection Eb as _ <-; reflexivity. }
  assert (Lend : log (snd (try_catch (lift page_close) (fun _ => ret tt) s2)) = log s2).
  { apply (Emits_silent (try_catch (lift page_close) (fun _ => ret tt))).
    apply Emits_try_catch; [apply Emits_lift|intros ?; apply Emits_ret]. }
  exists mid, (tail ++ evs).
  rewrite Lend, Lcap, Ld. cbn [log]. rewrite L1, L0.
  repeat first [rewrite <- app_assoc | progress cbn [app]]. reflexivity.
Qed.

End WithBrowser.

End CaptureCoverage.

(** ** The API key middleware *)

Module AuthCoverage.
Import Auth.

(** X20.  The decision of [validateApiKey], with the key read from the
    header and, when the header is missing or empty, from the query:
    with [API_KEY] set, a request passes exactly when that key equals
    it, so that a wrong header is refused even beside a right query
    parameter; with only [REQUIRE_API_KEY] set, every non-empty key
    passes; with neither set, every request passes. *)
Theorem validateApiKey_decision (env : Env) (req : Credentials) :
  passes (validateApiKey env req) =
  match orElse (header_x_api_key req) (query_apiKey req), API_KEY env with
  | Some key, Some valid =>
      if truthyS valid then String.eqb key valid
      else if truthyO (REQUIRE_API_KEY env) then truthyS key else true
  | Some key, None =>
      if truthyO (REQUIRE_API_KEY env) then truthyS key else true
  | None, Some valid =>
      if truthyS valid then false
      else negb (truthyO (REQUIRE_API_KEY env))
  | None, None => negb (truthyO (REQUIRE_API_KEY env))
  end.
Proof.
  unfold validateApiKey.
  destruct (orElse (header_x_api_key req) (query_apiKey req)) as [key|];
    destruct (API_KEY env) as [valid|]; cbn [truthyO differs];
    try destruct (truthyS valid) eqn:Tv;
    destruct (truthyO (REQUIRE_API_KEY env));
    try destruct (truthyS key) eqn:Tk; cbn;
    try destruct (String.eqb_spec key valid) as [->|]; cbn;
    try reflexivity; congruence.
Qed.

(** X21.  [optionalApiKey] is the weaker check: it lets through every
    request that [validateApiKey] lets through, and every request
    without key. *)
Theorem optionalApiKey_is_weaker (env : Env) (req : Credentials) :
  (passes (validateApiKey env req) = true \/
   truthyO (orElse (header_x_api_key req) (query_apiKey req)) = false) ->
  passes (optionalApiKey env req) = true.
Proof.
  unfold validateApiKey, optionalApiKey.
  destruct (truthyO (orElse (header_x_api_key req) (query_apiKey req)));
    cbn [negb]; [|reflexivity].
  intros [H|H]; [|discriminate]. revert H.
  destruct (negb (truthyO (API_KEY env)) && negb (truthyO (REQUIRE_API_KEY env)))
    eqn:Edev.
  - destruct (API_KEY env) as [valid|]; [|reflexivity].
    cbn [truthyO] in Edev. destruct (truthyS valid); [discriminate|reflexivity].
  - destruct (API_KEY env) as [valid|]; [|reflexivity].
    destruct (truthyS valid && differs _ valid); [discriminate|reflexivity].
Qed.

End AuthCoverage.

(** ** The screenshot route *)

Module RouteCoverage.
Import VideoThumbnailDetector BrowserManager ScreenshotRoute.
Import CaptureSpec CaptureFacts Observed.

(** *** The host test *)

Lemma prefix_nil s : String.prefix "" s = true.
Proof. now destruct s. Qed.

Ltac blocked :=
  intros; unfold blockedHostname, dotted; cbn; rewrite ?prefix_nil; reflexivity.

(** X22.  With blocking on, the host test refuses [localhost], every
    dotted quad of the private ranges 10.0.0.0/8, 172.16.0.0/12 and
    192.168.0.0/16, and the loopback address 127.0.0.1. *)
Theorem private_hosts_are_blocked :
  blockedHostname "localhost" = true /\
  blockedHostname (dotted 127 0 0 1) = true /\
  (forall b c d, blockedHostname (dotted 10 b c d) = true) /\
  (forall c d, blockedHostname (dotted 192 168 c d) = true) /\
  Forall (fun b => forall c d, blockedHostname (dotted 172 b c d) = true)
         (seq 16 16).
Proof.
  split; [reflexivity|]. split; [reflexivity|].
  split; [blocked|]. split; [blocked|].
  repeat (constructor; [blocked|]). constructor.
Qed.

(** X23.  The prefix [172.2] of the host test is wider than the
    private range it is meant for: the public addresses 172.2.c.d and
    172.200.c.d to 172.255.c.d are refused as well. *)
Theorem public_hosts_are_blocked_too :
  Forall (fun b => forall c d, blockedHostname (dotted 172 b c d) = true)
         (2%nat :: seq 200 56).
Proof.
  repeat (constructor; [blocked|]). constructor.
Qed.

Lemma string_of_uint_digits u :
  allChars notDot (NilEmpty.string_of_uint u) = true.
Proof. unfold allChars. induction u; simpl; auto. Qed.

Lemma decimal_digits n : allChars notDot (decimal n) = true.
Proof. apply string_of_uint_digits. Qed.

Lemma decimal_injective a b : decimal a = decimal b -> a = b.
Proof.
  unfold decimal. intros H.
  apply (f_equal NilEmpty.uint_of_string) in H. rewrite !NilEmpty.usu in H.
  injection H as H. apply (f_equal Nat.of_uint) in H.
  now rewrite !DecimalNat.Unsigned.of_to in H.
Qed.

Lemma split_at_dot a a' rest rest' :
  allChars notDot a = true -> allChars notDot a' = true ->
  a +++ "." +++ rest = a' +++ "." +++ rest' -> a = a' /\ rest = rest'.
Proof.
  intros Ha Ha' H.
  pose proof (span_append notDot a ("." +++ rest) Ha eq_refl) as E.
  pose proof (span_append notDot a' ("." +++ rest') Ha' eq_refl) as E'.
  rewrite H, E' in E. simpl in E. injection E as -> ->. now split.
Qed.

Lemma blocked_loopback rest :
  blockedHostname ("127." +++ rest) = String.eqb rest "0.0.1".
Proof.
  unfold blockedHostname. cbn. now destruct (String.eqb rest "0.0.1").
Qed.

(** X24.  Of the dotted quads of the loopback range 127.0.0.0/8 the
    host test refuses 127.0.0.1 and no other. *)
Theorem loopback_is_blocked_at_one_address_only (b c d : nat) :
  blockedHostname (dotted 127 b c d) = true <->
  b = 0%nat /\ c = 0%nat /\ d = 1%nat.
Proof.
  split; [|intros (-> & -> & ->); reflexivity].
  change (dotted 127 b c d)
    with ("127." +++ decimal b +++ "." +++ decimal c +++ "." +++ decimal d).
  rewrite blocked_loopback. intros H. apply String.eqb_eq in H.
  change "0.0.1"%string with (decimal 0 +++ "." +++ decimal 0 +++ "." +++ decimal 1) in H.
  apply split_at_dot in H; try apply decimal_digits. destruct H as [Hb H].
  apply split_at_dot in H; try apply decimal_digits. destruct H as [Hc Hd].
  apply decimal_injective in Hb, Hc, Hd. now repeat split.
Qed.

(** *** The handler *)

Section WithBrowser.
Context {W Elem : Type} {B : Browser W Elem}.

Lemma take_throws_with_prefix pageUrl options (s : State W) e s' :
  takeIntelligentScreenshot pageUrl options s = (Throw e, s') ->
  exists cause, e = "Intelligent screenshot failed: " +++ cause.
Proof.
  unfold takeIntelligentScreenshot. intros H.
  apply try_catch_cases in H. destruct H as [(a & _ & Ha)|(e0 & s1 & _ & H)];
    [discriminate|].
  injection H as <- _. now exists e0.
Qed.

Lemma take_result pageUrl options (s : State W) r s' :
  takeIntelligentScreenshot pageUrl options s = (Ok r, s') ->
  (exists d t,
      r = mkResult None (Some (url t)) true (Some d) /\ thumbnail d = Some t) \/
  (exists bytes, image r = Some bytes /\ thumbnailUrl r = None).
Proof.
  intros H. apply take_inv in H.
  destruct H as (s1 & s2 & x & pre & Hcap & -> & _).
  apply capture_spec in Hcap. destruct Hcap as (evs & _ & Hcase).
  unfold finish. destruct (snd x) as [res|bytes v].
  - left. destruct Hcase as (d & t & _ & Ht & _ & -> & _). eauto.
  - right. exists bytes. now split.
Qed.


End WithBrowser.

End RouteCoverage.

(** ** The browser handle *)

Module LifecycleCoverage.
Import BrowserLifecycle.

Section WithPuppeteer.
Context {W Handle : Type} {P : Puppeteer W Handle}.

(** X26.  The browser is launched once: after [getBrowser] has handed
    out a handle, the next call hands out the same handle without
    launching anything, and a warm-up leaves manager and world as they
    are; a launch that throws leaves the manager as it was.  A warm-up
    never changes the flag [isInitializing], whether the launch
    succeeds or throws. *)
Theorem browser_is_launched_once (m : Manager Handle) (w : W) :
  match getBrowser m w with
  | (Ok b, m1, w1) =>
      getBrowser m1 w1 = (Ok b, m1, w1) /\ warmUp m1 w1 = (m1, w1)
  | (Throw _, m1, _) => m1 = m
  end /\
  isInitializing (fst (warmUp m w)) = isInitializing m.
Proof.
  split.
  - unfold getBrowser, warmUp. destruct (browser m) as [b0|] eqn:Eb.
    + rewrite Eb. now split.
    + destruct (puppeteer_launch w) as [[b1|e] w']; [now split|reflexivity].
  - unfold warmUp. destruct (isSome (browser m) || isInitializing m) eqn:E;
      [reflexivity|].
    apply orb_false_iff in E. destruct E as [_ E].
    destruct (getBrowser _ w) as [[r m'] w']. cbn. now rewrite E.
Qed.

(** X27.  After a [cleanup] that returns, the manager holds no
    browser: the status is reported as not connected without any call
    to a browser, and a second [cleanup] does nothing.  After a
    [cleanup] that throws, the manager still holds the browser whose
    close failed, and [getBrowser] hands out that same handle instead
    of launching a new browser. *)
Theorem cleanup_forgets_browser_unless_close_fails
        (m : Manager Handle) (w : W) :
  match cleanup m w with
  | (Ok _, m1, w1) =>
      browser m1 = None /\
      getStatus m1 w1 = (mkStatus false None None, w1) /\
      cleanup m1 w1 = (Ok tt, m1, w1)
  | (Throw _, m1, w1) =>
      m1 = m /\
      exists b, browser m = Some b /\ getBrowser m1 w1 = (Ok b, m1, w1)
  end.
Proof.
  unfold cleanup, getStatus, getBrowser. destruct (browser m) as [b|] eqn:Eb.
  - destruct (browser_close b w) as [[u|e] w']; cbn.
    + now repeat split.
    + split; [reflexivity|]. exists b. rewrite Eb. now split.
  - rewrite Eb. now repeat split.
Qed.

End WithPuppeteer.

End LifecycleCoverage.

(** ** Instances of the further properties *)

Module CoverageExamples.
Import VideoThumbnailDetector BannerHandler BrowserManager PlainCapture.
Import Spec CaptureSpec Observed Samples ToyPages.

Lemma blind_alive : LinkAlive blind.
Proof.
  constructor.
  - intros w. now exists w.
  - intros u w. now exists w.
  - intros o w H. simpl. eexists. now exists w.
Qed.

(** A size supplied by the extractor is kept: the page shows every
    image as 1280x720, the candidate stays at 640x360. *)
Lemma validated_candidate_witness :
  validateCandidate (B := Toy.browser) sizedCandidate (start hdPage)
  = (Ok (Some (validatedOn hdPage sizedCandidate)),
     snd (validateCandidate (B := Toy.browser) sizedCandidate (start hdPage))) /\
  width (validatedOn hdPage sizedCandidate) = Some 640%Z /\
  source (validatedOn hdPage sizedCandidate) = source sizedCandidate /\
  method (validatedOn hdPage sizedCandidate) = method sizedCandidate /\
  exists w h,
    width (validatedOn hdPage sizedCandidate) = Some w /\
    height (validatedOn hdPage sizedCandidate) = Some h /\
    aspectRatio (validatedOn hdPage sizedCandidate) =
      (if (w =? 0)%Z || (h =? 0)%Z then aspectRatio sizedCandidate
       else Some (inject_Z w / inject_Z h)) /\
    (truthyZ (width sizedCandidate) && truthyZ (height sizedCandidate) = true ->
     width sizedCandidate = Some w /\ height sizedCandidate = Some h).
Proof.
  assert (Ev : validateCandidate (B := Toy.browser) sizedCandidate (start hdPage)
               = (Ok (Some (validatedOn hdPage sizedCandidate)),
                  snd (validateCandidate (B := Toy.browser) sizedCandidate
                         (start hdPage))))
    by (vm_compute; reflexivity).
  split; [exact Ev|]. split; [vm_compute; reflexivity|].
  exact (DetectorCoverage.validated_candidate_is_measured (B := Toy.browser)
           sizedCandidate (validatedOn hdPage sizedCandidate) (start hdPage)
           (snd (validateCandidate (B := Toy.browser) sizedCandidate (start hdPage)))
           Ev).
Defined.


(** A [video] element without box hides a container that passes the
    player test. *)
Lemma unsized_video_witness :
  plausiblePlayer playerBox = true /\
  videoContainers (Toy.dom (playerPage true)) = [playerBox] /\
  detectVideoRegionAndCrop (B := Toy.browser) (start (playerPage true))
  = (Ok None, mkState (playerPage true) [EvCrop]).
Proof.
  split; [vm_compute; reflexivity|]. split; [reflexivity|].
  apply (DetectorCoverage.unsized_video_prevents_crop (B := Toy.browser)
           (fun w => Toy.dom w = Toy.dom (playerPage true))
           (Toy.dom (playerPage true)) (start (playerPage true))
           (mkVideo "" (fun _ => None) (mkRect 0 0 0 0)) []).
  - apply CaptureExamples.toy_reads.
  - reflexivity.
  - reflexivity.
  - left. apply Z.leb_le. vm_compute. reflexivity.
Defined.

Lemma container_region_witness :
  videos (Toy.dom (playerPage false)) = [] /\
  findVideoRegion (Toy.dom (playerPage false)) = Some (mkRegion 10 20 640 360) /\
  (300 <= 640)%Z /\ (200 <= 360)%Z /\
  exists rect,
    In rect (videoContainers (Toy.dom (playerPage false))) /\
    plausiblePlayer rect = true /\
    mkRegion 10 20 640 360 = roundRect rect.
Proof.
  assert (Ef : findVideoRegion (Toy.dom (playerPage false))
               = Some (mkRegion 10 20 640 360)) by (vm_compute; reflexivity).
  split; [reflexivity|]. split; [exact Ef|].
  exact (DetectorCoverage.container_region_is_player_sized
           (Toy.dom (playerPage false)) (mkRegion 10 20 640 360) eq_refl Ef).
Defined.

Lemma malformed_selector_witness :
  includes pseudoClassSelector ":contains(" = true /\
  matchContains pseudoClassSelector = None /\
  trySelector (B := Toy.browser) cookieAcceptAll pseudoClassSelector
              (start (Toy.mkWorld 0 Toy.plainDom [pseudoClassSelector]))
  = (Ok false, start (Toy.mkWorld 0 Toy.plainDom [pseudoClassSelector])).
Proof.
  assert (Hi : includes pseudoClassSelector ":contains(" = true)
    by (vm_compute; reflexivity).
  assert (Hm : matchContains pseudoClassSelector = None)
    by (vm_compute; reflexivity).
  split; [exact Hi|]. split; [exact Hm|].
  exact (BannerCoverage.malformed_contains_selector_is_skipped
           (B := Toy.browser) cookieAcceptAll pseudoClassSelector
           (start (Toy.mkWorld 0 Toy.plainDom [pseudoClassSelector])) Hi Hm).
Defined.

Lemma flag_witness :
  run Toy.plain = (Ok (resultOf Toy.plain), snd (run Toy.plain)) /\
  isVideoThumbnail (resultOf Toy.plain) = false /\
  exists evs,
    log (snd (run Toy.plain)) = log (start Toy.plain) ++ evs /\
    (isVideoThumbnail (resultOf Toy.plain) = false <-> In EvScreenshot evs).
Proof.
  assert (E : run Toy.plain = (Ok (resultOf Toy.plain), snd (run Toy.plain)))
    by (vm_compute; reflexivity).
  split; [exact E|]. split; [vm_compute; reflexivity|].
  exact (CaptureCoverage.flag_tells_plain_capture (B := Toy.browser)
           "https://x/" defaultOptions (start Toy.plain)
           (resultOf Toy.plain) (snd (run Toy.plain)) E).
Defined.

Lemma timers_witness :
  run Toy.plain = (Ok (resultOf Toy.plain), snd (run Toy.plain)) /\
  handleBanners defaultOptions = true /\
  exists mid tail,
    log (snd (run Toy.plain))
    = log (start Toy.plain)
      ++ EvSleep 1000 :: EvSleep 800 :: mid ++ EvSleep 500 :: tail.
Proof.
  assert (E : run Toy.plain = (Ok (resultOf Toy.plain), snd (run Toy.plain)))
    by (vm_compute; reflexivity).
  split; [exact E|]. split; [reflexivity|].
  exact (CaptureCoverage.timers_of_a_returned_call (B := Toy.browser)
           "https://x/" defaultOptions (start Toy.plain)
           (resultOf Toy.plain) (snd (run Toy.plain)) E eq_refl).
Defined.

Lemma plain_methods_witness :
  detectVideoThumbnails plainOptions = false /\
  match takeScreenshot (B := Toy.browser) "https://x/" plainOptions (start hdPage) with
  | (Ok bytes, s1) =>
      exists s2,
        takeIntelligentScreenshot (B := Toy.browser) "https://x/" plainOptions
                                  (start hdPage)
        = (Ok (mkResult (Some bytes) None false None), s2) /\
        world s2 = world s1
  | (Throw message, s1) =>
      exists cause s2,
        message = "Screenshot failed: " +++ cause /\
        takeIntelligentScreenshot (B := Toy.browser) "https://x/" plainOptions
                                  (start hdPage)
        = (Throw ("Intelligent screenshot failed: " +++ cause), s2) /\
        world s2 = world s1
  end.
Proof.
  split; [reflexivity|].
  exact (CaptureCoverage.plain_methods_agree (B := Toy.browser)
           "https://x/" plainOptions (start hdPage) eq_refl).
Defined.

Lemma unreadable_page_witness :
  LinkAlive blind /\
  (forall w, exists e w', page_evaluate (Browser := blind) w = (Throw e, w')) /\
  exists bytes s',
    takeIntelligentScreenshot (B := blind) "https://x/" defaultOptions (start hdPage)
    = (Ok (mkResult (Some bytes) None false (Some (mkDetection false None []))),
       s').
Proof.
  assert (Hb : forall w,
             exists e w', page_evaluate (Browser := blind) w = (Throw e, w')).
  { intros w. eexists. eexists. reflexivity. }
  split; [exact blind_alive|]. split; [exact Hb|].
  exact (CaptureCoverage.unreadable_page_gets_plain_capture (B := blind)
           "https://x/" defaultOptions (start hdPage) blind_alive Hb eq_refl).
Defined.

(** The same 1280x720 [og:image] page, read or not: the address when
    the scripts run, the plain capture when they do not. *)
Example readable_page_returns_address :
  thumbnailUrl (resultOf hdPage) = Some "https://x/a.jpg"%string /\
  image (resultOf hdPage) = None.
Proof. split; vm_compute; reflexivity. Qed.

Lemma optionalApiKey_witness :
  Auth.passes (Auth.validateApiKey
                 (Auth.mkEnv (Some "secret"%string) None)
                 (Auth.mkCredentials (Some "secret"%string) None)) = true /\
  Auth.passes (Auth.optionalApiKey
                 (Auth.mkEnv (Some "secret"%string) None)
                 (Auth.mkCredentials (Some "secret"%string) None)) = true.
Proof.
  split; [reflexivity|].
  apply AuthCoverage.optionalApiKey_is_weaker. left. reflexivity.
Defined.

(** A wrong key in the header is refused although the query carries
    the right one. *)
Example wrong_header_beats_right_query :
  Auth.validateApiKey (Auth.mkEnv (Some "secret"%string) None)
                      (Auth.mkCredentials (Some "guess"%string) (Some "secret"%string))
  = Auth.Status401 "Invalid API key provided.".
Proof. reflexivity. Qed.


(** A request for a private address is answered with status 400 and
    leaves the log empty. *)
Example private_address_is_refused :
  ScreenshotRoute.postScreenshot (B := Toy.browser) hostnameOf (Some "true"%string)
    "http://10.0.0.5/admin" defaultOptions (start hdPage)
  = (Ok (ScreenshotRoute.Status400 "Invalid URL"
           "Private IP addresses and localhost are not allowed"),
     start hdPage).
Proof. vm_compute. reflexivity. Qed.

(** Two custom selectors on a page showing both: each is clicked
    once, in the order given. *)
Example custom_selectors_clicked_in_order :
  clicked (log (snd (handleCustomBanners (B := Toy.browser)
                       ["#close"; "#missing"; "#accept"]%string
                       (start twoButtons))))
  = ["#close"; "#accept"]%string.
Proof. vm_compute. reflexivity. Qed.

(** Launching, warming up and closing with the counting launcher. *)
Example browser_lifecycle :
  let fresh := BrowserLifecycle.mkManager (None : option nat) false in
  let warmed := BrowserLifecycle.warmUp (P := BrowserLifecycle.counting) fresh 0%nat in
  BrowserLifecycle.browser (fst warmed) = Some 1%nat /\
  snd warmed = 1%nat /\
  BrowserLifecycle.getBrowser (P := BrowserLifecycle.counting) (fst warmed) (snd warmed)
  = (Ok 1%nat, fst warmed, 1%nat).
Proof. repeat split. Qed.

End CoverageExamples.
